(** * rollinglogger: a size-based rotating log writer

    A shallow embedding of [log.go] (package [rollinglogger]) and the proofs
    of its specification.  The Go code is a single type, [Logger], whose
    [Write] method appends to an active file and, when the file would grow
    past the policy maximum, closes it, gzips it into a time-stamped archive
    and starts an empty file.

    Layout: machine integers, the pieces of Go's standard library the code
    calls ([path/filepath], [time], [fmt], [os], [io], [compress/gzip]), then
    the logger itself, then the theorems. *)

From Stdlib Require Import ZArith List String Ascii Lia Bool.
From Stdlib.Strings Require Byte.
From stdpp Require Import base option list gmap strings.

Local Open Scope Z_scope.

(** ** Go's [int]

    [int] is 64 bits wide on the platforms the package is built for; sums and
    products wrap around in two's complement. *)
Module GoInt.

Definition min_int : Z := - 2 ^ 63.
Definition max_int : Z := 2 ^ 63 - 1.

Definition in_range (z : Z) : Prop := min_int <= z <= max_int.

Definition wrap (z : Z) : Z := (z + 2 ^ 63) mod 2 ^ 64 - 2 ^ 63.

Definition add (a b : Z) : Z := wrap (a + b).
Definition mul (a b : Z) : Z := wrap (a * b).

End GoInt.

(** ** Separators in strings *)

Definition is_sep (c : ascii) : bool := Ascii.eqb c "/".

Fixpoint has_sep (s : string) : bool :=
  match s with
  | EmptyString => false
  | String c s' => is_sep c || has_sep s'
  end.

Fixpoint all_sep (s : string) : bool :=
  match s with
  | EmptyString => true
  | String c s' => is_sep c && all_sep s'
  end.

(** ** [path/filepath] on a Unix system

    [Clean] is modelled at the granularity of path elements: the path is cut
    at every separator and the elements are pushed on a stack, [.] and empty
    elements dropped, [..] popping the element before it. *)
Module filepath.

(** [strings.Split(s, "/")]. *)
Fixpoint split_sep (s : string) : list string :=
  match s with
  | EmptyString => [EmptyString]
  | String c s' =>
      if is_sep c then EmptyString :: split_sep s'
      else match split_sep s' with
           | x :: xs => String c x :: xs
           | [] => [String c EmptyString]
           end
  end.

(** One element of the loop of [Clean]; [st] is the output so far, last
    element first. *)
Definition clean_step (rooted : bool) (st : list string) (e : string)
  : list string :=
  if String.eqb e "" || String.eqb e "." then st
  else if String.eqb e ".." then
    match st with
    | top :: rest =>
        if String.eqb top ".." then ".." :: st else rest
    | [] => if rooted then [] else [".."]
    end
  else e :: st.

Definition is_rooted (path : string) : bool :=
  match path with
  | String c _ => is_sep c
  | EmptyString => false
  end.

(** The elements of a cleaned path written out, first element first. *)
Fixpoint render (elems : list string) : string :=
  match elems with
  | [] => ""
  | [e] => e
  | e :: rest => e +:+ "/" +:+ render rest
  end.

Definition Clean (path : string) : string :=
  if String.eqb path "" then "."
  else
    let rooted := is_rooted path in
    let st := fold_left (clean_step rooted) (split_sep path) [] in
    if rooted then "/" +:+ render (rev st)
    else match st with
         | [] => "."
         | _ => render (rev st)
         end.

(** [path[:i+1]] for [i] the index of the last separator. *)
Fixpoint dir_prefix (s : string) : string :=
  match s with
  | EmptyString => ""
  | String c s' => if has_sep s then String c (dir_prefix s') else ""
  end.

Definition Dir (path : string) : string := Clean (dir_prefix path).

Fixpoint strip_trailing (s : string) : string :=
  match s with
  | EmptyString => ""
  | String c s' => if all_sep s then "" else String c (strip_trailing s')
  end.

Fixpoint after_last_sep (s : string) : string :=
  match s with
  | EmptyString => ""
  | String c s' => if has_sep s then after_last_sep s' else s
  end.

Definition Base (path : string) : string :=
  if String.eqb path "" then "."
  else
    let last := after_last_sep (strip_trailing path) in
    if String.eqb last "" then "/" else last.

(** [Join] of two elements. *)
Definition Join (dir name : string) : string :=
  if negb (String.eqb dir "") then Clean (dir +:+ "/" +:+ name)
  else if negb (String.eqb name "") then Clean name
  else "".

(** A proper element: not empty, no separator, neither [.] nor [..]. *)
Definition plain (e : string) : Prop :=
  has_sep e = false /\ e <> "" /\ e <> "." /\ e <> "..".

(** The directory part of a rendered path: every element with its
    separator. *)
Fixpoint stems (elems : list string) : string :=
  match elems with
  | [] => ""
  | e :: rest => e +:+ "/" +:+ stems rest
  end.

(** A directory part: empty, or ending in a separator. *)
Definition dirlike (p : string) : Prop := p = "" \/ exists q, p = q +:+ "/".

(** What [Clean] makes of all of [x] but its last element. *)
Definition clean_dir (x : string) : string :=
  (if is_rooted x then "/" else "") +:+
  stems (rev (fold_left (clean_step (is_rooted x)) (removelast (split_sep x)) [])).

End filepath.

(** ** [time]: a clock reading and [Format]

    A reading is kept by its wall-clock fields, which is what [Format] and
    [Nanosecond] look at. *)
Module gotime.

Record Time := mkTime {
  year : Z; month : Z; day : Z;
  hour : Z; minute : Z; second : Z;
  nanosecond : Z
}.

Definition valid (t : Time) : Prop :=
  0 <= year t <= 9999 /\ 1 <= month t <= 12 /\ 1 <= day t <= 31 /\
  0 <= hour t <= 23 /\ 0 <= minute t <= 59 /\ 0 <= second t <= 59 /\
  0 <= nanosecond t <= 999999999.

Definition digit_char (d : Z) : ascii := ascii_of_nat (48 + Z.to_nat d).

(** The decimal loop of [appendInt] and of [fmt]'s integer verb: digits are
    produced from the least significant one, into a buffer of 20 bytes. *)
Fixpoint utoa (fuel : nat) (u : Z) (acc : string) : string :=
  match fuel with
  | O => acc
  | S f =>
      if u <? 10 then String (digit_char u) acc
      else utoa f (u / 10) (String (digit_char (u mod 10)) acc)
  end.

Definition decimal (u : Z) : string := utoa 20 u "".

Fixpoint zeros (n : nat) : string :=
  match n with
  | O => ""
  | S n' => String "0" (zeros n')
  end.

Definition sign (x : Z) : string := if x <? 0 then "-" else "".

(** [appendInt(b, x, width)]: zero-padded to [width]. *)
Definition appendInt (x : Z) (width : nat) : string :=
  let ds := decimal (Z.abs x) in
  sign x +:+ zeros (width - String.length ds) +:+ ds.

(** [fmt.Sprintf("%d", x)]. *)
Definition fmt_d (x : Z) : string := sign x +:+ decimal (Z.abs x).

(** [t.Format("2006-01-02-15-04-05")]. *)
Definition Format (t : Time) : string :=
  appendInt (year t) 4 +:+ "-" +:+ appendInt (month t) 2 +:+ "-" ++
  appendInt (day t) 2 +:+ "-" +:+ appendInt (hour t) 2 +:+ "-" ++
  appendInt (minute t) 2 +:+ "-" +:+ appendInt (second t) 2.

Definition is_digit (c : ascii) : bool :=
  (48 <=? nat_of_ascii c)%nat && (nat_of_ascii c <=? 57)%nat.

Fixpoint all_digits (s : string) : bool :=
  match s with
  | EmptyString => true
  | String c s' => is_digit c && all_digits s'
  end.

(** The [w] least significant decimal digits of [x], most significant
    first: what a zero-padded field of width [w] holds. *)
Fixpoint fixed (w : nat) (x : Z) : string :=
  match w with
  | O => ""
  | S w' => fixed w' (x / 10) +:+ String (digit_char (x mod 10)) ""
  end.

(** Wall-clock order of two readings. *)
Fixpoint lex_ltb (a b : list Z) : bool :=
  match a, b with
  | x :: a', y :: b' => (x <? y) || ((x =? y) && lex_ltb a' b')
  | _, _ => false
  end.

(** Comparison of two lists of fields, [k] deciding between equal ones. *)
Fixpoint lex_compare (a b : list Z) (k : comparison) : comparison :=
  match a, b with
  | x :: a', y :: b' =>
      match x ?= y with
      | Eq => lex_compare a' b' k
      | ne => ne
      end
  | _, _ => k
  end.

Definition to_second (t : Time) : list Z :=
  [year t; month t; day t; hour t; minute t; second t].

Definition fields (t : Time) : list Z := to_second t ++ [nanosecond t].

Definition before (t1 t2 : Time) : Prop := lex_ltb (fields t1) (fields t2) = true.

End gotime.

(** ** Errors and the state-and-error monad

    Every Go function of the package returns an [error]; the ones of the
    standard library return theirs, which the package either passes on as it
    is or replaces by a message of its own ([fmt.Errorf]). *)

Abbreviation byte := Byte.byte.

Definition len (p : list byte) : Z := Z.of_nat (length p).

Inductive error : Type :=
| ErrNotExist                              (* [os.IsNotExist] holds of it *)
| ErrInvalid                               (* [os.ErrInvalid]: a nil [*os.File] *)
| ErrSys (msg : string)                    (* any other error of the system *)
| ErrTooLarge (cursize maxsize : Z)        (* "write length %d larger than the maxsize" *)
| ErrStat (name : string)                  (* "error in getting file %s stat" *)
| ErrOpenFile (name : string)              (* "error in opening file %s " *)
| ErrOpenCompressed.                       (* "error in opening compressed log file %s" *)

Definition IsNotExist (e : error) : bool :=
  match e with ErrNotExist => true | _ => false end.

Inductive result (A : Type) : Type :=
| Ok (a : A)
| Err (e : error).
Arguments Ok {A} a.
Arguments Err {A} e.

Definition M (S A : Type) : Type := S -> S * result A.

#[global] Instance M_ret {S} : MRet (M S) := fun A a s => (s, Ok a).
#[global] Instance M_bind {S} : MBind (M S) := fun A B k m s =>
  match m s with
  | (s', Ok a) => k a s'
  | (s', Err e) => (s', Err e)
  end.

Definition fail {S A} (e : error) : M S A := fun s => (s, Err e).
Definition modify {S} (f : S -> S) : M S unit := fun s => (f s, Ok tt).

(** [x, err := m] with the error kept as a value, for the callers that look
    at it. *)
Definition try {S A} (m : M S A) : M S (result A) :=
  fun s => let '(s', r) := m s in (s', Ok r).

(** [x, err := m; if err != nil { return e }]. *)
Definition orfail {S A} (m : M S A) (e : error) : M S A :=
  fun s => match m s with
           | (s', Ok a) => (s', Ok a)
           | (s', Err _) => (s', Err e)
           end.

(** [defer d] in front of [body]: [d] runs when [body] returns, whatever it
    returns, and what [d] returns is dropped. *)
Definition defer {S A B} (d : M S B) (body : M S A) : M S A :=
  fun s => let '(s', r) := body s in (fst (d s'), r).

(** ** [os], [io], [compress/gzip]: the file system

    The file system is a finite map from names to files.  Every call that can
    fail takes its outcome from [faults], a schedule fixed in advance (an
    exhausted schedule means success), and is recorded in [trace].  Names
    are taken as they are written: two spellings of one path are two names. *)

Record file := mkFile { contents : list byte; perm : Z }.

(** The combinations of flags the package opens files with. *)
Inductive flags := O_RDONLY | O_CREATE_WRONLY_TRUNC | O_WRONLY_APPEND.

(** [*os.File] *)
Record os_File := mkHandle { f_name : string; f_flags : flags }.

Record FileInfo := mkInfo { fi_size : Z; fi_mode : Z }.

Inductive call :=
| CStat (name : string)
| COpen (name : string)
| COpenFile (name : string) (fl : flags)
| CWrite (f : os_File) (n : nat)
| CClose (f : os_File)
| CCopy (dst src : os_File)
| CGzClose (dst : os_File)
| CRemove (name : string).

#[global] Instance flags_eq_dec : EqDecision flags.
Proof. solve_decision. Defined.
#[global] Instance os_File_eq_dec : EqDecision os_File.
Proof. solve_decision. Defined.
#[global] Instance call_eq_dec : EqDecision call.
Proof. solve_decision. Defined.

(** A call and the error it returned, if any. *)
Record event := Ev { ev_call : call; ev_err : option error }.

(** What the system does at a call: it goes through, or it fails with a
    message after moving [progress] bytes (of a write or a copy). *)
Inductive outcome := Succeeds | Fails (msg : string) (progress : nat).

Record World := mkWorld {
  files : gmap string file;
  faults : list outcome;
  trace : list event;
  clock : nat -> gotime.Time;
  ticks : nat
}.

(** A lossless compressor, as [gzip.Writer] sees it: what it has sent to the
    archive once the input is copied, and the trailer [Close] adds. *)
Class Gzip := {
  gz_body : list byte -> list byte;
  gz_trailer : list byte -> list byte
}.

(** [*gzip.Writer]: the file it writes to and the input it has consumed. *)
Record gzip_Writer := mkGz { gz_dst : os_File; gz_seen : list byte }.

Module os.

Definition next_outcome (w : World) : outcome :=
  match faults w with
  | o :: _ => o
  | [] => Succeeds
  end.

Definition err_of {A} (r : result A) : option error :=
  match r with
  | Ok _ => None
  | Err e => Some e
  end.

(** The world after a call [c] that returned [e] and left the files [fs]:
    the schedule advances and the call is logged. *)
Definition advance (c : call) (e : option error) (fs : gmap string file)
  (w : World) : World :=
  {| files := fs; faults := tail (faults w);
     trace := trace w ++ [Ev c e];
     clock := clock w; ticks := ticks w |}.

Definition reply {A} (c : call) (fs : gmap string file) (r : result A)
  (w : World) : World * result A :=
  (advance c (err_of r) fs w, r).

Definition append_to (name : string) (bs : list byte) (fs : gmap string file)
  : gmap string file :=
  match fs !! name with
  | Some f => <[name := mkFile (contents f ++ bs) (perm f)]> fs
  | None => fs
  end.

Definition Stat (name : string) : M World FileInfo := fun w =>
  match next_outcome w with
  | Fails msg _ => reply (CStat name) (files w) (Err (ErrSys msg)) w
  | Succeeds =>
      match files w !! name with
      | None => reply (CStat name) (files w) (Err ErrNotExist) w
      | Some f =>
          reply (CStat name) (files w)
            (Ok (mkInfo (len (contents f)) (perm f))) w
      end
  end.

(** [os.Open]: for reading. *)
Definition Open (name : string) : M World os_File := fun w =>
  match next_outcome w with
  | Fails msg _ => reply (COpen name) (files w) (Err (ErrSys msg)) w
  | Succeeds =>
      match files w !! name with
      | None => reply (COpen name) (files w) (Err ErrNotExist) w
      | Some _ => reply (COpen name) (files w) (Ok (mkHandle name O_RDONLY)) w
      end
  end.

Definition creates (fl : flags) : bool :=
  match fl with
  | O_CREATE_WRONLY_TRUNC => true
  | _ => false
  end.

(** [os.OpenFile]: with [O_CREATE] and [O_TRUNC] the file is created with
    mode [mode], or emptied when it is there; without them it has to
    exist.  A created file gets the requested mode as it is, which is what
    a process with umask 0 sees: under another umask the system clears
    those bits in the mode of every file it creates, and the mode of a
    created file is to be read with that in mind. *)
Definition OpenFile (name : string) (fl : flags) (mode : Z)
  : M World os_File := fun w =>
  let c := COpenFile name fl in
  match next_outcome w with
  | Fails msg _ => reply c (files w) (Err (ErrSys msg)) w
  | Succeeds =>
      match files w !! name with
      | None =>
          if creates fl
          then reply c (<[name := mkFile [] mode]> (files w))
                 (Ok (mkHandle name fl)) w
          else reply c (files w) (Err ErrNotExist) w
      | Some f =>
          if creates fl
          then reply c (<[name := mkFile [] (perm f)]> (files w))
                 (Ok (mkHandle name fl)) w
          else reply c (files w) (Ok (mkHandle name fl)) w
      end
  end.

(** [Write] of an [os.File]: the count is [len(p)] exactly when there is no
    error; a failing write may have moved a prefix of [p]. *)
Definition Write (f : os_File) (p : list byte) : M World Z := fun w =>
  match next_outcome w with
  | Fails msg k =>
      reply (CWrite f (Nat.min k (length p)))
        (append_to (f_name f) (take k p) (files w)) (Err (ErrSys msg)) w
  | Succeeds =>
      reply (CWrite f (length p))
        (append_to (f_name f) p (files w)) (Ok (len p)) w
  end.

Definition Close (f : os_File) : M World unit := fun w =>
  match next_outcome w with
  | Fails msg _ => reply (CClose f) (files w) (Err (ErrSys msg)) w
  | Succeeds => reply (CClose f) (files w) (Ok tt) w
  end.

Definition Remove (name : string) : M World unit := fun w =>
  match next_outcome w with
  | Fails msg _ => reply (CRemove name) (files w) (Err (ErrSys msg)) w
  | Succeeds =>
      match files w !! name with
      | None => reply (CRemove name) (files w) (Err ErrNotExist) w
      | Some _ => reply (CRemove name) (delete name (files w)) (Ok tt) w
      end
  end.

(** [time.Now()] *)
Definition Now : M World gotime.Time := fun w =>
  ({| files := files w; faults := faults w; trace := trace w;
      clock := clock w; ticks := S (ticks w) |},
   Ok (clock w (ticks w))).

Definition read_all (name : string) (w : World) : list byte :=
  match files w !! name with
  | Some f => contents f
  | None => []
  end.

End os.

Section Compressor.
Context `{Gzip}.

(** [gzip.NewWriter(gzf)]: nothing is written yet. *)
Definition gzip_NewWriter (gzf : os_File) : gzip_Writer := mkGz gzf [].

(** [io.Copy(gz, file)]: the whole of [file] goes through the compressor
    into the archive. *)
Definition io_Copy (gz : gzip_Writer) (src : os_File) : M World gzip_Writer :=
  fun w =>
    let data := os.read_all (f_name src) w in
    let dst := f_name (gz_dst gz) in
    let c := CCopy (gz_dst gz) src in
    match os.next_outcome w with
    | Fails msg k =>
        os.reply c (os.append_to dst (take k (gz_body data)) (files w))
          (Err (ErrSys msg)) w
    | Succeeds =>
        os.reply c (os.append_to dst (gz_body data) (files w))
          (Ok (mkGz (gz_dst gz) (gz_seen gz ++ data))) w
    end.

(** [gz.Close()]: flushes the compressor and writes the trailer; the file
    under it stays open. *)
Definition gzip_Close (gz : gzip_Writer) : M World unit := fun w =>
  let dst := f_name (gz_dst gz) in
  let c := CGzClose (gz_dst gz) in
  match os.next_outcome w with
  | Fails msg k =>
      os.reply c (os.append_to dst (take k (gz_trailer (gz_seen gz))) (files w))
        (Err (ErrSys msg)) w
  | Succeeds =>
      os.reply c (os.append_to dst (gz_trailer (gz_seen gz)) (files w))
        (Ok tt) w
  end.

End Compressor.

(** ** The logger *)

Definition defaultMaxSize : Z := 100.
Definition megabyte : Z := 1024 * 1024.
Definition ext : string := ".gz".

(** [Logger]; the mutex [mu] serialises the calls of [Write], which are
    modelled one after the other. *)
Record Logger := mkLogger {
  Filename : string;
  MaxSize : Z;
  size : Z;
  fd : option os_File
}.

Definition State : Type := Logger * World.

(** A call of the standard library, from inside a method. *)
Definition sys {A} (m : M World A) : M State A := fun s =>
  let '(w', r) := m (snd s) in ((fst s, w'), r).

Definition self : M State Logger := fun s => (s, Ok (fst s)).

Definition with_fd (l : Logger) (f : option os_File) : Logger :=
  {| Filename := Filename l; MaxSize := MaxSize l; size := size l; fd := f |}.

Definition with_size (l : Logger) (n : Z) : Logger :=
  {| Filename := Filename l; MaxSize := MaxSize l; size := n; fd := fd l |}.

(** [l.fd = f] and [l.size = n]. *)
Definition set_fd (f : option os_File) : M State unit :=
  modify (fun s => (with_fd (fst s) f, snd s)).

Definition set_size (n : Z) : M State unit :=
  modify (fun s => (with_size (fst s) n, snd s)).

Definition of_result {S A} (r : result A) : M S A := fun s => (s, r).

Definition max (l : Logger) : Z :=
  if MaxSize l =? 0 then defaultMaxSize * megabyte
  else GoInt.mul (MaxSize l) megabyte.

Definition close : M State unit :=
  l ← self;
  match fd l with
  | None => mret tt
  | Some f =>
      r ← try (sys (os.Close f));
      set_fd None;;
      of_result r
  end.

(** The name [getBackupFileName] builds from the reading [t] of the clock. *)
Definition backupFileNameAt (filename : string) (t : gotime.Time) : string :=
  let dir := filepath.Dir filename in
  let base := filepath.Base filename in
  filepath.Join dir
    (gotime.Format t +:+ "-" +:+ gotime.fmt_d (gotime.nanosecond t) +:+ "-"
       +:+ base +:+ ext).

(** The name of an archive without its directory. *)
Definition stamped (filename : string) (t : gotime.Time) : string :=
  gotime.Format t +:+ "-" +:+ gotime.fmt_d (gotime.nanosecond t) +:+ "-"
    +:+ filepath.Base filename +:+ ext.

(** What follows the stamp in the name of an archive. *)
Definition after_stamp (filename : string) (t : gotime.Time) : string :=
  gotime.decimal (gotime.nanosecond t) +:+ "-" +:+ filepath.Base filename +:+ ext.

(** The directory part of the archives of [filename], separator included. *)
Definition archive_dir (filename : string) : string :=
  let dir := filepath.Dir filename in
  if String.eqb dir "" then "" else filepath.clean_dir (dir +:+ "/").

Definition getBackupFileName : M State string :=
  l ← self;
  currentTime ← sys os.Now;
  mret (backupFileNameAt (Filename l) currentTime).

(** The first call of a run that failed, with its error. *)
Fixpoint first_failure (evs : list event) : option (call * error) :=
  match evs with
  | [] => None
  | Ev c (Some e) :: _ => Some (c, e)
  | Ev _ None :: rest => first_failure rest
  end.

(** What [composeFile] returns when the call [c] fails with [e]: a message
    of its own for the three calls on names, the error itself for the rest. *)
Definition seal_error (c : call) (e : error) : error :=
  match c with
  | COpen name => ErrOpenFile name
  | CStat name => ErrStat name
  | COpenFile _ _ => ErrOpenCompressed
  | _ => e
  end.

Section Logger.
Context `{Gzip}.

Definition composeFile : M State unit :=
  l ← self;
  file ← orfail (sys (os.Open (Filename l))) (ErrOpenFile (Filename l));
  defer (sys (os.Close file)) (
    fileinfo ← orfail (sys (os.Stat (Filename l))) (ErrStat (Filename l));
    dst ← getBackupFileName;
    gzf ← orfail (sys (os.OpenFile dst O_CREATE_WRONLY_TRUNC (fi_mode fileinfo)))
                 ErrOpenCompressed;
    defer (sys (os.Close gzf)) (
      gz ← sys (io_Copy (gzip_NewWriter gzf) file);
      sys (gzip_Close gz);;
      sys (os.Remove (Filename l)))).

Definition openNewFile : M State unit :=
  l ← self;
  file ← orfail (sys (os.OpenFile (Filename l) O_CREATE_WRONLY_TRUNC 493))
                (ErrOpenFile (Filename l));
  set_fd (Some file);;
  set_size 0.

Definition makeNewFile : M State unit :=
  close;;
  composeFile;;
  openNewFile.

Definition openFile (curlen : Z) : M State unit :=
  l ← self;
  r ← try (sys (os.Stat (Filename l)));
  match r with
  | Err e =>
      if IsNotExist e then openNewFile
      else fail (ErrStat (Filename l))
  | Ok fileinfo =>
      if GoInt.add (fi_size fileinfo) curlen >=? max l then makeNewFile
      else
        file ← orfail (sys (os.OpenFile (Filename l) O_WRONLY_APPEND 493))
                      (ErrOpenFile (Filename l));
        set_fd (Some file);;
        set_size (fi_size fileinfo)
  end.

(** The body of [Write], between taking and releasing the lock. *)
Definition Write_body (p : list byte) : M State Z :=
  l ← self;
  let cursize := len p in
  if cursize >? max l then fail (ErrTooLarge cursize (max l))
  else
    (if fd l is None then openFile cursize else mret tt);;
    l ← self;
    (if GoInt.add (size l) cursize >? max l then makeNewFile else mret tt);;
    l ← self;
    n ← match fd l with
        | Some f => sys (os.Write f p)
        | None => fail ErrInvalid
        end;
    set_size (GoInt.add (size l) n);;
    mret n.

(** [Write]: the count and the error as Go returns them; every error
    return of the body is [return 0, err]. *)
Definition Write (p : list byte) (s : State) : State * (Z * option error) :=
  match Write_body p s with
  | (s', Ok n) => (s', (n, None))
  | (s', Err e) => (s', (0, Some e))
  end.

End Logger.

(** ** Notions the statements use *)

(** The logger over a file just created, and over a file taken up again with
    [n] bytes in it. *)
Definition fresh (l : Logger) : Logger :=
  {| Filename := Filename l; MaxSize := MaxSize l; size := 0;
     fd := Some (mkHandle (Filename l) O_CREATE_WRONLY_TRUNC) |}.

Definition resumed (l : Logger) (n : Z) : Logger :=
  {| Filename := Filename l; MaxSize := MaxSize l; size := n;
     fd := Some (mkHandle (Filename l) O_WRONLY_APPEND) |}.

(** What [l.size] is when [Write] reaches the append, read off the state in
    which [Write] was called: the size as it is when the open file has room,
    the size on disk when a file is taken up again, 0 after a rotation or for
    a new file. *)
Definition size_before_append (p : list byte) (l : Logger) (w : World) : Z :=
  match fd l with
  | Some _ => if GoInt.add (size l) (len p) >? max l then 0 else size l
  | None =>
      match files w !! Filename l with
      | None => 0
      | Some f =>
          if GoInt.add (len (contents f)) (len p) >=? max l then 0
          else len (contents f)
      end
  end.

(** The events [w'] has on top of [w]. *)
Definition new_events (w w' : World) : list event :=
  drop (length (trace w)) (trace w').

(** Two worlds that differ by the calls [evs]: the trace has grown by them,
    the schedule has answered them, the clock is the same one. *)
Definition emits (w w' : World) (evs : list event) : Prop :=
  trace w' = trace w ++ evs /\ clock w' = clock w /\
  faults w' = drop (length evs) (faults w) /\ (ticks w <= ticks w')%nat.

Definition is_write (ev : event) : bool :=
  match ev_call ev with
  | CWrite _ _ => true
  | _ => false
  end.

(** The events of a rotation that goes through: the close of the open file
    (which returned [rc]), the seal, the new file. *)
Definition rotation_events (l : Logger) (w : World) (rc r1 r2 : option error)
  : list event :=
  let name := Filename l in
  let dst := backupFileNameAt name (clock w (ticks w)) in
  let gzf := mkHandle dst O_CREATE_WRONLY_TRUNC in
  let file := mkHandle name O_RDONLY in
  match fd l with
  | Some f => [Ev (CClose f) rc]
  | None => []
  end ++
  [Ev (COpen name) None; Ev (CStat name) None;
   Ev (COpenFile dst O_CREATE_WRONLY_TRUNC) None;
   Ev (CCopy gzf file) None; Ev (CGzClose gzf) None;
   Ev (CRemove name) None; Ev (CClose gzf) r1; Ev (CClose file) r2;
   Ev (COpenFile name O_CREATE_WRONLY_TRUNC) None].

(** The archive a seal of [f] leaves under the name [dst]. *)
Definition archive_of `{Gzip} (f : file) (w : World) (dst : string) : file :=
  mkFile (gz_body (contents f) ++ gz_trailer (contents f))
    (from_option perm (perm f) (files w !! dst)).

(** The files after a rotation: the archive, and an empty file under the
    name of the one it was made from. *)
Definition rotated_files `{Gzip} (l : Logger) (w : World) (f : file)
  : gmap string file :=
  let name := Filename l in
  let dst := backupFileNameAt name (clock w (ticks w)) in
  <[name := mkFile [] 493]> (<[dst := archive_of f w dst]> (files w)).

(** Where the call [c] first stands in a list of events, and one call
    standing before another. *)
Fixpoint position (c : call) (evs : list event) : option nat :=
  match evs with
  | [] => None
  | ev :: rest =>
      if decide (ev_call ev = c) then Some 0%nat else S <$> position c rest
  end.

Definition precedes (a b : call) (evs : list event) : Prop :=
  exists i j, position a evs = Some i /\ position b evs = Some j /\ (i < j)%nat.

(** A rotation was started on the open file [f]: its close is the first of
    the events. *)
Definition rotation_started (f : os_File) (evs : list event) : Prop :=
  exists rc rest, evs = Ev (CClose f) rc :: rest.

(** A schedule none of whose failures leaves part of the data behind. *)
Definition clean_failure (o : outcome) : Prop :=
  match o with
  | Succeeds => True
  | Fails _ k => k = 0%nat
  end.

(** The length of the file under the logger's name, if there is one. *)
Definition disk_size (l : Logger) (w : World) : option Z :=
  (fun f => len (contents f)) <$> files w !! Filename l.

(** The bookkeeping agrees with the disk: an open handle is on the file of
    the logger's name, and [size] is the length of that file. *)
Definition consistent (l : Logger) (w : World) : Prop :=
  forall h, fd l = Some h ->
    f_name h = Filename l /\
    exists f, files w !! Filename l = Some f /\ len (contents f) = size l.

(** The bookkeeping agrees with the disk, and the file at the logger's name
    is shorter than [2^62] bytes. *)
Definition in_step (l : Logger) (w : World) : Prop :=
  consistent l w /\
  forall f, files w !! Filename l = Some f -> len (contents f) < 2 ^ 62.

(** A sequence of calls of [Write], with the state before and after each. *)
Record step := mkStep {
  before : State;
  buf : list byte;
  after : State;
  count : Z;
  err : option error
}.

Section Run.
Context `{Gzip}.

Fixpoint run (ps : list (list byte)) (s : State) : list step :=
  match ps with
  | [] => []
  | p :: ps' =>
      let r := Write p s in
      mkStep s p (fst r) (fst (snd r)) (snd (snd r)) :: run ps' (fst r)
  end.

End Run.

(** ** Sample data: a compressor that stores its input as it is, a clock
    that ticks every nanosecond, an empty disk. *)

Definition stored : Gzip :=
  {| gz_body := fun data => data; gz_trailer := fun _ => [] |}.

Definition sample_clock (n : nat) : gotime.Time :=
  gotime.mkTime 2024 3 9 7 5 0 (Z.of_nat n).

(** Two readings in one second, 9 and 10 nanoseconds into it. *)
Definition at_9ns : gotime.Time := gotime.mkTime 2024 3 9 7 5 0 9.
Definition at_10ns : gotime.Time := gotime.mkTime 2024 3 9 7 5 0 10.

Definition empty_world : World :=
  {| files := ∅; faults := []; trace := []; clock := sample_clock; ticks := 0 |}.

Definition sample_logger : Logger :=
  {| Filename := "/var/log/app.log"; MaxSize := 1; size := 0; fd := None |}.

Definition bytes (s : string) : list byte := String.list_byte_of_string s.

(** A disk with a log of five bytes on it, and a schedule. *)
Definition sample_world (fl : list outcome) : World :=
  {| files := {[ "/var/log/app.log" := mkFile (bytes "12345") 420 ]};
     faults := fl; trace := []; clock := sample_clock; ticks := 0 |}.

(** A logger with a file open that the bookkeeping puts two bytes under the
    limit of 1 MiB. *)
Definition nearly_full : Logger :=
  {| Filename := "/var/log/app.log"; MaxSize := 1; size := 1048574;
     fd := Some (mkHandle "/var/log/app.log" O_WRONLY_APPEND) |}.

Definition sample_archive : string :=
  backupFileNameAt "/var/log/app.log" (sample_clock 0).

(** Sample runs: the first five bytes a new logger writes; a write on an
    open file that the disk cuts short after three bytes; a write that has
    to rotate; a seal during which the copy fails (the schedule lets the
    open, the stat and the creation of the archive through); a seal that
    goes through. *)
Definition first_write : State * (Z * option error) :=
  @Write stored (bytes "12345") (sample_logger, empty_world).

Definition short_write : State * (Z * option error) :=
  @Write stored (bytes "67890")
    (fresh sample_logger, sample_world [Fails "ENOSPC" 3]).

Definition rotating_write : State * (Z * option error) :=
  @Write stored (bytes "67890") (nearly_full, sample_world []).

Definition failing_seal : State * result unit :=
  @composeFile stored
    (sample_logger, sample_world [Succeeds; Succeeds; Succeeds; Fails "EIO" 2]).

Definition good_seal : State * result unit :=
  @composeFile stored (sample_logger, sample_world []).

(** ** Further notions: open handles, the stages of a seal, whole runs *)

(** The handles a logger holds: the one in [fd], if any. *)
Definition handles_of (l : Logger) : list os_File := option_list (fd l).

Fixpoint remove_first (f : os_File) (hs : list os_File) : list os_File :=
  match hs with
  | [] => []
  | h :: rest => if decide (h = f) then rest else h :: remove_first f rest
  end.

(** The handles that are open after a call, from those open before it: an
    open that goes through adds its handle, a close gives its handle up
    whatever it returns, as [close(2)] does. *)
Definition track (hs : list os_File) (ev : event) : list os_File :=
  match ev with
  | Ev (COpen name) None => mkHandle name O_RDONLY :: hs
  | Ev (COpenFile name fl) None => mkHandle name fl :: hs
  | Ev (CClose f) _ => remove_first f hs
  | _ => hs
  end.

Definition open_after (hs : list os_File) (evs : list event) : list os_File :=
  fold_left track evs hs.

(** The six calls of a seal, in the order [composeFile] makes them. *)
Definition seal_calls (l : Logger) (w : World) : list call :=
  let name := Filename l in
  let dst := backupFileNameAt name (clock w (ticks w)) in
  let gzf := mkHandle dst O_CREATE_WRONLY_TRUNC in
  let file := mkHandle name O_RDONLY in
  [COpen name; CStat name; COpenFile dst O_CREATE_WRONLY_TRUNC;
   CCopy gzf file; CGzClose gzf; CRemove name].

(** The deferred closes of a seal whose first [k] calls went through: that
    of the archive when it was created, then that of the file when it was
    opened. *)
Definition deferred_closes (l : Logger) (w : World) (k : nat)
  (r1 r2 : option error) : list event :=
  let name := Filename l in
  let dst := backupFileNameAt name (clock w (ticks w)) in
  (if (3 <=? k)%nat
   then [Ev (CClose (mkHandle dst O_CREATE_WRONLY_TRUNC)) r1] else []) ++
  (if (1 <=? k)%nat
   then [Ev (CClose (mkHandle name O_RDONLY)) r2] else []).

(** The events of a seal whose first [k] calls went through and whose next
    call, if one is left, failed with [e]. *)
Definition seal_events (l : Logger) (w : World) (k : nat) (e : error)
  (r1 r2 : option error) : list event :=
  ((fun c => Ev c None) <$> take k (seal_calls l w)) ++
  (match seal_calls l w !! k with
   | Some c => [Ev c (Some e)]
   | None => []
   end) ++
  deferred_closes l w k r1 r2.

(** What such a seal returns. *)
Definition seal_result (l : Logger) (w : World) (k : nat) (e : error)
  : result unit :=
  match seal_calls l w !! k with
  | Some c => Err (seal_error c e)
  | None => Ok tt
  end.

(** What such a seal has put in the archive of the contents [c]: part of
    the compressed stream when the copy failed, the stream and part of the
    trailer when the trailer failed, all of it from then on (before the copy
    there is no archive to speak of). *)
Definition seal_data `{Gzip} (k : nat) (c data : list byte) : Prop :=
  match k with
  | 0%nat | 1%nat | 2%nat => True
  | 3%nat => exists n, data = take n (gz_body c)
  | 4%nat => exists n, data = gz_body c ++ take n (gz_trailer c)
  | _ => data = gz_body c ++ gz_trailer c
  end.

(** The files such a seal of the file [f] leaves: those it found up to the
    creation of the archive, then the archive beside them, and, when all six
    calls went through, the file itself removed. *)
Definition seal_files (l : Logger) (w : World) (f : file) (k : nat)
  (data : list byte) : gmap string file :=
  let name := Filename l in
  let dst := backupFileNameAt name (clock w (ticks w)) in
  let archived :=
    <[dst := mkFile data (from_option perm (perm f) (files w !! dst))]>
      (files w) in
  if (k <? 3)%nat then files w
  else if (k =? 6)%nat then delete name archived
  else archived.

(** An open handle of the logger is on the file of its name, and that file
    is there. *)
Definition attached (l : Logger) (w : World) : Prop :=
  forall h, fd l = Some h ->
    f_name h = Filename l /\ is_Some (files w !! Filename l).

(** The state a sequence of calls of [Write] ends in. *)
Definition final `{Gzip} (ps : list (list byte)) (s : State) : State :=
  fold_left (fun s p => fst (Write p s)) ps s.

(** ** More sample runs

    A close that the system refuses; the creation of a log where one is; a
    rotation that goes through, and one during which the archive cannot be
    created (the close, the open and the stat go through); a seal whose
    removal of the file fails; an open during which the stat is refused; a
    write of no bytes on an open log; two writes, the first of which
    rotates. *)
Definition failing_close : State * result unit :=
  close (fresh sample_logger, sample_world [Fails "EIO" 0]).

Definition truncating_open : State * result unit :=
  openNewFile (sample_logger, sample_world []).

Definition good_rotation : State * result unit :=
  @makeNewFile stored (nearly_full, sample_world []).

Definition failed_rotation : State * result unit :=
  @makeNewFile stored
    (nearly_full, sample_world [Succeeds; Succeeds; Succeeds; Fails "ENOSPC" 0]).

Definition unremoved_seal : State * result unit :=
  @composeFile stored
    (sample_logger,
     sample_world [Succeeds; Succeeds; Succeeds; Succeeds; Succeeds;
                   Fails "EBUSY" 0]).

Definition refused_stat : State * result unit :=
  @openFile stored 5 (sample_logger, sample_world [Fails "EACCES" 0]).

Definition empty_write : State * (Z * option error) :=
  @Write stored [] (resumed sample_logger 5, sample_world []).

Definition failed_write : State * (Z * option error) :=
  @Write stored (bytes "67890")
    (nearly_full, sample_world [Succeeds; Succeeds; Succeeds; Fails "ENOSPC" 0]).

Definition two_writes : list (list byte) := [bytes "67890"; bytes "abc"].

(** The seal of a log that is not there. *)
Definition missing_seal : State * result unit :=
  @composeFile stored (sample_logger, empty_world).

(** A log that five more bytes fill exactly to the limit of 1 MiB, and a
    disk that holds it. *)
Definition nearly_full_log : file :=
  mkFile (repeat Byte.x00 (Z.to_nat 1048571)) 420.

Definition nearly_full_world : World :=
  {| files := {[ "/var/log/app.log" := nearly_full_log ]};
     faults := []; trace := []; clock := sample_clock; ticks := 0 |}.

(** An append that the disk cuts short after three bytes, on a log of five
    bytes taken up again. *)
Definition short_append : State * (Z * option error) :=
  @Write stored (bytes "67890")
    (resumed sample_logger 5, sample_world [Fails "ENOSPC" 3]).

(** ** Independence of the size

    The state with the size of the logger set to [n]; a computation that
    neither looks at the size nor sets it; and one that does not look at it
    and, when it goes through, has set it. *)
Definition resize (n : Z) (s : State) : State := (with_size (fst s) n, snd s).

Definition size_blind {A} (m : M State A) : Prop :=
  forall l w n,
    m (with_size l n, w) = (resize n (fst (m (l, w))), snd (m (l, w))).

Definition size_setting {A} (m : M State A) : Prop :=
  forall l w n,
    m (with_size l n, w)
    = (match snd (m (l, w)) with
       | Ok _ => fst (m (l, w))
       | Err _ => resize n (fst (m (l, w)))
       end, snd (m (l, w))).

(** ** Sample runs on a log at the limit

    A disk that cuts the next append short after three bytes, and two
    writes of the same five bytes on it; a write of six bytes that has to
    rotate, and the run it begins. *)
Definition cut_short_world : World :=
  {| files := {[ "/var/log/app.log" := nearly_full_log ]};
     faults := [Fails "ENOSPC" 3]; trace := []; clock := sample_clock;
     ticks := 0 |}.

Definition cut_short_run : list step :=
  @run stored [bytes "67890"; bytes "67890"]
    (resumed sample_logger 1048571, cut_short_world).

Definition overflowing_write : State * (Z * option error) :=
  @Write stored (bytes "123456")
    (resumed sample_logger 1048571, nearly_full_world).

Definition overflowing_run : list step :=
  @run stored [bytes "123456"; bytes "abc"]
    (resumed sample_logger 1048571, nearly_full_world).

(** * Facts about strings and paths *)

(** The path functions on a few paths. *)
Example Clean_ex1 : filepath.Clean "a//b/./c/.." = "a/b".
Proof. reflexivity. Qed.
Example Clean_ex2 : filepath.Clean "/../a" = "/a".
Proof. reflexivity. Qed.
Example Clean_ex3 : filepath.Clean "../../a/../.." = "../../..".
Proof. reflexivity. Qed.
Example Dir_ex1 : filepath.Dir "/var/log/app.log" = "/var/log".
Proof. reflexivity. Qed.
Example Dir_ex2 : filepath.Dir "app.log" = ".".
Proof. reflexivity. Qed.
Example Base_ex1 : filepath.Base "/var/log/app.log" = "app.log".
Proof. reflexivity. Qed.
Example Base_ex2 : filepath.Base "///" = "/".
Proof. reflexivity. Qed.
Example Join_ex1 : filepath.Join "." "x.gz" = "x.gz".
Proof. reflexivity. Qed.
Example Join_ex2 : filepath.Join "/var/log" "x.gz" = "/var/log/x.gz".
Proof. reflexivity. Qed.
Example Format_ex :
  gotime.Format (gotime.mkTime 2024 3 9 7 5 0 42) = "2024-03-09-07-05-00".
Proof. reflexivity. Qed.

Section StringFacts.
Implicit Types (s t u : string) (c : ascii).

Lemma sapp_cons c s t : String c s +:+ t = String c (s +:+ t).
Proof. reflexivity. Qed.

Lemma sapp_nil_l s : "" +:+ s = s.
Proof. reflexivity. Qed.

Lemma sapp_nil_r s : s +:+ "" = s.
Proof. induction s as [|c s IH]; [done|]. by rewrite sapp_cons, IH. Qed.

Lemma sapp_assoc s t u : (s +:+ t) +:+ u = s +:+ (t +:+ u).
Proof. induction s as [|c s IH]; [done|]. by rewrite !sapp_cons, IH. Qed.

Lemma sapp_length s t :
  String.length (s +:+ t) = (String.length s + String.length t)%nat.
Proof. induction s as [|c s IH]; [done|]. rewrite sapp_cons. simpl. by rewrite IH. Qed.

Lemma has_sep_app s t : has_sep (s +:+ t) = has_sep s || has_sep t.
Proof.
  induction s as [|c s IH]; [done|].
  rewrite sapp_cons. simpl. rewrite IH. by rewrite orb_assoc.
Qed.

Lemma all_sep_app s t : all_sep (s +:+ t) = all_sep s && all_sep t.
Proof.
  induction s as [|c s IH]; [done|].
  rewrite sapp_cons. simpl. rewrite IH. by rewrite andb_assoc.
Qed.

Lemma all_sep_no_sep s : has_sep s = false -> s <> "" -> all_sep s = false.
Proof.
  destruct s as [|c s]; [done|]. simpl. intros [-> _]%orb_false_iff _. done.
Qed.
End StringFacts.

Module filepath_facts.
Import filepath.
Implicit Types (s t u e : string) (c : ascii).

Lemma after_last_sep_no_sep s : has_sep s = false -> after_last_sep s = s.
Proof. destruct s as [|c s]; [done|]. intros Hs. simpl in *. by rewrite Hs. Qed.

Lemma has_sep_after_last_sep s : has_sep (after_last_sep s) = false.
Proof.
  induction s as [|c s IH]; [done|].
  cbn [after_last_sep]. destruct (has_sep (String c s)) eqn:E; done.
Qed.

(** The text after the last separator is not affected by what follows it
    as long as that has no separator. *)
Lemma after_last_sep_app s t :
  has_sep t = false -> after_last_sep (s +:+ t) = after_last_sep s +:+ t.
Proof.
  intros Ht. induction s as [|c s IH].
  - rewrite !sapp_nil_l. by apply after_last_sep_no_sep.
  - rewrite sapp_cons. cbn [after_last_sep].
    replace (has_sep (String c (s +:+ t))) with (has_sep (String c s)).
    + destruct (has_sep (String c s)); [done|]. by rewrite sapp_cons.
    + simpl. rewrite has_sep_app, Ht. by rewrite orb_false_r.
Qed.

Lemma after_last_sep_sep s : after_last_sep (s +:+ "/") = "".
Proof.
  induction s as [|c s IH]; [done|].
  rewrite sapp_cons. cbn [after_last_sep].
  replace (has_sep (String c (s +:+ "/"))) with true; [done|].
  simpl. rewrite has_sep_app. simpl. by rewrite !orb_true_r.
Qed.

Lemma strip_trailing_keep s t :
  has_sep t = false -> t <> "" -> strip_trailing (s +:+ t) = s +:+ t.
Proof.
  intros Ht Hne. induction s as [|c s IH].
  - rewrite sapp_nil_l. induction t as [|c t IHt]; [done|].
    cbn [strip_trailing]. simpl in Ht. apply orb_false_iff in Ht as [Hc Ht].
    simpl. rewrite Hc. simpl. destruct t as [|c' t]; [done|].
    f_equal. by apply IHt.
  - rewrite sapp_cons. cbn [strip_trailing].
    replace (all_sep (String c (s +:+ t))) with false; [by rewrite IH|].
    simpl. rewrite all_sep_app, (all_sep_no_sep t) by done.
    by rewrite !andb_false_r.
Qed.

(** The last element of a split is the text after the last separator. *)
Lemma split_sep_last s :
  if has_sep s
  then exists x init, split_sep s = x :: init ++ [after_last_sep s]
  else split_sep s = [s].
Proof.
  induction s as [|c s IH]; [done|].
  cbn [has_sep split_sep after_last_sep]. destruct (is_sep c) eqn:Ec; simpl.
  - destruct (has_sep s) eqn:Es.
    + destruct IH as (x & init & ->). exists "". exists (x :: init). reflexivity.
    + rewrite IH. exists "". exists []. simpl. by rewrite after_last_sep_no_sep.
  - destruct (has_sep s).
    + destruct IH as (x & init & ->). exists (String c x). by exists init.
    + by rewrite IH.
Qed.

Lemma split_sep_snoc s : exists init, split_sep s = init ++ [after_last_sep s].
Proof.
  pose proof (split_sep_last s) as Hs. destruct (has_sep s) eqn:E.
  - destruct Hs as (x & init & ->). by exists (x :: init).
  - rewrite Hs. exists []. by rewrite after_last_sep_no_sep.
Qed.

Lemma clean_step_plain rooted st e : plain e -> clean_step rooted st e = e :: st.
Proof.
  intros (_ & H1 & H2 & H3). unfold clean_step.
  apply String.eqb_neq in H1, H2, H3. by rewrite H1, H2, H3.
Qed.

Lemma render_snoc elems e : render (elems ++ [e]) = stems elems +:+ e.
Proof.
  induction elems as [|x elems IH]; [done|].
  change ((x :: elems) ++ [e]) with (x :: (elems ++ [e])).
  cbn [stems]. rewrite !sapp_assoc, <- IH.
  cbn [render]. destruct (elems ++ [e]) eqn:E; [by destruct elems|done].
Qed.

Lemma dirlike_stems elems : dirlike (stems elems).
Proof.
  induction elems as [|x elems IH]; [by left|]. right. cbn [stems].
  destruct IH as [->|(q & ->)].
  - exists x. by rewrite sapp_nil_r.
  - exists (x +:+ "/" +:+ q). by rewrite !sapp_assoc.
Qed.

Lemma dirlike_root p : dirlike p -> dirlike ("/" +:+ p).
Proof.
  intros [->|(q & ->)]; right; [by exists ""|].
  exists ("/" +:+ q). by rewrite sapp_assoc.
Qed.

(** [Clean] keeps a proper last element in place. *)
Lemma Clean_last path :
  plain (after_last_sep path) ->
  exists p, dirlike p /\ Clean path = p +:+ after_last_sep path.
Proof.
  intros Hpl. unfold Clean.
  destruct (String.eqb_spec path "") as [->|Hne].
  { by destruct Hpl as (_ & ? & _). }
  destruct (split_sep_snoc path) as (init & ->).
  rewrite fold_left_app. cbn [fold_left].
  rewrite clean_step_plain by done.
  set (st := fold_left _ init []). cbn [rev]. rewrite render_snoc.
  destruct (is_rooted path).
  - exists ("/" +:+ stems (rev st)). split; [|by rewrite sapp_assoc].
    apply dirlike_root, dirlike_stems.
  - exists (stems (rev st)). split; [apply dirlike_stems|done].
Qed.

Lemma after_last_sep_dirlike p e :
  dirlike p -> has_sep e = false -> after_last_sep (p +:+ e) = e.
Proof.
  intros Hp He. rewrite after_last_sep_app by done.
  destruct Hp as [->|(q & ->)]; [done|]. by rewrite after_last_sep_sep.
Qed.

Lemma Base_last p e :
  dirlike p -> has_sep e = false -> e <> "" -> Base (p +:+ e) = e.
Proof.
  intros Hp He Hne. unfold Base.
  destruct (String.eqb_spec (p +:+ e) "") as [E|_].
  { destruct p; [by rewrite sapp_nil_l in E|done]. }
  rewrite strip_trailing_keep, after_last_sep_dirlike by done.
  by apply String.eqb_neq in Hne as ->.
Qed.

Lemma Base_Clean path :
  plain (after_last_sep path) -> Base (Clean path) = after_last_sep path.
Proof.
  intros Hpl. destruct (Clean_last path Hpl) as (p & Hp & ->).
  destruct Hpl as (? & ? & _). by apply Base_last.
Qed.

Lemma Base_shape path : has_sep (Base path) = false \/ Base path = "/".
Proof.
  unfold Base. destruct (String.eqb path ""); [by left|].
  destruct (String.eqb _ ""); [by right|]. left. apply has_sep_after_last_sep.
Qed.

Lemma Join_suffix dir name :
  name <> "" -> exists x, Join dir name = Clean (x +:+ name).
Proof.
  intros Hne. unfold Join. destruct (String.eqb dir ""); simpl.
  - apply String.eqb_neq in Hne as ->. by exists "".
  - exists (dir +:+ "/"). by rewrite sapp_assoc.
Qed.

Lemma plain_gz s : has_sep s = false -> plain (s +:+ ".gz").
Proof.
  intros Hs. split; [by rewrite has_sep_app, Hs|].
  assert (3 <= String.length (s +:+ ".gz"))%nat as Hlen.
  { rewrite sapp_length. simpl. lia. }
  repeat split; intros E; rewrite E in Hlen; simpl in Hlen; lia.
Qed.

(** The base name of [Join dir (m ++ ".gz")]. *)
Lemma Base_Join_gz dir m :
  exists x, Base (Join dir (m +:+ ".gz")) = after_last_sep (x +:+ m) +:+ ".gz".
Proof.
  destruct (Join_suffix dir (m +:+ ".gz")) as (x & ->).
  { intros E. apply (f_equal String.length) in E.
    rewrite sapp_length in E. simpl in E. lia. }
  exists x. rewrite <- sapp_assoc.
  assert (after_last_sep ((x +:+ m) +:+ ".gz")
          = after_last_sep (x +:+ m) +:+ ".gz") as E
    by by apply after_last_sep_app.
  rewrite Base_Clean; rewrite E; [done|].
  apply plain_gz, has_sep_after_last_sep.
Qed.
End filepath_facts.

(** The archive never takes the name of the file it is made from. *)
Lemma backupFileNameAt_fresh filename t : backupFileNameAt filename t <> filename.
Proof.
  intros E. apply (f_equal filepath.Base) in E. unfold backupFileNameAt in E.
  set (b := filepath.Base filename) in *.
  set (pre := gotime.Format t +:+ "-" +:+ gotime.fmt_d (gotime.nanosecond t) +:+ "-").
  assert (gotime.Format t +:+ "-" +:+ gotime.fmt_d (gotime.nanosecond t) +:+ "-"
            +:+ b +:+ ext = (pre +:+ b) +:+ ".gz") as Hname.
  { unfold pre, ext. by rewrite !sapp_assoc. }
  rewrite Hname in E.
  destruct (filepath_facts.Base_Join_gz (filepath.Dir filename) (pre +:+ b))
    as (x & Hx).
  rewrite Hx in E. rewrite <- (sapp_assoc x pre b) in E.
  destruct (filepath_facts.Base_shape filename) as [Hb|Hb]; fold b in Hb.
  - rewrite filepath_facts.after_last_sep_app in E by done.
    apply (f_equal String.length) in E. rewrite !sapp_length in E.
    simpl in E. lia.
  - rewrite Hb in E. by rewrite filepath_facts.after_last_sep_sep in E.
Qed.

(** * Facts about archive names *)

Section CompareFacts.
Implicit Types (s t a b x y : string) (c : ascii).

Lemma ascii_compare_refl c : Ascii.compare c c = Eq.
Proof. unfold Ascii.compare. apply N.compare_refl. Qed.

Lemma compare_refl s : String.compare s s = Eq.
Proof.
  induction s as [|c s IH]; [done|]. simpl. by rewrite ascii_compare_refl.
Qed.

Lemma compare_app_prefix p a b :
  String.compare (p +:+ a) (p +:+ b) = String.compare a b.
Proof.
  induction p as [|c p IH]; [done|].
  rewrite !sapp_cons. simpl. by rewrite ascii_compare_refl.
Qed.

(** Two strings of one length decide the order of what they start. *)
Lemma compare_app_eqlen a b x y :
  String.length a = String.length b ->
  String.compare (a +:+ x) (b +:+ y)
  = match String.compare a b with
    | Eq => String.compare x y
    | ne => ne
    end.
Proof.
  revert b. induction a as [|c a IH]; intros [|c' b] Hlen; try done.
  rewrite !sapp_cons. simpl. destruct (Ascii.compare c c'); try done.
  apply IH. simpl in Hlen. lia.
Qed.

End CompareFacts.

Module gotime_facts.
Import gotime.

Lemma digit_char_compare a b :
  0 <= a < 10 -> 0 <= b < 10 ->
  Ascii.compare (digit_char a) (digit_char b) = (a ?= b).
Proof.
  intros Ha Hb.
  assert (a = 0 \/ a = 1 \/ a = 2 \/ a = 3 \/ a = 4 \/ a = 5 \/ a = 6 \/
          a = 7 \/ a = 8 \/ a = 9) as Ha' by lia.
  assert (b = 0 \/ b = 1 \/ b = 2 \/ b = 3 \/ b = 4 \/ b = 5 \/ b = 6 \/
          b = 7 \/ b = 8 \/ b = 9) as Hb' by lia.
  destruct Ha' as [->|[->|[->|[->|[->|[->|[->|[->|[->| ->]]]]]]]]];
    destruct Hb' as [->|[->|[->|[->|[->|[->|[->|[->|[->| ->]]]]]]]]];
    reflexivity.
Qed.

Lemma digit_char_is_digit d : d < 10 -> is_digit (digit_char d) = true.
Proof.
  intros Hd. unfold digit_char.
  destruct (Z.to_nat d) as [|[|[|[|[|[|[|[|[|[|n]]]]]]]]]] eqn:E;
    try reflexivity.
  lia.
Qed.

Lemma is_digit_not_sep c : is_digit c = true -> is_sep c = false.
Proof.
  intros Hc. unfold is_sep. destruct (Ascii.eqb_spec c "/") as [->|]; done.
Qed.

Lemma is_digit_not_dash c : is_digit c = true -> c <> "-"%char.
Proof. by intros Hc ->. Qed.

Lemma all_digits_app s t : all_digits (s +:+ t) = all_digits s && all_digits t.
Proof.
  induction s as [|c s IH]; [done|].
  rewrite sapp_cons. cbn [all_digits]. by rewrite IH, andb_assoc.
Qed.

Lemma all_digits_no_sep s : all_digits s = true -> has_sep s = false.
Proof.
  induction s as [|c s IH]; [done|]. cbn [all_digits has_sep].
  intros [Hc Hs]%andb_true_iff. by rewrite (is_digit_not_sep c Hc), IH.
Qed.

(** ** The decimal loop *)

Lemma utoa_acc fuel u acc : utoa fuel u acc = utoa fuel u "" +:+ acc.
Proof.
  revert u acc. induction fuel as [|f IH]; intros u acc; [done|].
  cbn [utoa]. destruct (u <? 10); [done|].
  rewrite IH, (IH _ (String _ "")). by rewrite sapp_assoc.
Qed.

Lemma utoa_small f u : u < 10 -> utoa (S f) u "" = String (digit_char u) "".
Proof. intros Hu. cbn [utoa]. by destruct (Z.ltb_spec u 10); [|lia]. Qed.

Lemma utoa_step f u :
  10 <= u ->
  utoa (S f) u "" = utoa f (u / 10) "" +:+ String (digit_char (u mod 10)) "".
Proof.
  intros Hu. cbn [utoa]. destruct (Z.ltb_spec u 10); [lia|]. apply utoa_acc.
Qed.

Lemma utoa_digits fuel u : all_digits (utoa fuel u "") = true.
Proof.
  revert u. induction fuel as [|f IH]; intros u; [done|].
  destruct (Z.lt_ge_cases u 10) as [Hu|Hu].
  - rewrite utoa_small by done. cbn [all_digits].
    by rewrite digit_char_is_digit.
  - rewrite utoa_step by done. rewrite all_digits_app, IH. cbn [all_digits].
    rewrite digit_char_is_digit; [done|].
    pose proof (Z.mod_pos_bound u 10). lia.
Qed.

Lemma zeros_digits n : all_digits (zeros n) = true.
Proof. induction n as [|n IH]; [done|]. cbn [zeros all_digits]. by rewrite IH. Qed.

Lemma zeros_snoc n : zeros n +:+ "0" = zeros (S n).
Proof. induction n as [|n IH]; [done|]. simpl. rewrite sapp_cons. by rewrite IH. Qed.

Lemma zeros_length n : String.length (zeros n) = n.
Proof. induction n as [|n IH]; [done|]. simpl. by rewrite IH. Qed.

Lemma fixed_length w x : String.length (fixed w x) = w.
Proof.
  revert x. induction w as [|w IH]; intros x; [done|].
  cbn [fixed]. rewrite sapp_length, IH. simpl. lia.
Qed.

Lemma fixed_zero w : fixed w 0 = zeros w.
Proof.
  induction w as [|w IH]; [done|]. cbn [fixed].
  change (0 / 10) with 0. change (0 mod 10) with 0. rewrite IH.
  apply zeros_snoc.
Qed.

Lemma pow10_pos (k : nat) : 0 < 10 ^ Z.of_nat k.
Proof. apply Z.pow_pos_nonneg; lia. Qed.

Lemma pow10_succ (k : nat) : 10 ^ Z.of_nat (S k) = 10 * 10 ^ Z.of_nat k.
Proof. rewrite Nat2Z.inj_succ, Z.pow_succ_r by lia. done. Qed.

(** Padding the digits of [x] with zeros gives the [k] digits of [x]. *)
Lemma utoa_fixed k : forall fuel x,
  0 <= x < 10 ^ Z.of_nat k -> (1 <= k <= fuel)%nat ->
  (String.length (utoa fuel x "") <= k)%nat /\
  fixed k x = zeros (k - String.length (utoa fuel x "")) +:+ utoa fuel x "".
Proof.
  induction k as [|k IH]; intros fuel x Hx Hk; [lia|].
  destruct fuel as [|f]; [lia|].
  destruct (Z.lt_ge_cases x 10) as [Hsmall|Hbig].
  - rewrite utoa_small by done. cbn [String.length fixed].
    rewrite Z.div_small, Z.mod_small by lia. rewrite fixed_zero.
    split; [lia|]. by replace (S k - 1)%nat with k by lia.
  - rewrite utoa_step by done. rewrite pow10_succ in Hx.
    assert (0 <= x / 10 < 10 ^ Z.of_nat k) as Hq.
    { split; [apply Z.div_pos; lia|]. apply Z.div_lt_upper_bound; lia. }
    assert (1 <= k)%nat as Hk1.
    { destruct k; [|lia]. change (10 ^ Z.of_nat 0) with 1 in Hx. lia. }
    destruct (IH f (x / 10) Hq) as [Hlen Hfix]; [lia|].
    rewrite sapp_length. cbn [String.length fixed]. split; [lia|].
    rewrite Hfix, sapp_assoc. f_equal. f_equal. lia.
Qed.

(** The digits of [x] are enough to write it. *)
Lemma utoa_bound fuel : forall x,
  0 <= x < 10 ^ Z.of_nat fuel -> (1 <= fuel)%nat ->
  (1 <= String.length (utoa fuel x ""))%nat /\
  x < 10 ^ Z.of_nat (String.length (utoa fuel x "")).
Proof.
  induction fuel as [|f IH]; intros x Hx Hfuel; [lia|].
  destruct (Z.lt_ge_cases x 10) as [Hsmall|Hbig].
  - rewrite utoa_small by done. cbn [String.length].
    change (10 ^ Z.of_nat 1) with 10. lia.
  - rewrite utoa_step by done. rewrite pow10_succ in Hx.
    assert (0 <= x / 10 < 10 ^ Z.of_nat f) as Hq.
    { split; [apply Z.div_pos; lia|]. apply Z.div_lt_upper_bound; lia. }
    assert (1 <= f)%nat as Hf.
    { destruct f; [|lia]. change (10 ^ Z.of_nat 0) with 1 in Hx. lia. }
    destruct (IH _ Hq Hf) as [Hlen Hlt]. rewrite sapp_length. cbn [String.length].
    split; [lia|]. replace (String.length (utoa f (x / 10) "") + 1)%nat
      with (S (String.length (utoa f (x / 10) ""))) by lia.
    rewrite pow10_succ. pose proof (Z.div_mod x 10). 
    pose proof (Z.mod_pos_bound x 10). lia.
Qed.

(** ** Fields of fixed width *)

Lemma fixed_compare w : forall a b,
  0 <= a < 10 ^ Z.of_nat w -> 0 <= b < 10 ^ Z.of_nat w ->
  String.compare (fixed w a) (fixed w b) = (a ?= b).
Proof.
  induction w as [|w IH]; intros a b Ha Hb.
  { change (10 ^ Z.of_nat 0) with 1 in *. by replace a with b by lia;
      rewrite Z.compare_refl. }
  rewrite pow10_succ in Ha, Hb. cbn [fixed].
  rewrite compare_app_eqlen by (by rewrite !fixed_length).
  assert (0 <= a / 10 < 10 ^ Z.of_nat w) as Hqa.
  { split; [apply Z.div_pos; lia|]. apply Z.div_lt_upper_bound; lia. }
  assert (0 <= b / 10 < 10 ^ Z.of_nat w) as Hqb.
  { split; [apply Z.div_pos; lia|]. apply Z.div_lt_upper_bound; lia. }
  rewrite (IH _ _ Hqa Hqb).
  pose proof (Z.div_mod a 10). pose proof (Z.div_mod b 10).
  pose proof (Z.mod_pos_bound a 10). pose proof (Z.mod_pos_bound b 10).
  destruct (Z.compare_spec (a / 10) (b / 10)) as [Heq|Hlt|Hgt].
  - cbn [String.compare]. rewrite digit_char_compare by lia.
    destruct (Z.compare_spec (a mod 10) (b mod 10)); symmetry;
      [apply Z.compare_eq_iff|apply Z.compare_lt_iff|apply Z.compare_gt_iff]; lia.
  - symmetry. apply Z.compare_lt_iff. lia.
  - symmetry. apply Z.compare_gt_iff. lia.
Qed.

Lemma appendInt_fixed x w :
  0 <= x < 10 ^ Z.of_nat w -> (1 <= w <= 20)%nat -> appendInt x w = fixed w x.
Proof.
  intros Hx Hw. unfold appendInt, sign, decimal.
  destruct (Z.ltb_spec x 0); [lia|]. rewrite Z.abs_eq by lia.
  destruct (utoa_fixed w 20 x Hx) as [_ ->]; [lia|]. done.
Qed.

Lemma decimal_fixed x :
  0 <= x < 10 ^ 20 -> decimal x = fixed (String.length (decimal x)) x.
Proof.
  intros Hx. unfold decimal.
  destruct (utoa_bound 20 x Hx) as [Hlen Hlt]; [lia|].
  assert (String.length (utoa 20 x "") <= 20)%nat as Hle.
  { destruct (utoa_fixed 20 20 x Hx) as [? _]; lia. }
  destruct (utoa_fixed (String.length (utoa 20 x "")) 20 x) as [_ ->]; [lia..|].
  by rewrite Nat.sub_diag.
Qed.

(** Decimals of one length are ordered as the numbers they write. *)
Lemma decimal_compare a b :
  0 <= a < 10 ^ 20 -> 0 <= b < 10 ^ 20 ->
  String.length (decimal a) = String.length (decimal b) ->
  String.compare (decimal a) (decimal b) = (a ?= b).
Proof.
  intros Ha Hb Hlen. rewrite (decimal_fixed a Ha), (decimal_fixed b Hb), <- Hlen.
  apply fixed_compare.
  - split; [lia|]. apply (utoa_bound 20 a Ha). lia.
  - split; [lia|]. rewrite Hlen. apply (utoa_bound 20 b Hb). lia.
Qed.

Lemma decimal_inj a b :
  0 <= a < 10 ^ 20 -> 0 <= b < 10 ^ 20 -> decimal a = decimal b -> a = b.
Proof.
  intros Ha Hb Heq. apply Z.compare_eq_iff.
  rewrite <- decimal_compare by (by rewrite ?Heq).
  rewrite Heq. apply compare_refl.
Qed.

End gotime_facts.

(** ** The directory of the archives *)

Module archive_facts.
Import filepath filepath_facts gotime gotime_facts.

Lemma split_sep_nonempty s : split_sep s <> [].
Proof.
  destruct s as [|c s]; [done|]. cbn [split_sep].
  destruct (is_sep c); [done|]. by destruct (split_sep s).
Qed.

(** Text without a separator joins the last element of a split. *)
Lemma split_sep_app x n :
  has_sep n = false ->
  split_sep (x +:+ n) = removelast (split_sep x) ++ [after_last_sep x +:+ n].
Proof.
  intros Hn. induction x as [|c x IH].
  - rewrite sapp_nil_l. pose proof (split_sep_last n) as Hs.
    rewrite Hn in Hs. by rewrite Hs.
  - rewrite sapp_cons. cbn [split_sep after_last_sep has_sep].
    pose proof (split_sep_nonempty x) as Hne.
    destruct (is_sep c) eqn:Hc; cbn [orb].
    + rewrite IH. destruct (split_sep x) as [|y ys]; done.
    + rewrite IH. pose proof (split_sep_last x) as Hs.
      destruct (has_sep x) eqn:Hx.
      * destruct Hs as (y & init & ->).
        change (y :: init ++ [after_last_sep x])
          with ((y :: init) ++ [after_last_sep x]).
        rewrite removelast_last. cbn [app].
        change (String c y :: init ++ [after_last_sep x])
          with ((String c y :: init) ++ [after_last_sep x]).
        by rewrite removelast_last.
      * rewrite Hs. cbn [removelast app].
        by rewrite (after_last_sep_no_sep x Hx), sapp_cons.
Qed.

Lemma is_rooted_app x n :
  has_sep n = false -> is_rooted (x +:+ n) = is_rooted x.
Proof.
  intros Hn. destruct x as [|c x]; [|done]. rewrite sapp_nil_l.
  destruct n as [|c n]; [done|]. simpl in *. by apply orb_false_iff in Hn as [-> _].
Qed.

(** [Clean] of a path that ends in a proper element: the element stays, after
    what [Clean] makes of the rest. *)
Lemma Clean_app x n :
  has_sep n = false -> plain (after_last_sep x +:+ n) ->
  Clean (x +:+ n) = clean_dir x +:+ after_last_sep x +:+ n.
Proof.
  intros Hn Hpl. unfold Clean, clean_dir.
  destruct (String.eqb_spec (x +:+ n) "") as [E|_].
  { destruct x; [|done]. rewrite sapp_nil_l in E. subst n.
    by destruct Hpl as (_ & ? & _). }
  rewrite split_sep_app, is_rooted_app by done.
  rewrite fold_left_app. cbn [fold_left].
  rewrite clean_step_plain by done.
  set (st := fold_left _ _ []). cbn [rev]. rewrite render_snoc.
  destruct (is_rooted x); by rewrite ?sapp_assoc.
Qed.

Lemma sign_no_sep x : has_sep (sign x) = false.
Proof. unfold sign. by destruct (x <? 0). Qed.

Lemma decimal_no_sep x : has_sep (decimal x) = false.
Proof. apply all_digits_no_sep, utoa_digits. Qed.

Lemma appendInt_no_sep x w : has_sep (appendInt x w) = false.
Proof.
  unfold appendInt. rewrite !has_sep_app, sign_no_sep, decimal_no_sep.
  by rewrite (all_digits_no_sep _ (zeros_digits _)).
Qed.

Lemma fmt_d_no_sep x : has_sep (fmt_d x) = false.
Proof. unfold fmt_d. by rewrite has_sep_app, sign_no_sep, decimal_no_sep. Qed.

Lemma Format_no_sep t : has_sep (Format t) = false.
Proof. unfold Format. by rewrite !has_sep_app, !appendInt_no_sep. Qed.

Lemma stamped_no_sep filename t :
  Base filename <> "/" -> has_sep (stamped filename t) = false.
Proof.
  intros Hroot. unfold stamped, ext.
  rewrite !has_sep_app, Format_no_sep, fmt_d_no_sep.
  destruct (Base_shape filename) as [->|]; done.
Qed.

Lemma stamped_plain filename t :
  Base filename <> "/" -> plain (stamped filename t).
Proof.
  intros Hroot. unfold stamped, ext. rewrite <- !sapp_assoc.
  apply plain_gz. rewrite !has_sep_app, Format_no_sep, fmt_d_no_sep.
  destruct (Base_shape filename) as [->|]; done.
Qed.

(** The archive of a file that is not the root directory lies in
    [archive_dir], under its stamped name. *)
Lemma backupFileNameAt_split filename t :
  Base filename <> "/" ->
  backupFileNameAt filename t = archive_dir filename +:+ stamped filename t.
Proof.
  intros Hroot. unfold backupFileNameAt, archive_dir. fold (stamped filename t).
  unfold Join.
  pose proof (stamped_no_sep filename t Hroot) as Hns.
  pose proof (stamped_plain filename t Hroot) as Hpl.
  destruct (String.eqb_spec (Dir filename) "") as [->|Hdir]; cbn [negb].
  - destruct (String.eqb_spec (stamped filename t) "") as [E|_].
    { by destruct Hpl as (_ & ? & _). }
    cbn [negb]. rewrite <- (sapp_nil_l (stamped filename t)) at 1.
    rewrite Clean_app by done. done.
  - rewrite <- sapp_assoc.
    rewrite Clean_app; rewrite ?after_last_sep_sep; try done.
Qed.

Lemma dirlike_archive_dir filename : dirlike (archive_dir filename).
Proof.
  unfold archive_dir. destruct (String.eqb _ ""); [by left|].
  unfold clean_dir. destruct (is_rooted _).
  - apply dirlike_root, dirlike_stems.
  - rewrite sapp_nil_l. apply dirlike_stems.
Qed.

Example archive_dir_absolute : archive_dir "/var/log/app.log" = "/var/log/".
Proof. reflexivity. Qed.

Example archive_dir_relative : archive_dir "logs/app.log" = "logs/".
Proof. reflexivity. Qed.

Example archive_dir_here : archive_dir "app.log" = "".
Proof. reflexivity. Qed.

Example archive_dir_root : archive_dir "/app.log" = "/".
Proof. reflexivity. Qed.

Example backupFileNameAt_here :
  backupFileNameAt "app.log" (gotime.mkTime 2024 3 9 7 5 0 42)
  = "2024-03-09-07-05-00-42-app.log.gz".
Proof. reflexivity. Qed.

(** ** The order of the names *)

Lemma lex_ltb_compare a b k : lex_ltb a b = true -> lex_compare a b k = Lt.
Proof.
  revert b. induction a as [|x a IH]; intros [|y b]; try done.
  cbn [lex_ltb lex_compare]. intros [Hlt|[Heq Hrest]%andb_true_iff]%orb_true_iff.
  - apply Z.ltb_lt in Hlt. by apply Z.compare_lt_iff in Hlt as ->.
  - apply Z.eqb_eq in Heq as ->. rewrite Z.compare_refl. by apply IH.
Qed.

Lemma lex_compare_refl a k : lex_compare a a k = k.
Proof.
  induction a as [|x a IH]; [done|]. cbn [lex_compare].
  by rewrite Z.compare_refl.
Qed.

Lemma lex_compare_eq a b k :
  length a = length b -> lex_compare a b k = Eq -> a = b /\ k = Eq.
Proof.
  revert b. induction a as [|x a IH]; intros [|y b] Hlen; try done.
  cbn [lex_compare]. destruct (Z.compare_spec x y) as [->| |]; try done.
  intros Hk. destruct (IH b) as [-> ->]; [by injection Hlen|done|done].
Qed.

Lemma compare_field w a b r1 r2 :
  0 <= a < 10 ^ Z.of_nat w -> 0 <= b < 10 ^ Z.of_nat w ->
  String.compare (fixed w a +:+ r1) (fixed w b +:+ r2)
  = match a ?= b with
    | Eq => String.compare r1 r2
    | ne => ne
    end.
Proof.
  intros Ha Hb. rewrite compare_app_eqlen by (by rewrite !fixed_length).
  by rewrite fixed_compare.
Qed.

(** The stamp of a valid reading, field by field. *)
Lemma Format_fixed t :
  valid t ->
  Format t = fixed 4 (year t) +:+ "-" +:+ fixed 2 (month t) +:+ "-" +:+
             fixed 2 (day t) +:+ "-" +:+ fixed 2 (hour t) +:+ "-" +:+
             fixed 2 (minute t) +:+ "-" +:+ fixed 2 (second t).
Proof.
  intros (HY & HM & HD & Hh & Hm & Hs & _). unfold Format.
  rewrite !appendInt_fixed; try done; try lia;
    first [change (10 ^ Z.of_nat 2) with 100 | change (10 ^ Z.of_nat 4) with 10000];
    lia.
Qed.

Lemma Format_length t : valid t -> String.length (Format t) = 19%nat.
Proof.
  intros Ht. rewrite Format_fixed by done.
  by rewrite !sapp_length, !fixed_length.
Qed.

Lemma stamped_fixed filename t :
  valid t ->
  stamped filename t
  = fixed 4 (year t) +:+ "-" +:+ fixed 2 (month t) +:+ "-" +:+
    fixed 2 (day t) +:+ "-" +:+ fixed 2 (hour t) +:+ "-" +:+
    fixed 2 (minute t) +:+ "-" +:+ fixed 2 (second t) +:+ "-" +:+
    after_stamp filename t.
Proof.
  intros Ht. unfold stamped, after_stamp. rewrite Format_fixed by done.
  destruct Ht as (_ & _ & _ & _ & _ & _ & Hn).
  unfold fmt_d, sign. destruct (Z.ltb_spec (nanosecond t) 0); [lia|].
  rewrite Z.abs_eq by lia. by rewrite !sapp_assoc.
Qed.

Lemma stamped_compare filename t1 t2 :
  valid t1 -> valid t2 ->
  String.compare (stamped filename t1) (stamped filename t2)
  = lex_compare (to_second t1) (to_second t2)
      (String.compare (after_stamp filename t1) (after_stamp filename t2)).
Proof.
  intros Ht1 Ht2. rewrite !stamped_fixed by done.
  destruct Ht1 as (HY1 & HM1 & HD1 & Hh1 & Hm1 & Hs1 & _).
  destruct Ht2 as (HY2 & HM2 & HD2 & Hh2 & Hm2 & Hs2 & _).
  unfold to_second. cbn [lex_compare].
  repeat (rewrite compare_field, ?(compare_app_prefix "-");
    [|first [change (10 ^ Z.of_nat 2) with 100
            |change (10 ^ Z.of_nat 4) with 10000]; lia..]).
  done.
Qed.

Lemma digits_dash_inj s1 s2 r1 r2 :
  all_digits s1 = true -> all_digits s2 = true ->
  s1 +:+ "-" +:+ r1 = s2 +:+ "-" +:+ r2 -> s1 = s2.
Proof.
  revert s2. induction s1 as [|c1 s1 IH]; intros [|c2 s2] H1 H2 Heq; try done.
  - rewrite sapp_nil_l, sapp_cons in Heq. injection Heq as <- _.
    cbn [all_digits] in H2. by apply andb_true_iff in H2 as [? _].
  - rewrite sapp_nil_l, sapp_cons in Heq. injection Heq as -> _.
    cbn [all_digits] in H1. by apply andb_true_iff in H1 as [? _].
  - rewrite !sapp_cons in Heq. injection Heq as -> Heq.
    cbn [all_digits] in H1, H2.
    apply andb_true_iff in H1 as [_ H1]. apply andb_true_iff in H2 as [_ H2].
    f_equal. by eapply IH.
Qed.

Lemma ns_range t : valid t -> 0 <= nanosecond t < 10 ^ 20.
Proof. intros (_ & _ & _ & _ & _ & _ & Hn). lia. Qed.

(** Readings that get the same stamped name are the same. *)
Lemma stamped_inj filename t1 t2 :
  valid t1 -> valid t2 -> stamped filename t1 = stamped filename t2 -> t1 = t2.
Proof.
  intros Ht1 Ht2 Heq.
  pose proof (stamped_compare filename t1 t2 Ht1 Ht2) as Hcmp.
  rewrite Heq, compare_refl in Hcmp. symmetry in Hcmp.
  apply lex_compare_eq in Hcmp as [Hsec Hafter]; [|done].
  apply String.compare_eq_iff in Hafter. unfold after_stamp in Hafter.
  apply digits_dash_inj in Hafter; [|apply utoa_digits..].
  apply decimal_inj in Hafter; [|by apply ns_range..].
  destruct t1, t2. unfold to_second in Hsec. cbn in *. by simplify_eq.
Qed.

End archive_facts.

(** * Running the monad *)
Section MonadFacts.
Context {S A B : Type}.
Implicit Types (s : S).

Lemma bind_inv (m : M S A) (k : A -> M S B) s s' r :
  (m ≫= k) s = (s', r) ->
  (exists s1 a, m s = (s1, Ok a) /\ k a s1 = (s', r)) \/
  (exists e, m s = (s', Err e) /\ r = Err e).
Proof.
  unfold mbind, M_bind. destruct (m s) as [s1 [a|e]]; [left|right]; eauto.
  exists e. by inversion H.
Qed.

Lemma bind_ok (m : M S A) (k : A -> M S B) s s1 a :
  m s = (s1, Ok a) -> (m ≫= k) s = k a s1.
Proof. unfold mbind, M_bind. by intros ->. Qed.

Lemma bind_err (m : M S A) (k : A -> M S B) s s1 e :
  m s = (s1, Err e) -> (m ≫= k) s = (s1, Err e).
Proof. unfold mbind, M_bind. by intros ->. Qed.

Lemma bind_ret (a : A) (k : A -> M S B) s : (mret a ≫= k) s = k a s.
Proof. reflexivity. Qed.

Lemma orfail_inv (m : M S A) e0 s s' r :
  orfail m e0 s = (s', r) ->
  (exists a, m s = (s', Ok a) /\ r = Ok a) \/
  (exists e, m s = (s', Err e) /\ r = Err e0).
Proof.
  unfold orfail. destruct (m s) as [s1 [a|e]]; intros [= <- <-]; eauto.
Qed.

Lemma try_inv (m : M S A) s s' r :
  try m s = (s', r) -> exists r0, m s = (s', r0) /\ r = Ok r0.
Proof. unfold try. destruct (m s) as [s1 r0]. intros [= <- <-]. eauto. Qed.

Lemma defer_inv (d : M S B) (body : M S A) s s' r :
  defer d body s = (s', r) ->
  exists s1, body s = (s1, r) /\ s' = fst (d s1).
Proof. unfold defer. destruct (body s) as [s1 r0]. intros [= <- <-]. eauto. Qed.
End MonadFacts.

Lemma bind_self {B} (k : Logger -> M State B) s : (self ≫= k) s = k (fst s) s.
Proof. reflexivity. Qed.

Lemma sys_inv {A} (m : M World A) l w s' r :
  sys m (l, w) = (s', r) -> exists w', m w = (w', r) /\ s' = (l, w').
Proof. unfold sys. simpl. destruct (m w) as [w' r0]. intros [= <- <-]. eauto. Qed.

Lemma sys_run {A} (m : M World A) l w w' r :
  m w = (w', r) -> sys m (l, w) = ((l, w'), r).
Proof. unfold sys. simpl. by intros ->. Qed.

(** * What the calls of the system do *)
Module GoIntFacts.
Import GoInt.
Lemma wrap_in_range z : in_range (wrap z).
Proof.
  unfold in_range, wrap, min_int, max_int.
  pose proof (Z.mod_pos_bound (z + 2 ^ 63) (2 ^ 64)). lia.
Qed.

Lemma wrap_exact z : in_range z -> wrap z = z.
Proof.
  unfold in_range, wrap, min_int, max_int. intros Hz.
  rewrite Z.mod_small by lia. lia.
Qed.

Lemma add_exact a b : in_range (a + b) -> add a b = a + b.
Proof. apply wrap_exact. Qed.

Lemma mul_exact a b : in_range (a * b) -> mul a b = a * b.
Proof. apply wrap_exact. Qed.
End GoIntFacts.

Module os_facts.
Import os.

Lemma emits_refl w : emits w w [].
Proof. unfold emits. rewrite app_nil_r. auto. Qed.

Lemma emits_trans w w1 w2 e1 e2 :
  emits w w1 e1 -> emits w1 w2 e2 -> emits w w2 (e1 ++ e2).
Proof.
  intros (? & ? & ? & ?) (? & ? & ? & ?). unfold emits.
  rewrite length_app, <- drop_drop. repeat split; try congruence; [|lia].
  rewrite app_assoc. congruence.
Qed.

Lemma emits_advance c e fs w : emits w (advance c e fs w) [Ev c e].
Proof. unfold emits. simpl. by destruct (faults w). Qed.

Lemma ticks_advance c e fs w : ticks (advance c e fs w) = ticks w.
Proof. done. Qed.

Lemma Stat_inv name w w' r :
  Stat name w = (w', r) ->
  emits w w' [Ev (CStat name) (err_of r)] /\ files w' = files w /\
  ticks w' = ticks w /\
  match r with
  | Ok fi => exists f, files w !! name = Some f /\
                       fi = mkInfo (len (contents f)) (perm f)
  | Err e => IsNotExist e = true -> files w !! name = None
  end.
Proof.
  unfold Stat, reply. destruct (next_outcome w); [destruct (files w !! name) eqn:E|];
    intros [= <- <-]; (split; [apply emits_advance|split; [done|split; [done|]]]);
    eauto; done.
Qed.

Lemma Open_inv name w w' r :
  Open name w = (w', r) ->
  emits w w' [Ev (COpen name) (err_of r)] /\ files w' = files w /\
  ticks w' = ticks w /\
  forall h, r = Ok h -> h = mkHandle name O_RDONLY /\ is_Some (files w !! name).
Proof.
  unfold Open, reply. destruct (next_outcome w); [destruct (files w !! name) eqn:E|];
    intros [= <- <-]; (split; [apply emits_advance|split; [done|split; [done|]]]);
    intros h [= <-]; eauto.
Qed.

Lemma OpenFile_inv name fl mode w w' r :
  OpenFile name fl mode w = (w', r) ->
  emits w w' [Ev (COpenFile name fl) (err_of r)] /\
  match r with
  | Ok h =>
      h = mkHandle name fl /\
      if creates fl
      then files w' = <[name := mkFile [] (from_option perm mode (files w !! name))]> (files w)
      else files w' = files w /\ is_Some (files w !! name)
  | Err _ => files w' = files w
  end.
Proof.
  unfold OpenFile, reply.
  destruct (next_outcome w); [destruct (files w !! name) eqn:E; destruct (creates fl) eqn:Ec|];
    intros [= <- <-]; (split; [apply emits_advance|]); simpl; rewrite ?Ec; eauto.
Qed.

Lemma Write_inv f p w w' r :
  Write f p w = (w', r) ->
  exists k, emits w w' [Ev (CWrite f k) (err_of r)] /\ (k <= length p)%nat /\
  files w' = append_to (f_name f) (take k p) (files w) /\
  match r with
  | Ok n => n = len p /\ k = length p
  | Err _ => exists msg k0, next_outcome w = Fails msg k0 /\ k = Nat.min k0 (length p)
  end.
Proof.
  unfold Write, reply. destruct (next_outcome w) as [|msg k]; intros [= <- <-].
  - exists (length p). rewrite firstn_all.
    split; [apply emits_advance|]. split; [done|]. split; [done|]. done.
  - exists (Nat.min k (length p)).
    split; [apply emits_advance|]. split; [lia|]. split; [|by eauto].
    simpl. f_equal. apply list_eq. intros i. rewrite !lookup_take.
    repeat case_decide; try done; try lia.
    apply lookup_ge_None. lia.
Qed.

Lemma Close_inv f w w' r :
  Close f w = (w', r) ->
  emits w w' [Ev (CClose f) (err_of r)] /\ files w' = files w.
Proof.
  unfold Close, reply. destruct (next_outcome w); intros [= <- <-];
    eauto using emits_advance.
Qed.

Lemma Close_ticks f w w' r : Close f w = (w', r) -> ticks w' = ticks w.
Proof. unfold Close, reply. by destruct (next_outcome w); intros [= <- <-]. Qed.

Lemma Remove_inv name w w' r :
  Remove name w = (w', r) ->
  emits w w' [Ev (CRemove name) (err_of r)] /\
  match r with
  | Ok _ => files w' = delete name (files w) /\ is_Some (files w !! name)
  | Err _ => files w' = files w
  end.
Proof.
  unfold Remove, reply. destruct (next_outcome w); [destruct (files w !! name) eqn:E|];
    intros [= <- <-]; (split; [apply emits_advance|]); eauto.
Qed.

End os_facts.

Module gz_facts.
Import os os_facts.
Section WithGzip.
Context `{Gzip}.

Lemma io_Copy_inv gz src w w' r :
  io_Copy gz src w = (w', r) ->
  exists bs, emits w w' [Ev (CCopy (gz_dst gz) src) (err_of r)] /\
  files w' = append_to (f_name (gz_dst gz)) bs (files w) /\
  forall gz', r = Ok gz' ->
    gz' = mkGz (gz_dst gz) (gz_seen gz ++ read_all (f_name src) w) /\
    bs = gz_body (read_all (f_name src) w).
Proof.
  unfold io_Copy, reply. destruct (next_outcome w) as [|msg k]; intros [= <- <-].
  - eexists. split; [apply emits_advance|]. split; [done|]. by intros gz' [= <-].
  - eexists. split; [apply emits_advance|]. split; [done|]. done.
Qed.

Lemma gzip_Close_inv gz w w' r :
  gzip_Close gz w = (w', r) ->
  exists bs, emits w w' [Ev (CGzClose (gz_dst gz)) (err_of r)] /\
  files w' = append_to (f_name (gz_dst gz)) bs (files w) /\
  (r = Ok tt -> bs = gz_trailer (gz_seen gz)).
Proof.
  unfold gzip_Close, reply. destruct (next_outcome w) as [|msg k]; intros [= <- <-].
  - eexists. split; [apply emits_advance|]. split; [done|]. done.
  - eexists. split; [apply emits_advance|]. split; [done|]. done.
Qed.
End WithGzip.
End gz_facts.

Lemma append_to_other name name' bs (fs : gmap string file) :
  name' <> name -> os.append_to name bs fs !! name' = fs !! name'.
Proof.
  intros Hne. unfold os.append_to. destruct (fs !! name); [|done].
  by rewrite lookup_insert_ne.
Qed.

Lemma append_to_insert name bs f (fs : gmap string file) :
  os.append_to name bs (<[name := f]> fs)
  = <[name := mkFile (contents f ++ bs) (perm f)]> fs.
Proof.
  unfold os.append_to. rewrite lookup_insert_eq. by rewrite insert_insert_eq.
Qed.

(** The shapes of call the methods are made of. *)
Lemma bind_sys_inv {A B} (m : M World A) (k : A -> M State B) l w s' r :
  (sys m ≫= k) (l, w) = (s', r) ->
  (exists w1 a, m w = (w1, Ok a) /\ k a (l, w1) = (s', r)) \/
  (exists w1 e, m w = (w1, Err e) /\ s' = (l, w1) /\ r = Err e).
Proof.
  intros [(s1 & a & Hm & Hk)|(e & Hm & ->)]%bind_inv;
    apply sys_inv in Hm as (w1 & Hm & ->); eauto 6.
Qed.

Lemma bind_orfail_sys_inv {A B} (m : M World A) e0 (k : A -> M State B) l w s' r :
  (orfail (sys m) e0 ≫= k) (l, w) = (s', r) ->
  (exists w1 a, m w = (w1, Ok a) /\ k a (l, w1) = (s', r)) \/
  (exists w1 e, m w = (w1, Err e) /\ s' = (l, w1) /\ r = Err e0).
Proof.
  intros [(s1 & a & Hm & Hk)|(e & Hm & ->)]%bind_inv;
    apply orfail_inv in Hm as [(a' & Hm & E)|(e' & Hm & E)];
    simplify_eq; apply sys_inv in Hm as (w1 & Hm & ->); eauto 6.
Qed.

Lemma defer_sys_inv {A B} (d : M World B) (body : M State A) s s' r :
  defer (sys d) body s = (s', r) ->
  exists l2 w2 w3 r', body s = ((l2, w2), r) /\ d w2 = (w3, r') /\ s' = (l2, w3).
Proof.
  intros (s1 & Hb & ->)%defer_inv. destruct s1 as [l2 w2].
  destruct (d w2) as [w3 r'] eqn:Hd.
  exists l2, w2, w3, r'. by rewrite (sys_run _ _ _ _ _ Hd).
Qed.

(** * The methods of the logger *)

Ltac splits := repeat match goal with |- _ /\ _ => split end.

(** Composes the events of consecutive calls. *)
Ltac chain :=
  solve [ apply os_facts.emits_refl | eassumption
        | eapply os_facts.emits_trans; [eassumption|chain] ].

(** [l := self] at the head of a method. *)
Ltac inv_self H :=
  let s := fresh "s" in let l := fresh "l0" in let E := fresh "E" in
  apply bind_inv in H as [(s & l & E & H)|(? & E & _)];
  [unfold self in E; injection E as <- <-; cbn [fst snd] in H
  |unfold self in E; discriminate E].

Section LoggerFacts.
Context `{Gzip}.
Import os_facts gz_facts.

Lemma getBackupFileName_run l w :
  getBackupFileName (l, w)
  = ((l, {| files := files w; faults := faults w; trace := trace w;
            clock := clock w; ticks := S (ticks w) |}),
     Ok (backupFileNameAt (Filename l) (clock w (ticks w)))).
Proof. reflexivity. Qed.

Lemma composeFile_inv l w s' r :
  composeFile (l, w) = (s', r) ->
  exists w' evs, s' = (l, w') /\ emits w w' evs /\
  existsb is_write evs = false /\
  let name := Filename l in
  let dst := backupFileNameAt name (clock w (ticks w)) in
  let gzf := mkHandle dst O_CREATE_WRONLY_TRUNC in
  let file := mkHandle name O_RDONLY in
  match r with
  | Ok _ =>
      exists f r1 r2,
        files w !! name = Some f /\
        evs = [Ev (COpen name) None; Ev (CStat name) None;
               Ev (COpenFile dst O_CREATE_WRONLY_TRUNC) None;
               Ev (CCopy gzf file) None; Ev (CGzClose gzf) None;
               Ev (CRemove name) None; Ev (CClose gzf) r1; Ev (CClose file) r2] /\
        files w' = delete name (<[dst := archive_of f w dst]> (files w))
  | Err e =>
      files w' !! name = files w !! name /\
      exists c e0,
        first_failure evs = Some (c, e0) /\ e = seal_error c e0 /\
        forall f, c <> CClose f
  end.
Proof.
  intros Hrun. unfold composeFile in Hrun. inv_self Hrun.
  apply bind_orfail_sys_inv in Hrun
    as [(w1 & file & Hopen & Hrun)|(w1 & e & Hopen & -> & ->)];
    apply Open_inv in Hopen as (Ev1 & Hf1 & Ht1 & Hfile).
  2:{ exists w1, [Ev (COpen (Filename l)) (Some e)].
      split; [done|]. split; [done|]. split; [done|]. simpl.
      split; [by rewrite Hf1|]. exists (COpen (Filename l)), e. by splits. }
  destruct (Hfile _ eq_refl) as [-> [f Hf]]. clear Hfile.
  apply defer_sys_inv in Hrun as (l2 & w2 & w9 & r9 & Hrun & Hclose9 & ->).
  apply Close_inv in Hclose9 as (Ev9 & Hf9).
  apply bind_orfail_sys_inv in Hrun
    as [(w2' & fi & Hstat & Hrun)|(w2' & e & Hstat & [= -> ->] & ->)];
    apply Stat_inv in Hstat as (Ev2 & Hf2 & Ht2 & Hfi).
  2:{ exists w9. eexists. split; [done|]. split; [chain|]. split; [done|]. simpl.
      split; [congruence|]. exists (CStat (Filename l)), e. by splits. }
  destruct Hfi as (f' & Hf' & ->). rewrite Hf1, Hf in Hf'. injection Hf' as <-.
  rewrite bind_ok with (1 := getBackupFileName_run l w2') in Hrun.
  set (w3 := {| files := files w2' |}) in Hrun.
  assert (emits w2' w3 []) as Ev3.
  { unfold emits. simpl. rewrite app_nil_r. auto. }
  assert (clock w2' (ticks w2') = clock w (ticks w)) as Hnow.
  { destruct Ev1 as (_ & Ck1 & _), Ev2 as (_ & Ck2 & _). congruence. }
  rewrite Hnow in Hrun. cbn [fi_mode] in Hrun.
  set (name := Filename l) in *.
  set (dst := backupFileNameAt name (clock w (ticks w))) in *.
  assert (dst <> name) as Hfresh by apply backupFileNameAt_fresh.
  assert (files w3 = files w) as Hf3 by (simpl; congruence).
  apply bind_orfail_sys_inv in Hrun
    as [(w4 & gzf & Hcreate & Hrun)|(w4 & e & Hcreate & [= -> ->] & ->)];
    apply OpenFile_inv in Hcreate as (Ev4 & Hf4).
  2:{ exists w9. eexists. split; [done|]. split; [chain|]. split; [done|]. simpl.
      split; [congruence|]. exists (COpenFile dst O_CREATE_WRONLY_TRUNC), e. by splits. }
  destruct Hf4 as [-> Hf4]. cbn [os.creates] in Hf4. rewrite Hf3 in Hf4.
  apply defer_sys_inv in Hrun as (l8 & w7 & w8 & r8 & Hrun & Hclose8 & [= -> ->]).
  apply Close_inv in Hclose8 as (Ev8 & Hf8).
  assert (os.read_all name w4 = contents f) as Hread.
  { unfold os.read_all. by rewrite Hf4, lookup_insert_ne, Hf by done. }
  apply bind_sys_inv in Hrun
    as [(w5 & gz & Hcopy & Hrun)|(w5 & e & Hcopy & [= -> ->] & ->)];
    apply io_Copy_inv in Hcopy as (bs5 & Ev5 & Hf5 & Hgz); cbn [gz_dst f_name] in *.
  2:{ exists w9. eexists. split; [done|]. split; [chain|]. split; [done|]. simpl. split.
      - rewrite Hf9, Hf8, Hf5, append_to_other, Hf4, lookup_insert_ne by done. done.
      - exists (CCopy (mkHandle dst O_CREATE_WRONLY_TRUNC) (mkHandle name O_RDONLY)), e. by splits. }
  destruct (Hgz _ eq_refl) as [-> ->]. clear Hgz. rewrite Hread in *.
  apply bind_sys_inv in Hrun
    as [(w6 & [] & Hflush & Hrun)|(w6 & e & Hflush & [= -> ->] & ->)];
    apply gzip_Close_inv in Hflush as (bs6 & Ev6 & Hf6 & Hbs6); cbn [gz_dst f_name gz_seen] in *.
  2:{ exists w9. eexists. split; [done|]. split; [chain|]. split; [done|]. simpl. split.
      - rewrite Hf9, Hf8, Hf6, append_to_other, Hf5, append_to_other, Hf4,
          lookup_insert_ne by done. done.
      - exists (CGzClose (mkHandle dst O_CREATE_WRONLY_TRUNC)), e. by splits. }
  rewrite (Hbs6 eq_refl) in Hf6. clear Hbs6.
  apply sys_inv in Hrun as (w7' & Hremove & [= -> ->]).
  apply Remove_inv in Hremove as (Ev7 & Hf7).
  exists w9. eexists. split; [done|]. split; [chain|]. split; [done|]. simpl.
  destruct r as [[]|e].
  - exists f. do 2 eexists. split; [done|]. split; [done|].
    destruct Hf7 as [Hf7 _].
    rewrite Hf9, Hf8, Hf7, Hf6, Hf5, Hf4, !append_to_insert. done.
  - split.
    + rewrite Hf9, Hf8, Hf7, Hf6, append_to_other, Hf5, append_to_other, Hf4,
        lookup_insert_ne by done. done.
    + exists (CRemove name), e. by splits.
Qed.

Lemma close_inv l w s' r :
  close (l, w) = (s', r) ->
  exists w', s' = (with_fd l None, w') /\ files w' = files w /\
  ticks w' = ticks w /\ clock w' = clock w /\
  emits w w' (match fd l with
              | Some f => [Ev (CClose f) (os.err_of r)]
              | None => []
              end).
Proof.
  intros Hrun. unfold close in Hrun. inv_self Hrun.
  destruct (fd l) as [f|] eqn:Hfd.
  - apply bind_inv in Hrun as [(s1 & r1 & Hc & Hrun)|(e & Hc & ->)];
      apply try_inv in Hc as (r0 & Hc & E); [|done]. injection E as ->.
    apply sys_inv in Hc as (w1 & Hc & ->).
    pose proof (Close_ticks _ _ _ _ Hc) as Ht.
    apply Close_inv in Hc as (Ev1 & Hf1).
    assert (s' = (with_fd l None, w1) /\ r = r0) as [-> ->].
    { unfold mbind, M_bind, set_fd, modify, of_result in Hrun.
      cbn in Hrun. by injection Hrun as <- <-. }
    exists w1. splits; try done. by destruct Ev1 as (_ & ? & _).
  - injection Hrun as <- <-. exists w. splits; try done.
    + unfold with_fd. destruct l; simpl in *. by rewrite Hfd.
    + apply emits_refl.
Qed.

Lemma openNewFile_inv l w s' r :
  openNewFile (l, w) = (s', r) ->
  exists w' eo,
    emits w w' [Ev (COpenFile (Filename l) O_CREATE_WRONLY_TRUNC) eo] /\
    match r with
    | Ok _ =>
        eo = None /\ s' = (fresh l, w') /\
        files w' = <[Filename l :=
                       mkFile [] (from_option perm 493 (files w !! Filename l))]>
                     (files w)
    | Err e =>
        is_Some eo /\ s' = (l, w') /\ files w' = files w /\
        e = ErrOpenFile (Filename l)
    end.
Proof.
  intros Hrun. unfold openNewFile in Hrun. inv_self Hrun.
  apply bind_orfail_sys_inv in Hrun
    as [(w1 & h & Hopen & Hrun)|(w1 & e & Hopen & -> & ->)];
    apply OpenFile_inv in Hopen as (Ev1 & Hf1); exists w1; eexists;
    (split; [exact Ev1|]).
  - destruct Hf1 as [-> Hf1]. cbn [os.creates] in Hf1.
    unfold mbind, M_bind, set_fd, set_size, modify in Hrun. cbn in Hrun.
    injection Hrun as <- <-. done.
  - simpl. eauto.
Qed.

Lemma existsb_is_write_close (o : option os_File) (r : option error) :
  existsb is_write (match o with
                    | Some f => [Ev (CClose f) r]
                    | None => []
                    end) = false.
Proof. by destruct o. Qed.

Lemma makeNewFile_inv l w s' r :
  makeNewFile (l, w) = (s', r) ->
  exists l' w' evs, s' = (l', w') /\ emits w w' evs /\
  existsb is_write evs = false /\
  Filename l' = Filename l /\ MaxSize l' = MaxSize l /\
  (forall f, fd l = Some f -> rotation_started f evs) /\
  match r with
  | Ok _ =>
      l' = fresh l /\
      exists f r1 r2,
        files w !! Filename l = Some f /\
        evs = rotation_events l w None r1 r2 /\
        files w' = rotated_files l w f
  | Err _ =>
      fd l' = None /\
      (files w' !! Filename l = files w !! Filename l \/
       files w' !! Filename l = None)
  end.
Proof.
  intros Hrun. unfold makeNewFile in Hrun.
  apply bind_inv in Hrun as [(s1 & [] & Hclose & Hrun)|(e & Hclose & ->)];
    apply close_inv in Hclose as (w1 & -> & Hf1 & Ht1 & Hc1 & Ev1).
  2:{ exists (with_fd l None), w1. eexists.
      splits; [done|exact Ev1|apply existsb_is_write_close|done|done| |done|].
      - intros f Hfd. unfold rotation_started. rewrite Hfd. by eexists _, [].
      - left. by rewrite Hf1. }
  apply bind_inv in Hrun as [(s2 & [] & Hseal & Hrun)|(e & Hseal & ->)];
    apply composeFile_inv in Hseal as (w2 & evs2 & -> & Ev2 & Hnw2 & Hseal);
    cbn zeta in Hseal; cbn [with_fd Filename] in *.
  2:{ exists (with_fd l None), w2. eexists.
      splits; [done|chain| |done|done| |done|].
      - by rewrite existsb_app, existsb_is_write_close, Hnw2.
      - intros f Hfd. unfold rotation_started. rewrite Hfd. simpl. eauto.
      - left. destruct Hseal as [-> _]. by rewrite Hf1. }
  destruct Hseal as (f & r1 & r2 & Hf & -> & Hf2).
  apply openNewFile_inv in Hrun as (w3 & eo & Ev3 & Hrun).
  cbn [with_fd Filename] in *. unfold archive_of in Hf2.
  rewrite Hf1 in Hf. rewrite Ht1, Hc1, Hf1 in Hf2.
  rewrite Ht1, Hc1 in Ev2. cbn [os.err_of] in Ev1.
  destruct r as [[]|e].
  - destruct Hrun as (-> & -> & Hf3). exists (fresh l), w3. eexists.
    splits; [done|chain| |done|done| |done|].
    + by rewrite existsb_app, existsb_is_write_close.
    + intros f0 Hfd. unfold rotation_started. rewrite Hfd. simpl. eauto.
    + exists f, r1, r2. split; [done|]. split.
      * unfold rotation_events. by destruct (fd l).
      * rewrite Hf3, Hf2. rewrite lookup_delete_eq. simpl.
        unfold rotated_files, archive_of. by rewrite insert_delete_eq.
  - destruct Hrun as (_ & -> & Hf3 & _). exists (with_fd l None), w3. eexists.
    splits; [done|chain| |done|done| |done|].
    + by rewrite existsb_app, existsb_is_write_close.
    + intros f0 Hfd. unfold rotation_started. rewrite Hfd. simpl. eauto.
    + right. by rewrite Hf3, Hf2, lookup_delete_eq.
Qed.

Lemma max_config l l' : MaxSize l' = MaxSize l -> max l' = max l.
Proof. unfold max. by intros ->. Qed.

Lemma max_in_range l : GoInt.in_range (max l).
Proof.
  unfold max. destruct (MaxSize l =? 0).
  - unfold GoInt.in_range, GoInt.min_int, GoInt.max_int, defaultMaxSize, megabyte. lia.
  - apply GoIntFacts.wrap_in_range.
Qed.

Lemma len_nonneg p : 0 <= len p.
Proof. unfold len. lia. Qed.

Lemma add_zero_len p l : len p <= max l -> GoInt.add 0 (len p) = len p.
Proof.
  intros Hp. apply GoIntFacts.add_exact. pose proof (max_in_range l) as [_ Hmax].
  pose proof (len_nonneg p). unfold GoInt.in_range, GoInt.min_int in *. lia.
Qed.

Lemma openFile_inv curlen l w s' r :
  openFile curlen (l, w) = (s', r) ->
  exists l' w' evs, s' = (l', w') /\ emits w w' evs /\
  existsb is_write evs = false /\
  Filename l' = Filename l /\ MaxSize l' = MaxSize l /\
  match r with
  | Ok _ =>
      match files w !! Filename l with
      | None =>
          l' = fresh l /\
          files w' = <[Filename l := mkFile [] 493]> (files w) /\
          evs = [Ev (CStat (Filename l)) (Some ErrNotExist);
                 Ev (COpenFile (Filename l) O_CREATE_WRONLY_TRUNC) None]
      | Some f =>
          if GoInt.add (len (contents f)) curlen >=? max l
          then l' = fresh l /\
               exists r1 r2,
                 evs = Ev (CStat (Filename l)) None
                         :: rotation_events l w None r1 r2 /\
                 files w' = rotated_files l w f
          else l' = resumed l (len (contents f)) /\
               files w' = files w /\
               evs = [Ev (CStat (Filename l)) None;
                      Ev (COpenFile (Filename l) O_WRONLY_APPEND) None]
      end
  | Err _ =>
      (fd l = None -> fd l' = None) /\
      (files w' !! Filename l = files w !! Filename l \/
       files w' !! Filename l = None)
  end.
Proof.
  intros Hrun. unfold openFile in Hrun. inv_self Hrun.
  apply bind_inv in Hrun as [(s1 & r1 & Hstat & Hrun)|(e & Hstat & ->)];
    apply try_inv in Hstat as (r0 & Hstat & E); [|done]. injection E as ->.
  apply sys_inv in Hstat as (w1 & Hstat & ->).
  pose proof Hstat as (Ev1 & Hf1 & Ht1 & Hfi)%Stat_inv.
  assert (clock w1 = clock w) as Hc1 by by destruct Ev1 as (_ & ? & _).
  destruct r0 as [fi|e].
  - destruct Hfi as (f & Hf & ->). cbn [fi_size] in Hrun. rewrite Hf.
    destruct (GoInt.add (len (contents f)) curlen >=? max l) eqn:Hfull.
    + apply makeNewFile_inv in Hrun
        as (l' & w' & evs & -> & Ev2 & Hnw & Hn & Hm & _ & Hrun).
      exists l', w'. eexists. splits; [done|chain|done|done|done|].
      destruct r as [[]|e].
      * destruct Hrun as (-> & f' & r1 & r2 & Hf' & -> & Hf2).
        rewrite Hf1, Hf in Hf'. injection Hf' as <-. split; [done|].
        exists r1, r2. unfold rotation_events, rotated_files, archive_of in *.
        rewrite Ht1, Hc1, Hf1 in *. done.
      * destruct Hrun as [Hfd Hdisk]. split; [by intros _|].
        by rewrite Hf1, Hf in Hdisk.
    + apply bind_orfail_sys_inv in Hrun
        as [(w2 & h & Hopen & Hrun)|(w2 & e & Hopen & -> & ->)];
        apply OpenFile_inv in Hopen as (Ev2 & Hf2).
      * destruct Hf2 as (-> & Hf2 & _).
        unfold mbind, M_bind, set_fd, set_size, modify in Hrun. cbn in Hrun.
        injection Hrun as <- <-. exists (resumed l (len (contents f))), w2.
        eexists. splits; [done|chain|done|done|done|done|congruence|done].
      * exists l, w2. eexists. splits; [done|chain|done|done|done|done|].
        left. congruence.
  - destruct (IsNotExist e) eqn:Hne.
    + specialize (Hfi eq_refl). rewrite <- Hf1 in Hfi.
      assert (e = ErrNotExist) as -> by by destruct e.
      apply openNewFile_inv in Hrun as (w2 & eo & Ev2 & Hrun).
      rewrite Hf1 in Hfi. rewrite Hfi.
      destruct r as [[]|e].
      * destruct Hrun as (-> & -> & Hf2). exists (fresh l), w2. eexists.
        splits; [done|chain|done|done|done|done| |done].
        rewrite Hf2, Hf1, Hfi. done.
      * destruct Hrun as (_ & -> & Hf2 & _). exists l, w2. eexists.
        splits; [done|chain|done|done|done|done|]. left. congruence.
    + injection Hrun as <- <-. exists l, w1. eexists.
      splits; [done|chain|done|done|done|done|]. left. congruence.
Qed.

(** The append that ends [Write], from a state with a file open. *)
Lemma append_inv p l1 w1 h s' r :
  (l0 ← self;
   n ← match fd l0 with
       | Some f => sys (os.Write f p)
       | None => fail ErrInvalid
       end;
   set_size (GoInt.add (size l0) n);; mret n) (l1, w1) = (s', r) ->
  fd l1 = Some h ->
  exists w2, os.Write h p w1 = (w2, r) /\
    s' = (match r with
          | Ok n => with_size l1 (GoInt.add (size l1) n)
          | Err _ => l1
          end, w2).
Proof.
  intros Hrun Hh. inv_self Hrun. rewrite Hh in Hrun.
  apply bind_sys_inv in Hrun
    as [(w2 & n & Hw & Hrun)|(w2 & e & Hw & -> & ->)]; [|by eauto].
  exists w2. unfold mbind, M_bind, set_size, modify, mret, M_ret in Hrun.
  cbn in Hrun. by injection Hrun as <- <-.
Qed.

(** [Write] in two phases: up to the append (the size check, the open, the
    rotation), which leaves [(l1, w1)] and the result [r1], and the append. *)
Lemma Write_body_inv p l w s' r :
  Write_body p (l, w) = (s', r) ->
  if len p >? max l
  then s' = (l, w) /\ r = Err (ErrTooLarge (len p) (max l))
  else
    exists l1 w1 evs1 (r1 : result unit),
      emits w w1 evs1 /\ existsb is_write evs1 = false /\
      Filename l1 = Filename l /\ MaxSize l1 = MaxSize l /\
      (forall f, fd l = Some f ->
         if GoInt.add (size l) (len p) >? max l
         then rotation_started f evs1 /\
              (r1 = Ok tt ->
               l1 = fresh l /\
               exists f0 r1 r2,
                 files w !! Filename l = Some f0 /\
                 evs1 = rotation_events l w None r1 r2 /\
                 files w1 = rotated_files l w f0)
         else evs1 = [] /\ l1 = l /\ w1 = w /\ r1 = Ok tt) /\
      match r1 with
      | Err e =>
          s' = (l1, w1) /\ r = Err e /\ fd l1 = None /\
          (files w1 !! Filename l = files w !! Filename l \/
           files w1 !! Filename l = None)
      | Ok _ =>
          exists h w2,
            fd l1 = Some h /\
            size l1 = size_before_append p l w /\
            (consistent l w -> consistent l1 w1) /\
            os.Write h p w1 = (w2, r) /\
            s' = (match r with
                  | Ok n => with_size l1 (GoInt.add (size l1) n)
                  | Err _ => l1
                  end, w2)
      end.
Proof.
  intros Hrun. unfold Write_body in Hrun. inv_self Hrun.
  destruct (len p >? max l) eqn:Hbig; [by injection Hrun as <- <-|].
  assert (len p <= max l) as Hfit by lia.
  unfold size_before_append.
  destruct (fd l) as [f|] eqn:Hfd.
  - (* a file is open *)
    apply bind_inv in Hrun as [(s1 & [] & E & Hrun)|(e & E & _)]; [|done].
    injection E as <-. inv_self Hrun.
    destruct (GoInt.add (size l) (len p) >? max l) eqn:Hrot.
    + apply bind_inv in Hrun as [(s1 & [] & Hmk & Hrun)|(e & Hmk & ->)];
        apply makeNewFile_inv in Hmk
          as (l1 & w1 & evs & -> & Ev1 & Hnw & Hn & Hm & Hcl & Hmk).
      * destruct Hmk as (-> & f0 & r1 & r2 & Hf0 & -> & Hfs).
        destruct (append_inv _ _ _ _ _ _ Hrun eq_refl) as (w2 & Hw & ->).
        exists (fresh l), w1. eexists. exists (Ok tt).
        splits; [done|done|done|done| |].
        { intros f' [= <-]. rewrite Hfd in Hcl. split; [by apply Hcl|].
          intros _. split; [done|]. by exists f0, r1, r2. }
        exists (mkHandle (Filename l) O_CREATE_WRONLY_TRUNC), w2.
        splits; try done.
        intros _ h [= <-]. split; [done|]. rewrite Hfs. unfold rotated_files.
        rewrite lookup_insert_eq. eauto.
      * destruct Hmk as [Hnone Hdisk].
        exists l1, w1, evs, (Err e). splits; try done.
        intros f' [= <-]. rewrite Hfd in Hcl. split; [by apply Hcl|done].
    + apply bind_inv in Hrun as [(s1 & [] & E & Hrun)|(e & E & _)]; [|done].
      injection E as <-.
      destruct (append_inv _ _ _ _ _ _ Hrun Hfd) as (w2 & Hw & ->).
      exists l, w, [], (Ok tt).
      splits; [apply emits_refl|done|done|done|by intros|].
      exists f, w2. splits; done.
  - (* no file is open *)
    apply bind_inv in Hrun as [(s1 & [] & Hopen & Hrun)|(e & Hopen & ->)];
      apply openFile_inv in Hopen
        as (l1 & w1 & evs & -> & Ev1 & Hnw & Hn & Hm & Hopen).
    2:{ destruct Hopen as [Hnone Hdisk].
        exists l1, w1, evs, (Err e). splits; try done. by apply Hnone. }
    inv_self Hrun.
    assert (exists h, fd l1 = Some h /\
              (GoInt.add (size l1) (len p) >? max l1) = false /\
              consistent l1 w1 /\
              size l1 = match files w !! Filename l with
                        | Some f =>
                            if GoInt.add (len (contents f)) (len p) >=? max l
                            then 0 else len (contents f)
                        | None => 0
                        end) as (h & Hh & Hroom & Hcons & Hsize).
    { rewrite (max_config l l1 Hm).
      destruct (files w !! Filename l) as [f|] eqn:Hf;
        [destruct (GoInt.add (len (contents f)) (len p) >=? max l) eqn:Hfull|].
      - destruct Hopen as (-> & r1 & r2 & -> & Hfs). eexists.
        cbn [fresh fd size]. rewrite (add_zero_len p l Hfit).
        splits; [done|lia| |done].
        intros h [= <-]. split; [done|]. rewrite Hfs. unfold rotated_files.
        cbn [fresh Filename size]. rewrite lookup_insert_eq. eauto.
      - destruct Hopen as (-> & Hfs & ->). eexists. cbn [resumed fd size].
        splits; [done|lia| |done].
        intros h [= <-]. split; [done|]. rewrite Hfs.
        cbn [resumed Filename size]. eauto.
      - destruct Hopen as (-> & Hfs & ->). eexists.
        cbn [fresh fd size]. rewrite (add_zero_len p l Hfit).
        splits; [done|lia| |done].
        intros h [= <-]. split; [done|]. rewrite Hfs.
        cbn [fresh Filename size]. rewrite lookup_insert_eq. eauto. }
    rewrite Hroom in Hrun.
    apply bind_inv in Hrun as [(s1 & [] & E & Hrun)|(e & E & _)]; [|done].
    injection E as <-.
    destruct (append_inv _ _ _ _ _ _ Hrun Hh) as (w2 & Hw & ->).
    exists l1, w1, evs, (Ok tt). splits; [done|done|done|done|done|].
    exists h, w2. splits; done.
Qed.

End LoggerFacts.

(** * The specification *)

Lemma emits_new_events w w' evs : emits w w' evs -> new_events w w' = evs.
Proof.
  intros (Htr & _). unfold new_events. rewrite Htr.
  by rewrite drop_app_length.
Qed.

(** ** Archive names *)

(** C7, as amended: the archive of a file (other than the root directory)
    made at a valid reading of the clock is named
    [<directory>/<YYYY-MM-DD-HH-MM-SS>-<nanoseconds>-<base>.gz], the
    nanoseconds in decimal without padding; two readings give the same name
    only if they are the same reading; the names of two readings sort as the
    readings when these differ in their seconds, and also within one second
    when the two nanosecond counts have the same number of digits. *)
Theorem archive_names filename t1 t2 :
  filepath.Base filename <> "/" -> gotime.valid t1 -> gotime.valid t2 ->
  (backupFileNameAt filename t1
   = archive_dir filename +:+ gotime.Format t1 +:+ "-"
       +:+ gotime.decimal (gotime.nanosecond t1) +:+ "-"
       +:+ filepath.Base filename +:+ ".gz" /\
   backupFileNameAt filename t1
   = filepath.Join (filepath.Dir filename) (stamped filename t1) /\
   filepath.dirlike (archive_dir filename) /\
   gotime.Format t1
   = gotime.fixed 4 (gotime.year t1) +:+ "-" +:+
     gotime.fixed 2 (gotime.month t1) +:+ "-" +:+
     gotime.fixed 2 (gotime.day t1) +:+ "-" +:+
     gotime.fixed 2 (gotime.hour t1) +:+ "-" +:+
     gotime.fixed 2 (gotime.minute t1) +:+ "-" +:+
     gotime.fixed 2 (gotime.second t1) /\
   String.length (gotime.Format t1) = 19%nat /\
   gotime.all_digits (gotime.decimal (gotime.nanosecond t1)) = true) /\
  (backupFileNameAt filename t1 = backupFileNameAt filename t2 -> t1 = t2) /\
  (gotime.lex_ltb (gotime.to_second t1) (gotime.to_second t2) = true ->
   String.ltb (backupFileNameAt filename t1) (backupFileNameAt filename t2)
   = true) /\
  (gotime.to_second t1 = gotime.to_second t2 ->
   String.length (gotime.decimal (gotime.nanosecond t1))
   = String.length (gotime.decimal (gotime.nanosecond t2)) ->
   gotime.nanosecond t1 < gotime.nanosecond t2 ->
   String.ltb (backupFileNameAt filename t1) (backupFileNameAt filename t2)
   = true).
Proof.
  intros Hroot Ht1 Ht2.
  assert (backupFileNameAt filename t1
          = filepath.Join (filepath.Dir filename) (stamped filename t1))
    as Hjoin by reflexivity.
  rewrite !archive_facts.backupFileNameAt_split in * by done.
  unfold String.ltb. rewrite compare_app_prefix.
  rewrite archive_facts.stamped_compare by done.
  splits.
  - unfold stamped, gotime.fmt_d, gotime.sign, ext.
    destruct Ht1 as (_ & _ & _ & _ & _ & _ & Hn).
    destruct (Z.ltb_spec (gotime.nanosecond t1) 0); [lia|].
    by rewrite Z.abs_eq by lia.
  - exact Hjoin.
  - apply archive_facts.dirlike_archive_dir.
  - by apply archive_facts.Format_fixed.
  - by apply archive_facts.Format_length.
  - apply gotime_facts.utoa_digits.
  - intros Heq. apply String.app_inj in Heq.
    by apply (archive_facts.stamped_inj filename).
  - intros Hlt. by rewrite archive_facts.lex_ltb_compare.
  - intros -> Hlen Hlt. rewrite archive_facts.lex_compare_refl.
    unfold after_stamp. rewrite compare_app_eqlen by done.
    rewrite gotime_facts.decimal_compare
      by (done || by apply archive_facts.ns_range).
    by apply Z.compare_lt_iff in Hlt as ->.
Qed.

Section Specification.
Context `{Gzip}.
Import os_facts.

(** [Write] returns what its body returns, with 0 for the count of a failed
    call. *)
Lemma Write_unfold p s s' n e :
  Write p s = (s', (n, e)) ->
  exists r, Write_body p s = (s', r) /\
            n = match r with Ok n => n | Err _ => 0 end /\ e = os.err_of r.
Proof.
  unfold Write. destruct (Write_body p s) as [s1 [m|e1]]; intros [= <- <- <-]; eauto.
Qed.

(** ** The policy maximum *)

(** C9, as amended: the policy maximum is [MaxSize * 1024 * 1024] bytes when
    [MaxSize] is not zero and that product fits in an [int], and 100 MiB
    when [MaxSize] is zero. *)
Theorem max_in_bytes l :
  GoInt.in_range (MaxSize l * megabyte) ->
  max l = if MaxSize l =? 0 then 100 * 1024 * 1024 else MaxSize l * 1024 * 1024.
Proof.
  intros Hfits. unfold max. destruct (MaxSize l =? 0); [done|].
  rewrite GoIntFacts.mul_exact by done. unfold megabyte. lia.
Qed.

(** ** Buffers larger than the maximum *)

Lemma oversize_refused p l w :
  len p > max l ->
  Write p (l, w) = ((l, w), (0, Some (ErrTooLarge (len p) (max l)))).
Proof.
  intros Hbig. unfold Write.
  destruct (Write_body p (l, w)) as [s' r] eqn:Hrun.
  apply Write_body_inv in Hrun.
  assert ((len p >? max l) = true) as Hb by lia. rewrite Hb in Hrun.
  by destruct Hrun as [-> ->].
Qed.

(** C2: a buffer longer than the policy maximum is refused with count 0 and
    an error; the logger and the world are left as they were: no call of the
    system is made, no file is created. *)
Theorem Write_rejects_oversize p l w :
  len p > max l ->
  Write p (l, w) = ((l, w), (0, Some (ErrTooLarge (len p) (max l)))).
Proof. apply oversize_refused. Qed.

(** ** Counts and sizes *)

Lemma Write_count_and_size p l w l' w' n e :
  Write p (l, w) = ((l', w'), (n, e)) ->
  match e with
  | None =>
      n = len p /\
      size l' = GoInt.add (size_before_append p l w) (len p) /\
      (GoInt.in_range (size_before_append p l w + len p) ->
       size l' = size_before_append p l w + len p)
  | Some _ => n = 0
  end.
Proof.
  intros (r & Hrun & -> & ->)%Write_unfold. destruct r as [m|e]; [|done].
  cbn [os.err_of]. apply Write_body_inv in Hrun.
  destruct (len p >? max l); [by destruct Hrun|].
  destruct Hrun as (l1 & w1 & evs & r1 & _ & _ & _ & _ & _ & Hrun).
  destruct r1 as [[]|e1]; [|by destruct Hrun as (_ & ? & _)].
  destruct Hrun as (h & w2 & Hh & Hsize & _ & Hw & [= -> ->]).
  apply Write_inv in Hw as (k & _ & _ & _ & -> & _).
  cbn [with_size size]. rewrite Hsize. split; [done|]. split; [done|].
  apply GoIntFacts.add_exact.
Qed.

(** C10: a call of [Write] that returns no error returns [len(p)], and the
    size it leaves is the size the file had when the append was reached plus
    [len(p)] (in [int] arithmetic, which is exact when the sum fits); a call
    that returns an error returns 0. *)
Theorem Write_all_or_nothing p l w l' w' n e :
  Write p (l, w) = ((l', w'), (n, e)) ->
  match e with
  | None =>
      n = len p /\
      size l' = GoInt.add (size_before_append p l w) (len p) /\
      (GoInt.in_range (size_before_append p l w + len p) ->
       size l' = size_before_append p l w + len p)
  | Some _ => n = 0
  end.
Proof. apply Write_count_and_size. Qed.

(** C8: a call of [Write] that returns an error returns 0.  When the append
    is what failed (the call of [Write] on the file is among the calls this
    [Write] made, it moved [k] bytes and returned [e0]), [Write] returns that
    error, the count 0 is at most [k], and the size is left as it was when
    the append was reached. *)
Theorem Write_append_failure p l w l' w' n e :
  Write p (l, w) = ((l', w'), (n, e)) ->
  (e <> None -> n = 0) /\
  forall f k e0,
    In (Ev (CWrite f k) (Some e0)) (new_events w w') ->
    e = Some e0 /\ n = 0 /\ n <= Z.of_nat k /\ (k <= length p)%nat /\
    fd l' = Some f /\ size l' = size_before_append p l w.
Proof.
  intros (r & Hrun & -> & ->)%Write_unfold. split; [by destruct r|].
  intros f k e0 Hin. apply Write_body_inv in Hrun.
  destruct (len p >? max l).
  { destruct Hrun as [[= <- <-] _]. unfold new_events in Hin.
    by rewrite drop_all in Hin. }
  destruct Hrun as (l1 & w1 & evs & r1 & Ev1 & Hnw & _ & _ & _ & Hrun).
  assert (~ In (Ev (CWrite f k) (Some e0)) evs) as Hnot.
  { intros Hin'. apply not_true_iff_false in Hnw. apply Hnw.
    apply existsb_exists. by eexists. }
  destruct r1 as [[]|e1].
  - destruct Hrun as (h & w2 & Hh & Hsize & _ & Hw & [= -> ->]).
    apply Write_inv in Hw as (k' & Ev2 & Hk & _ & Hr).
    rewrite (emits_new_events w w2 (evs ++ [Ev (CWrite h k') (os.err_of r)])) in Hin
      by (eapply emits_trans; eassumption).
    apply in_app_or in Hin as [Hin|[[= <- <- Hr']|[]]]; [done|].
    destruct r as [m|e]; [done|]. injection Hr' as ->.
    splits; [done|done|lia|done|done|done].
  - destruct Hrun as ([= -> ->] & _). by rewrite (emits_new_events _ _ _ Ev1) in Hin.
Qed.

(** ** When a rotation happens *)

Lemma rotation_cases p l w f l' w' n e :
  fd l = Some f -> len p <= max l ->
  Write p (l, w) = ((l', w'), (n, e)) ->
  (rotation_started f (new_events w w') <->
   GoInt.add (size l) (len p) > max l) /\
  (GoInt.in_range (size l + len p) ->
   (rotation_started f (new_events w w') <-> size l + len p > max l)) /\
  (GoInt.add (size l) (len p) <= max l ->
   (exists k e0, new_events w w' = [Ev (CWrite f k) e0]) /\
   (e = None ->
    size l' = GoInt.add (size l) (len p) /\
    files w' = os.append_to (f_name f) p (files w))) /\
  (GoInt.add (size l) (len p) > max l -> e = None ->
   size l' = len p /\
   exists f0 r1 r2,
     files w !! Filename l = Some f0 /\
     new_events w w'
     = rotation_events l w None r1 r2
         ++ [Ev (CWrite (mkHandle (Filename l) O_CREATE_WRONLY_TRUNC) (length p))
               None] /\
     files w' = <[Filename l := mkFile p 493]> (rotated_files l w f0)).
Proof.
  intros Hfd Hfit (r & Hrun & -> & ->)%Write_unfold.
  apply Write_body_inv in Hrun.
  assert ((len p >? max l) = false) as Hb by lia. rewrite Hb in Hrun.
  destruct Hrun as (l1 & w1 & evs & r1 & Ev1 & _ & _ & _ & Hrot & Hrun).
  specialize (Hrot f Hfd).
  assert (exists tl, emits w w' (evs ++ tl) /\
            (r1 = Ok tt -> exists h k, fd l1 = Some h /\
               tl = [Ev (CWrite h k) (os.err_of r)] /\
               (forall m, r = Ok m -> m = len p /\ k = length p /\
                  size l' = GoInt.add (size l1) (len p) /\
                  files w' = os.append_to (f_name h) p (files w1))))
    as (tl & Hev & Htl).
  { destruct r1 as [[]|e1].
    - destruct Hrun as (h & w2 & Hh & _ & _ & Hw & [= -> ->]).
      apply Write_inv in Hw as (k & Ev2 & _ & Hfs & Hr). eexists.
      split; [eapply emits_trans; eassumption|]. intros _. exists h, k.
      splits; [done|done|]. intros m ->. destruct Hr as [-> ->].
      by rewrite firstn_all in Hfs.
    - destruct Hrun as ([= -> ->] & _). exists []. by rewrite app_nil_r. }
  rewrite (emits_new_events _ _ _ Hev).
  destruct (GoInt.add (size l) (len p) >? max l) eqn:Hover.
  - destruct Hrot as [(rc & rest & ->) Hdone].
    assert (rotation_started f ((Ev (CClose f) rc :: rest) ++ tl)) as Hst
      by (by eexists _, _).
    splits; [split; [lia|done]| | lia |].
    + intros Hin. rewrite GoIntFacts.add_exact in Hover by done.
      split; [lia|done].
    + intros _ Hok. destruct r as [m|]; [|done]. destruct r1 as [[]|]; [|by destruct Hrun as (_ & ? & _)].
      destruct (Hdone eq_refl) as (-> & f0 & r1 & r2 & Hf0 & Hevs & Hfs).
      destruct (Htl eq_refl) as (h & k & [= <-] & -> & Hm).
      destruct (Hm _ eq_refl) as (-> & -> & -> & ->).
      cbn [fresh size f_name]. rewrite (add_zero_len p l Hfit). split; [done|].
      exists f0, r1, r2. rewrite Hevs, Hfs. splits; [done|done|].
      unfold rotated_files. cbn zeta. rewrite append_to_insert. cbn.
      by rewrite !insert_insert_eq.
  - destruct Hrot as (-> & -> & -> & ->).
    destruct (Htl eq_refl) as (h & k & Hh & -> & Hm).
    rewrite Hfd in Hh. injection Hh as <-. cbn [app].
    assert (~ rotation_started f [Ev (CWrite f k) (os.err_of r)]) as Hno
      by (by intros (? & ? & [=])).
    splits; [split; [done|lia]| | |lia].
    + intros Hin. rewrite GoIntFacts.add_exact in Hover by done.
      split; [done|lia].
    + intros _. split; [by eauto|]. intros Hok.
      destruct r as [m|]; [|done]. by destruct (Hm _ eq_refl) as (_ & _ & ? & ?).
Qed.

(** C3: with a file open, [Write] starts a rotation exactly when the size
    plus the length of the buffer is greater than the maximum (the sum is
    the [int] sum, which is the sum of the integers when that fits).  When
    it is not greater, also when it is equal, the one call made is the
    append, which puts the buffer after what the file holds.  When it is
    greater, and the call goes through, the rotation is complete before the
    append: the old contents are in the archive and the file holds the
    buffer alone. *)
Theorem rotation_iff_exceeds p l w f l' w' n e :
  fd l = Some f -> len p <= max l ->
  Write p (l, w) = ((l', w'), (n, e)) ->
  (rotation_started f (new_events w w') <->
   GoInt.add (size l) (len p) > max l) /\
  (GoInt.in_range (size l + len p) ->
   (rotation_started f (new_events w w') <-> size l + len p > max l)) /\
  (GoInt.add (size l) (len p) <= max l ->
   (exists k e0, new_events w w' = [Ev (CWrite f k) e0]) /\
   (e = None ->
    size l' = GoInt.add (size l) (len p) /\
    files w' = os.append_to (f_name f) p (files w))) /\
  (GoInt.add (size l) (len p) > max l -> e = None ->
   size l' = len p /\
   exists f0 r1 r2,
     files w !! Filename l = Some f0 /\
     new_events w w'
     = rotation_events l w None r1 r2
         ++ [Ev (CWrite (mkHandle (Filename l) O_CREATE_WRONLY_TRUNC) (length p))
               None] /\
     files w' = <[Filename l := mkFile p 493]> (rotated_files l w f0)).
Proof. apply rotation_cases. Qed.

(** ** The size from one call to the next *)

Lemma size_before_append_fits p l w :
  len p <= max l -> GoInt.add (size_before_append p l w) (len p) <= max l.
Proof.
  intros Hfit. unfold size_before_append.
  repeat case_match; rewrite ?(add_zero_len p l Hfit); lia.
Qed.

Lemma Write_config p l w l' w' res :
  Write p (l, w) = ((l', w'), res) ->
  Filename l' = Filename l /\ MaxSize l' = MaxSize l /\
  exists evs, emits w w' evs.
Proof.
  destruct res as [n e]. intros (r & Hrun & -> & ->)%Write_unfold.
  apply Write_body_inv in Hrun. destruct (len p >? max l).
  { destruct Hrun as [[= <- <-] _]. eauto using emits_refl. }
  destruct Hrun as (l1 & w1 & evs & r1 & Ev1 & _ & Hn & Hm & _ & Hrun).
  destruct r1 as [[]|e1].
  - destruct Hrun as (h & w2 & _ & _ & _ & Hw & [= -> ->]).
    apply Write_inv in Hw as (k & Ev2 & _). splits.
    + by destruct r.
    + by destruct r.
    + eexists. eapply emits_trans; eassumption.
  - destruct Hrun as ([= -> ->] & _). eauto.
Qed.

Lemma Write_size_le p l w l' w' n :
  Write p (l, w) = ((l', w'), (n, None)) -> size l' <= max l.
Proof.
  intros Hrun. pose proof (Write_count_and_size _ _ _ _ _ _ _ Hrun) as (_ & -> & _).
  apply size_before_append_fits.
  destruct (Z.leb_spec (len p) (max l)) as [|Hbig]; [done|].
  rewrite oversize_refused in Hrun by lia. done.
Qed.

Lemma Forall_clean_emits w w' evs :
  emits w w' evs -> Forall clean_failure (faults w) ->
  Forall clean_failure (faults w').
Proof. intros (_ & _ & -> & _). apply Forall_drop. Qed.

Lemma Write_in_step p l w l' w' n e :
  Write p (l, w) = ((l', w'), (n, e)) ->
  max l < 2 ^ 62 -> Forall clean_failure (faults w) -> in_step l w ->
  in_step l' w' /\ (e = None -> disk_size l' w' = Some (size l')).
Proof.
  intros Hrun Hmax Hclean [Hcons Hdisk].
  pose proof (Write_config _ _ _ _ _ _ Hrun) as (Hn & Hm & _).
  pose proof Hrun as (r & Hbody & -> & ->)%Write_unfold.
  apply Write_body_inv in Hbody. destruct (len p >? max l) eqn:Hbig.
  { by destruct Hbody as [[= <- <-] ->]. }
  assert (len p <= max l) as Hfit by lia.
  destruct Hbody as (l1 & w1 & evs & r1 & Ev1 & _ & Hn1 & _ & _ & Hbody).
  destruct r1 as [[]|e1].
  2:{ destruct Hbody as ([= -> ->] & -> & Hnone & Hfs). split; [|done].
      split; [by intros h; rewrite Hnone|]. rewrite Hn.
      intros f Hf. destruct Hfs as [Hfs|Hfs]; rewrite Hfs in Hf; [eauto|done]. }
  destruct Hbody as (h & w2 & Hh & Hsize & Hcons1 & Hw & [= -> ->]).
  destruct (Hcons1 Hcons h Hh) as (Hname & f1 & Hf1 & Hlen1).
  rewrite Hn1 in Hf1, Hname.
  assert (0 <= size l1 < 2 ^ 62) as Hsz.
  { split; [rewrite <- Hlen1; apply len_nonneg|]. rewrite Hsize.
    unfold size_before_append.
    assert (forall f, files w !! Filename l = Some f -> 0 <= len (contents f) < 2 ^ 62)
      as Hb by (intros f Hf; split; [apply len_nonneg|by eapply Hdisk]).
    destruct (fd l) as [h0|] eqn:Hfd.
    - destruct (Hcons h0 Hfd) as (_ & f0 & Hf0 & <-). specialize (Hb _ Hf0).
      destruct (GoInt.add _ _ >? _); lia.
    - destruct (files w !! Filename l) as [f0|] eqn:Hf0; [|lia].
      specialize (Hb _ eq_refl). destruct (GoInt.add _ _ >=? _); lia. }
  assert (GoInt.add (size l1) (len p) = size l1 + len p) as Hadd.
  { apply GoIntFacts.add_exact. pose proof (len_nonneg p).
    unfold GoInt.in_range, GoInt.min_int, GoInt.max_int. lia. }
  pose proof (size_before_append_fits p l w Hfit) as Hle.
  rewrite <- Hsize, Hadd in Hle.
  apply Write_inv in Hw as (k & Ev2 & Hk & Hfs & Hr).
  assert (files w2 !! Filename l
          = Some (mkFile (contents f1 ++ take k p) (perm f1))) as Hf2.
  { rewrite Hfs, Hname. unfold os.append_to. rewrite Hf1.
    by rewrite lookup_insert_eq. }
  destruct r as [m|e]; cbn [os.err_of].
  - destruct Hr as [-> ->]. rewrite firstn_all in Hf2.
    assert (len (contents f1 ++ p) = size l1 + len p) as Hlen2.
    { unfold len in *. rewrite length_app. lia. }
    cbn [with_size] in Hn.
    split; [split|].
    + intros h' Hh'. cbn [with_size fd Filename size] in *. rewrite Hh in Hh'.
      injection Hh' as <-. rewrite Hn1. split; [done|].
      eexists. split; [exact Hf2|]. cbn. lia.
    + cbn [with_size Filename]. rewrite Hn1, Hf2. intros f [= <-]. cbn. lia.
    + intros _. unfold disk_size. cbn [with_size Filename size].
      rewrite Hn1, Hf2. cbn. f_equal. lia.
  - destruct Hr as (msg & k0 & Hout & ->).
    assert (k0 = 0%nat) as ->.
    { pose proof (Forall_clean_emits _ _ _ Ev1 Hclean) as Hc1.
      unfold os.next_outcome in Hout. destruct (faults w1) as [|o fl]; [done|].
      subst o. by apply Forall_cons in Hc1 as [? _]. }
    cbn [Nat.min take] in Hf2. rewrite app_nil_r in Hf2.
    split; [|done]. split.
    + intros h' Hh'. rewrite Hh in Hh'. injection Hh' as <-. rewrite Hn1.
      split; [done|]. eexists. split; [exact Hf2|]. done.
    + rewrite Hn1, Hf2. intros f [= <-]. cbn. lia.
Qed.

(** ** Sealing *)

(** C4: when a call of the seal fails (the first failure among the calls
    [composeFile] makes, other than the two deferred closes, whose errors
    are dropped), [composeFile] returns an error and the file at the
    logger's name is what it was.  The error is that of the failing call:
    the very error for the copy, the trailer and the removal, the message of
    the package for the open, the stat and the creation of the archive.
    Conversely an error of [composeFile] comes from such a call. *)
Theorem seal_failure_keeps_original l w l' w' r :
  composeFile (l, w) = ((l', w'), r) ->
  (forall c e0,
     first_failure (new_events w w') = Some (c, e0) ->
     (forall f, c <> CClose f) ->
     r = Err (seal_error c e0) /\
     l' = l /\ files w' !! Filename l = files w !! Filename l) /\
  (forall e,
     r = Err e ->
     l' = l /\ files w' !! Filename l = files w !! Filename l /\
     exists c e0,
       first_failure (new_events w w') = Some (c, e0) /\
       (forall f, c <> CClose f) /\ e = seal_error c e0).
Proof.
  intros (w2 & evs & [= -> ->] & Hev & _ & Hrun)%composeFile_inv.
  rewrite (emits_new_events _ _ _ Hev). cbn zeta in Hrun.
  destruct r as [[]|e].
  - destruct Hrun as (f & r1 & r2 & _ & -> & _). split; [|done].
    intros c e0 Hfirst Hc. cbn in Hfirst.
    destruct r1 as [e1|]; [injection Hfirst as <- <-; by edestruct Hc|].
    destruct r2 as [e2|]; [injection Hfirst as <- <-; by edestruct Hc|].
    done.
  - destruct Hrun as (Hfs & c & e0 & Hfirst & -> & Hc). split.
    + intros c' e0' Hfirst' _. rewrite Hfirst in Hfirst'.
      by injection Hfirst' as <- <-.
    + intros e' [= <-]. splits; [done|done|]. by exists c, e0.
Qed.

(** C5, as amended: the calls of a seal that goes through are, in this
    order, the open and the stat of the file, the creation of the archive,
    the copy, the close of the compressor (which writes the trailer), the
    removal of the file, and then the two deferred closes, of the archive
    and of the file, whatever these return.  So the file is removed after
    the compressed copy is written and its trailer flushed, and before the
    archive is closed. *)
Theorem seal_order l w l' w' :
  composeFile (l, w) = ((l', w'), Ok tt) ->
  let name := Filename l in
  let dst := backupFileNameAt name (clock w (ticks w)) in
  let gzf := mkHandle dst O_CREATE_WRONLY_TRUNC in
  let file := mkHandle name O_RDONLY in
  (exists r1 r2,
     new_events w w'
     = [Ev (COpen name) None; Ev (CStat name) None;
        Ev (COpenFile dst O_CREATE_WRONLY_TRUNC) None;
        Ev (CCopy gzf file) None; Ev (CGzClose gzf) None;
        Ev (CRemove name) None; Ev (CClose gzf) r1; Ev (CClose file) r2]) /\
  precedes (CCopy gzf file) (CRemove name) (new_events w w') /\
  precedes (CGzClose gzf) (CRemove name) (new_events w w') /\
  precedes (CRemove name) (CClose gzf) (new_events w w').
Proof.
  intros (w2 & evs & [= -> ->] & Hev & _ & Hok)%composeFile_inv.
  cbn zeta in *. destruct Hok as (f & r1 & r2 & _ & -> & _).
  rewrite (emits_new_events _ _ _ Hev). split; [by eexists _, _|].
  assert (backupFileNameAt (Filename l) (clock w (ticks w)) <> Filename l)
    as Hfresh by apply backupFileNameAt_fresh.
  unfold precedes.
  splits; [exists 3%nat, 5%nat|exists 4%nat, 5%nat|exists 5%nat, 6%nat];
    (splits; [| |lia]); cbn [position ev_call];
    repeat (first [rewrite decide_True by done
                  |rewrite decide_False by congruence]; cbn [fmap option_fmap option_map]);
    done.
Qed.

(** ** Opening the file *)

(** C6: with no file open and a system that does not fail, [openFile]
    creates an empty file and starts at size 0 when there is none at the
    name; rotates, instead of opening the file, when the file's size plus
    the length about to be written is at least the maximum; and otherwise
    opens the file for appending with its size as the current size, so that
    the [Write] that called it puts its buffer after what was there. *)
Theorem openFile_resolves curlen l w :
  faults w = [] ->
  match files w !! Filename l with
  | None =>
      exists w', openFile curlen (l, w) = ((fresh l, w'), Ok tt) /\
        files w' = <[Filename l := mkFile [] 493]> (files w) /\
        new_events w w'
        = [Ev (CStat (Filename l)) (Some ErrNotExist);
           Ev (COpenFile (Filename l) O_CREATE_WRONLY_TRUNC) None]
  | Some f =>
      if GoInt.add (len (contents f)) curlen >=? max l
      then
        openFile curlen (l, w)
        = makeNewFile (l, fst (os.Stat (Filename l) w)) /\
        forall s', openFile curlen (l, w) = (s', Ok tt) ->
          fst s' = fresh l /\ files (snd s') = rotated_files l w f
      else
        (exists w', openFile curlen (l, w)
                    = ((resumed l (len (contents f)), w'), Ok tt) /\
           files w' = files w /\
           new_events w w'
           = [Ev (CStat (Filename l)) None;
              Ev (COpenFile (Filename l) O_WRONLY_APPEND) None]) /\
        forall p, fd l = None -> len p = curlen -> len p <= max l ->
          exists w'',
            Write p (l, w)
            = ((resumed l (GoInt.add (len (contents f)) (len p)), w''),
               (len p, None)) /\
            files w'' = <[Filename l := mkFile (contents f ++ p) (perm f)]>
                          (files w)
  end.
Proof.
  intros Hq. destruct (files w !! Filename l) as [f|] eqn:Hf;
    [destruct (GoInt.add (len (contents f)) curlen >=? max l) eqn:Hfull|].
  - split.
    + destruct w as [fs fl tr ck tk]. cbn in *. subst fl.
      unfold openFile, self, sys, try, mbind at 1 2, M_bind at 1 2,
        os.Stat, os.reply, os.next_outcome.
      cbn -[makeNewFile]. rewrite Hf. cbn -[makeNewFile]. by rewrite Hfull.
    + intros [l' w'] Hrun. apply openFile_inv in Hrun
        as (l1 & w1 & evs & [= -> ->] & _ & _ & _ & _ & Hrun).
      rewrite Hf, Hfull in Hrun. by destruct Hrun as (-> & r1 & r2 & _ & Hfs).
  - assert (exists w', openFile curlen (l, w)
                       = ((resumed l (len (contents f)), w'), Ok tt) /\
              files w' = files w /\ faults w' = [] /\
              trace w' = trace w ++ [Ev (CStat (Filename l)) None;
                 Ev (COpenFile (Filename l) O_WRONLY_APPEND) None])
      as (w' & Hrun & Hfs & Hq' & Htr).
    { destruct w as [fs fl tr ck tk]. cbn in *. subst fl.
      unfold openFile, self, sys, try, orfail, mbind, M_bind, os.Stat,
        os.OpenFile, os.reply, os.next_outcome.
      cbn. rewrite Hf. cbn. rewrite Hfull. cbn. rewrite Hf. cbn.
      eexists. split; [reflexivity|]. cbn. by rewrite <- app_assoc. }
    split.
    + exists w'. splits; [done|done|]. unfold new_events.
      by rewrite Htr, drop_app_length.
    + intros p Hfd <- Hfit.
      assert ((len p >? max l) = false) as Hb by lia.
      assert ((GoInt.add (len (contents f)) (len p) >? max l) = false) as Hb2 by lia.
      unfold Write, Write_body. rewrite bind_self. cbn [fst]. rewrite Hb, Hfd.
      rewrite (bind_ok _ _ _ _ _ Hrun), bind_self. cbn [fst].
      rewrite (max_config l (resumed l (len (contents f))) eq_refl).
      cbn [resumed size]. rewrite Hb2, bind_ret, bind_self.
      cbn [fst fd].
      destruct w' as [fs fl tr ck tk]. cbn in Hfs, Hq'. subst fl fs.
      unfold mbind, M_bind, mret, M_ret, sys, set_size, modify,
        os.Write, os.reply, os.next_outcome.
      cbn. eexists. split; [reflexivity|]. cbn.
      unfold os.append_to. by rewrite Hf.
  - destruct w as [fs fl tr ck tk]. cbn in *. subst fl.
    unfold openFile, openNewFile, self, sys, try, orfail, mbind, M_bind,
      set_fd, set_size, modify, os.Stat, os.OpenFile, os.reply, os.next_outcome.
    cbn. rewrite Hf. cbn. rewrite Hf. cbn.
    eexists. split; [reflexivity|]. cbn. split; [done|].
    unfold new_events. cbn. by rewrite <- app_assoc, drop_app_length.
Qed.

End Specification.


(** * The theorems at work

    The statements above, applied to the sample data, with [stored] for the
    compressor.  A result of [Write] is split into the state it leaves and
    what it returns. *)

Lemma result_eta {A B C D} (r : (A * B) * (C * D)) :
  r = ((fst (fst r), snd (fst r)), (fst (snd r), snd (snd r))).
Proof. by destruct r as [[? ?] [? ?]]. Qed.

(** C9 at [MaxSize = 5]. *)
Lemma max_in_bytes_witness :
  GoInt.in_range (5 * megabyte) /\
  max (mkLogger "app.log" 5 0 None) = 5 * 1024 * 1024.
Proof.
  assert (GoInt.in_range (5 * megabyte)) as Hfits.
  { unfold GoInt.in_range, GoInt.min_int, GoInt.max_int, megabyte. lia. }
  split; [exact Hfits|].
  exact (max_in_bytes (mkLogger "app.log" 5 0 None) Hfits).
Defined.

(** C9 as stated fails where the product leaves the range of [int]: with
    [MaxSize = 2^43] the maximum is [-2^63]. *)
Lemma max_overflows :
  MaxSize (mkLogger "app.log" 8796093022208 0 None) <> 0 /\
  max (mkLogger "app.log" 8796093022208 0 None) = - 9223372036854775808 /\
  max (mkLogger "app.log" 8796093022208 0 None) <> 8796093022208 * 1024 * 1024.
Proof. vm_compute. repeat split; congruence. Qed.

(** C2 on a new logger with a limit of 1 MiB and a buffer of 1 MiB + 1. *)
Lemma Write_rejects_oversize_witness :
  len (repeat Byte.x00 (Z.to_nat 1048577)) > max sample_logger /\
  @Write stored (repeat Byte.x00 (Z.to_nat 1048577)) (sample_logger, empty_world)
  = ((sample_logger, empty_world),
     (0, Some (ErrTooLarge (len (repeat Byte.x00 (Z.to_nat 1048577)))
                 (max sample_logger)))).
Proof.
  assert (len (repeat Byte.x00 (Z.to_nat 1048577)) > max sample_logger) as Hbig.
  { unfold len. rewrite repeat_length, Z2Nat.id by lia. reflexivity. }
  split; [exact Hbig|].
  exact (@Write_rejects_oversize stored _ sample_logger empty_world Hbig).
Defined.

(** C10 on the first write. *)
Lemma Write_all_or_nothing_witness :
  snd first_write = (5, None) /\
  5 = len (bytes "12345") /\
  size (fst (fst first_write))
  = GoInt.add (size_before_append (bytes "12345") sample_logger empty_world)
      (len (bytes "12345")).
Proof.
  split; [reflexivity|].
  pose proof (@Write_all_or_nothing stored (bytes "12345") sample_logger
    empty_world (fst (fst first_write)) (snd (fst first_write)) 5 None
    (result_eta first_write)) as (H1 & H2 & _).
  split; [exact H1|exact H2].
Defined.

(** C8 on the short write. *)
Lemma Write_append_failure_witness :
  In (Ev (CWrite (mkHandle "/var/log/app.log" O_CREATE_WRONLY_TRUNC) 3)
        (Some (ErrSys "ENOSPC")))
     (new_events (sample_world [Fails "ENOSPC" 3]) (snd (fst short_write))) /\
  snd short_write = (0, Some (ErrSys "ENOSPC")) /\
  size (fst (fst short_write))
  = size_before_append (bytes "67890") (fresh sample_logger)
      (sample_world [Fails "ENOSPC" 3]).
Proof.
  assert (In (Ev (CWrite (mkHandle "/var/log/app.log" O_CREATE_WRONLY_TRUNC) 3)
                (Some (ErrSys "ENOSPC")))
             (new_events (sample_world [Fails "ENOSPC" 3]) (snd (fst short_write))))
    as Hin by (by vm_compute; left).
  split; [exact Hin|].
  pose proof (@Write_append_failure stored (bytes "67890")
    (fresh sample_logger) (sample_world [Fails "ENOSPC" 3])
    (fst (fst short_write)) (snd (fst short_write))
    (fst (snd short_write)) (snd (snd short_write))
    (result_eta short_write)) as [_ Happ].
  destruct (Happ _ _ _ Hin) as (He & Hn & _ & _ & _ & Hsize).
  split; [|exact Hsize].
  rewrite (surjective_pairing (snd short_write)), He, Hn. reflexivity.
Defined.

(** C3 on the rotating write. *)
Lemma rotation_iff_exceeds_witness :
  len (bytes "67890") <= max nearly_full /\
  snd rotating_write = (5, None) /\
  rotation_started (mkHandle "/var/log/app.log" O_WRONLY_APPEND)
    (new_events (sample_world []) (snd (fst rotating_write))) /\
  size (fst (fst rotating_write)) = len (bytes "67890").
Proof.
  assert (len (bytes "67890") <= max nearly_full) as Hfit by (by vm_compute).
  split; [exact Hfit|]. split; [reflexivity|].
  pose proof (@rotation_iff_exceeds stored (bytes "67890") nearly_full
    (sample_world []) (mkHandle "/var/log/app.log" O_WRONLY_APPEND)
    (fst (fst rotating_write)) (snd (fst rotating_write))
    (fst (snd rotating_write)) (snd (snd rotating_write))
    eq_refl Hfit (result_eta rotating_write)) as (Hiff & _ & _ & Hdone).
  assert (GoInt.add (size nearly_full) (len (bytes "67890")) > max nearly_full)
    as Hover by (by vm_compute).
  split; [exact (proj2 Hiff Hover)|].
  exact (proj1 (Hdone Hover eq_refl)).
Defined.

(** C4 on the failing seal. *)
Lemma seal_failure_keeps_original_witness :
  first_failure
    (new_events (sample_world [Succeeds; Succeeds; Succeeds; Fails "EIO" 2])
       (snd (fst failing_seal)))
  = Some (CCopy (mkHandle sample_archive O_CREATE_WRONLY_TRUNC)
            (mkHandle "/var/log/app.log" O_RDONLY),
          ErrSys "EIO") /\
  snd failing_seal = Err (ErrSys "EIO") /\
  files (snd (fst failing_seal)) !! "/var/log/app.log"
  = Some (mkFile (bytes "12345") 420).
Proof.
  assert (first_failure
            (new_events (sample_world [Succeeds; Succeeds; Succeeds; Fails "EIO" 2])
               (snd (fst failing_seal)))
          = Some (CCopy (mkHandle sample_archive O_CREATE_WRONLY_TRUNC)
                    (mkHandle "/var/log/app.log" O_RDONLY),
                  ErrSys "EIO")) as Hfirst by (by vm_compute).
  split; [exact Hfirst|].
  assert (@composeFile stored
            (sample_logger,
             sample_world [Succeeds; Succeeds; Succeeds; Fails "EIO" 2])
          = ((fst (fst failing_seal), snd (fst failing_seal)),
             snd failing_seal)) as Hrun
    by (by vm_compute).
  pose proof (@seal_failure_keeps_original stored sample_logger
    (sample_world [Succeeds; Succeeds; Succeeds; Fails "EIO" 2])
    (fst (fst failing_seal)) (snd (fst failing_seal)) (snd failing_seal)
    Hrun) as [Hfail _].
  destruct (Hfail _ _ Hfirst) as (Hr & _ & Hkeep); [done|].
  split; [exact Hr|exact Hkeep].
Defined.

(** C5, as amended, on the good seal. *)
Lemma seal_order_witness :
  snd good_seal = Ok tt /\
  precedes (CGzClose (mkHandle sample_archive O_CREATE_WRONLY_TRUNC))
    (CRemove "/var/log/app.log")
    (new_events (sample_world []) (snd (fst good_seal))) /\
  precedes (CRemove "/var/log/app.log")
    (CClose (mkHandle sample_archive O_CREATE_WRONLY_TRUNC))
    (new_events (sample_world []) (snd (fst good_seal))).
Proof.
  split; [by vm_compute|].
  assert (@composeFile stored (sample_logger, sample_world [])
          = ((fst (fst good_seal), snd (fst good_seal)), Ok tt)) as Hrun
    by (by vm_compute).
  pose proof (@seal_order stored sample_logger (sample_world [])
    (fst (fst good_seal)) (snd (fst good_seal)) Hrun)
    as (_ & _ & Hflush & Hclose).
  split; [exact Hflush|exact Hclose].
Defined.

(** C5 as stated fails on the good seal: the archive is closed after the
    file is removed, not before. *)
Lemma seal_closes_archive_after_removal :
  snd good_seal = Ok tt /\
  ~ precedes (CClose (mkHandle sample_archive O_CREATE_WRONLY_TRUNC))
      (CRemove "/var/log/app.log")
      (new_events (sample_world []) (snd (fst good_seal))).
Proof.
  split; [by vm_compute|]. intros (i & j & Hi & Hj & Hlt).
  vm_compute in Hi, Hj. injection Hi as <-. injection Hj as <-. lia.
Qed.

(** C6 on a new logger that finds a log of five bytes. *)
Lemma openFile_resolves_witness :
  faults (sample_world []) = [] /\
  exists w',
    @openFile stored 5 (sample_logger, sample_world [])
    = ((resumed sample_logger 5, w'), Ok tt) /\
    files w' = files (sample_world []).
Proof.
  split; [reflexivity|].
  pose proof (@openFile_resolves stored 5 sample_logger (sample_world []) eq_refl)
    as Hcase.
  assert (files (sample_world []) !! Filename sample_logger
          = Some (mkFile (bytes "12345") 420)) as Hf by reflexivity.
  rewrite Hf in Hcase.
  assert ((GoInt.add (len (contents (mkFile (bytes "12345") 420))) 5
           >=? max sample_logger) = false) as Hroom by reflexivity.
  rewrite Hroom in Hcase. destruct Hcase as [(w' & Hrun & Hfs & _) _].
  exists w'. split; [exact Hrun|exact Hfs].
Defined.

(** C7, as amended, on two readings in different seconds. *)
Lemma archive_names_witness :
  filepath.Base "/var/log/app.log" <> "/" /\
  gotime.valid at_9ns /\ gotime.valid (gotime.mkTime 2024 3 9 7 5 1 0) /\
  backupFileNameAt "/var/log/app.log" at_9ns
  = archive_dir "/var/log/app.log" +:+ gotime.Format at_9ns +:+ "-"
      +:+ gotime.decimal (gotime.nanosecond at_9ns) +:+ "-"
      +:+ filepath.Base "/var/log/app.log" +:+ ".gz" /\
  String.ltb (backupFileNameAt "/var/log/app.log" at_9ns)
    (backupFileNameAt "/var/log/app.log" (gotime.mkTime 2024 3 9 7 5 1 0))
  = true.
Proof.
  assert (filepath.Base "/var/log/app.log" <> "/") as Hroot by done.
  assert (gotime.valid at_9ns) as Ht1 by (vm_compute; intuition discriminate).
  assert (gotime.valid (gotime.mkTime 2024 3 9 7 5 1 0)) as Ht2
    by (vm_compute; intuition discriminate).
  splits; [exact Hroot|exact Ht1|exact Ht2|..];
    destruct (archive_names "/var/log/app.log" at_9ns
                (gotime.mkTime 2024 3 9 7 5 1 0) Hroot Ht1 Ht2)
      as ((Hform & _) & _ & Hord & _).
  - exact Hform.
  - exact (Hord eq_refl).
Defined.

(** C7 as stated fails within a second: ten nanoseconds into it comes after
    nine, and its name sorts before. *)
Lemma archive_names_out_of_order :
  gotime.valid at_9ns /\ gotime.valid at_10ns /\
  gotime.before at_9ns at_10ns /\
  backupFileNameAt "/var/log/app.log" at_9ns
  = "/var/log/2024-03-09-07-05-00-9-app.log.gz" /\
  backupFileNameAt "/var/log/app.log" at_10ns
  = "/var/log/2024-03-09-07-05-00-10-app.log.gz" /\
  String.ltb (backupFileNameAt "/var/log/app.log" at_10ns)
    (backupFileNameAt "/var/log/app.log" at_9ns) = true.
Proof.
  splits; try (by vm_compute); vm_compute; intuition discriminate.
Qed.

(** * More about the methods: every path, handles, files *)

Ltac nat_cases :=
  repeat match goal with
         | |- context [(?a <=? ?b)%nat] => destruct (Nat.leb_spec a b); try lia
         | |- context [(?a <? ?b)%nat] => destruct (Nat.ltb_spec a b); try lia
         | |- context [(?a =? ?b)%nat] => destruct (Nat.eqb_spec a b); try lia
         end.

Module os_ticks.
Import os.
Lemma OpenFile_ticks name fl mode w w' r :
  OpenFile name fl mode w = (w', r) -> ticks w' = ticks w.
Proof.
  unfold OpenFile, reply.
  by repeat case_match; intros [= <- <-].
Qed.

Lemma Write_ticks f p w w' r : Write f p w = (w', r) -> ticks w' = ticks w.
Proof. unfold Write, reply. by repeat case_match; intros [= <- <-]. Qed.

Lemma Remove_ticks name w w' r : Remove name w = (w', r) -> ticks w' = ticks w.
Proof. unfold Remove, reply. by repeat case_match; intros [= <- <-]. Qed.

Section WithGzip.
Context `{Gzip}.
Lemma io_Copy_ticks gz src w w' r : io_Copy gz src w = (w', r) -> ticks w' = ticks w.
Proof. unfold io_Copy, reply. by repeat case_match; intros [= <- <-]. Qed.

Lemma io_Copy_prefix gz src w w' r :
  io_Copy gz src w = (w', r) ->
  exists n, files w'
            = append_to (f_name (gz_dst gz))
                (take n (gz_body (read_all (f_name src) w))) (files w).
Proof.
  unfold io_Copy, reply. destruct (next_outcome w) as [|msg k]; intros [= <- <-].
  - exists (length (gz_body (read_all (f_name src) w))). by rewrite firstn_all.
  - by exists k.
Qed.

Lemma gzip_Close_prefix gz w w' r :
  gzip_Close gz w = (w', r) ->
  exists n, files w'
            = append_to (f_name (gz_dst gz))
                (take n (gz_trailer (gz_seen gz))) (files w).
Proof.
  unfold gzip_Close, reply. destruct (next_outcome w) as [|msg k]; intros [= <- <-].
  - exists (length (gz_trailer (gz_seen gz))). by rewrite firstn_all.
  - by exists k.
Qed.

Lemma gzip_Close_ticks gz w w' r : gzip_Close gz w = (w', r) -> ticks w' = ticks w.
Proof. unfold gzip_Close, reply. by repeat case_match; intros [= <- <-]. Qed.
End WithGzip.
End os_ticks.

(** * A system that does not fail *)
Lemma emits_quiet w w' evs : emits w w' evs -> faults w = [] -> faults w' = [].
Proof. intros (_ & _ & -> & _) ->. by rewrite drop_nil. Qed.

Module os_quiet.
Import os.

Lemma quiet_next w : faults w = [] -> next_outcome w = Succeeds.
Proof. unfold next_outcome. by intros ->. Qed.

Lemma Stat_quiet name w f :
  faults w = [] -> files w !! name = Some f ->
  exists w1, Stat name w = (w1, Ok (mkInfo (len (contents f)) (perm f))) /\
    faults w1 = [] /\ files w1 = files w.
Proof.
  intros Hq Hf. unfold Stat, reply. rewrite (quiet_next _ Hq), Hf.
  eexists. split; [done|]. cbn. by rewrite Hq.
Qed.

Lemma Stat_quiet_missing name w :
  faults w = [] -> files w !! name = None ->
  exists w1, Stat name w = (w1, Err ErrNotExist) /\
    faults w1 = [] /\ files w1 = files w.
Proof.
  intros Hq Hf. unfold Stat, reply. rewrite (quiet_next _ Hq), Hf.
  eexists. split; [done|]. cbn. by rewrite Hq.
Qed.

Lemma Open_quiet name w f :
  faults w = [] -> files w !! name = Some f ->
  exists w1, Open name w = (w1, Ok (mkHandle name O_RDONLY)) /\
    faults w1 = [] /\ files w1 = files w.
Proof.
  intros Hq Hf. unfold Open, reply. rewrite (quiet_next _ Hq), Hf.
  eexists. split; [done|]. cbn. by rewrite Hq.
Qed.

Lemma OpenFile_quiet_create name mode w :
  faults w = [] ->
  exists w1, OpenFile name O_CREATE_WRONLY_TRUNC mode w
             = (w1, Ok (mkHandle name O_CREATE_WRONLY_TRUNC)) /\
    faults w1 = [] /\
    files w1 = <[name := mkFile [] (from_option perm mode (files w !! name))]>
                 (files w).
Proof.
  intros Hq. unfold OpenFile, reply. rewrite (quiet_next _ Hq).
  destruct (files w !! name); cbn; eexists; (split; [done|]); cbn; by rewrite Hq.
Qed.

Lemma OpenFile_quiet_append name mode w f :
  faults w = [] -> files w !! name = Some f ->
  exists w1, OpenFile name O_WRONLY_APPEND mode w
             = (w1, Ok (mkHandle name O_WRONLY_APPEND)) /\
    faults w1 = [] /\ files w1 = files w.
Proof.
  intros Hq Hf. unfold OpenFile, reply. rewrite (quiet_next _ Hq), Hf.
  cbn. eexists. split; [done|]. cbn. by rewrite Hq.
Qed.

Lemma Write_quiet h p w :
  faults w = [] ->
  exists w1, Write h p w = (w1, Ok (len p)) /\ faults w1 = [] /\
    files w1 = append_to (f_name h) p (files w) /\ ticks w1 = ticks w /\
    clock w1 = clock w.
Proof.
  intros Hq. unfold Write, reply. rewrite (quiet_next _ Hq).
  eexists. split; [done|]. cbn. by rewrite Hq.
Qed.

Lemma Close_quiet h w :
  faults w = [] ->
  exists w1, Close h w = (w1, Ok tt) /\ faults w1 = [] /\ files w1 = files w.
Proof.
  intros Hq. unfold Close, reply. rewrite (quiet_next _ Hq).
  eexists. split; [done|]. cbn. by rewrite Hq.
Qed.

Lemma Remove_quiet name w f :
  faults w = [] -> files w !! name = Some f ->
  exists w1, Remove name w = (w1, Ok tt) /\ faults w1 = [] /\
    files w1 = delete name (files w).
Proof.
  intros Hq Hf. unfold Remove, reply. rewrite (quiet_next _ Hq), Hf.
  eexists. split; [done|]. cbn. by rewrite Hq.
Qed.

Section WithGzip.
Context `{Gzip}.

Lemma io_Copy_quiet gz src w :
  faults w = [] ->
  exists w1 gz', io_Copy gz src w = (w1, Ok gz') /\ faults w1 = [] /\
    gz_dst gz' = gz_dst gz /\
    files w1 = append_to (f_name (gz_dst gz)) (gz_body (read_all (f_name src) w))
                 (files w).
Proof.
  intros Hq. unfold io_Copy, reply. rewrite (quiet_next _ Hq).
  eexists _, _. split; [done|]. cbn. by rewrite Hq.
Qed.

Lemma gzip_Close_quiet gz w :
  faults w = [] ->
  exists w1, gzip_Close gz w = (w1, Ok tt) /\ faults w1 = [] /\
    files w1 = append_to (f_name (gz_dst gz)) (gz_trailer (gz_seen gz)) (files w).
Proof.
  intros Hq. unfold gzip_Close, reply. rewrite (quiet_next _ Hq).
  eexists. split; [done|]. cbn. by rewrite Hq.
Qed.
End WithGzip.
End os_quiet.

Lemma bind_sys_ok {A B} (m : M World A) (k : A -> M State B) l w w1 a :
  m w = (w1, Ok a) -> (sys m ≫= k) (l, w) = k a (l, w1).
Proof. intros Hm. by rewrite (bind_ok _ _ _ _ _ (sys_run _ _ _ _ _ Hm)). Qed.

Lemma bind_orfail_sys_ok {A B} (m : M World A) e0 (k : A -> M State B) l w w1 a :
  m w = (w1, Ok a) -> (orfail (sys m) e0 ≫= k) (l, w) = k a (l, w1).
Proof.
  intros Hm. apply bind_ok. unfold orfail. by rewrite (sys_run _ _ _ _ _ Hm).
Qed.

Lemma defer_snd {S A B} (d : M S B) (body : M S A) s :
  snd (defer d body s) = snd (body s).
Proof. unfold defer. by destruct (body s). Qed.

(** * Open handles *)
Lemma open_after_app hs e1 e2 :
  open_after hs (e1 ++ e2) = open_after (open_after hs e1) e2.
Proof. apply fold_left_app. Qed.

Lemma remove_first_head f hs : remove_first f (f :: hs) = hs.
Proof. cbn. by rewrite decide_True. Qed.

Lemma open_after_seal hs l w k e r1 r2 :
  (k <= 6)%nat -> open_after hs (seal_events l w k e r1 r2) = hs.
Proof.
  intros Hk. do 7 (destruct k as [|k]; [cbn -[remove_first]; by rewrite ?remove_first_head|]). lia.
Qed.

(** * The files a seal leaves *)
Lemma seal_files_frame l w f k data name' :
  name' <> Filename l ->
  name' <> backupFileNameAt (Filename l) (clock w (ticks w)) ->
  seal_files l w f k data !! name' = files w !! name'.
Proof.
  intros Hn Hd. unfold seal_files. nat_cases;
    by rewrite ?lookup_delete_ne, ?lookup_insert_ne by done.
Qed.

Lemma seal_files_name l w f k data :
  seal_files l w f k data !! Filename l
  = if (k =? 6)%nat then None else files w !! Filename l.
Proof.
  pose proof (backupFileNameAt_fresh (Filename l) (clock w (ticks w))).
  unfold seal_files. nat_cases;
    by rewrite ?lookup_delete_eq, ?lookup_insert_ne by done.
Qed.

Lemma seal_files_dst l w f k data :
  (3 <= k)%nat ->
  seal_files l w f k data !! backupFileNameAt (Filename l) (clock w (ticks w))
  = Some (mkFile data
            (from_option perm (perm f)
               (files w !! backupFileNameAt (Filename l) (clock w (ticks w))))).
Proof.
  pose proof (backupFileNameAt_fresh (Filename l) (clock w (ticks w))).
  intros Hk. unfold seal_files. nat_cases;
    by rewrite ?lookup_delete_ne, ?lookup_insert_eq by done.
Qed.

Lemma seal_events_ext l l1 w w1 k e r1 r2 :
  Filename l1 = Filename l -> clock w1 = clock w -> ticks w1 = ticks w ->
  seal_events l1 w1 k e r1 r2 = seal_events l w k e r1 r2.
Proof.
  unfold seal_events, seal_calls, deferred_closes. by intros -> -> ->.
Qed.

Lemma seal_files_ext l l1 w w1 f k data :
  Filename l1 = Filename l -> clock w1 = clock w -> ticks w1 = ticks w ->
  files w1 = files w ->
  seal_files l1 w1 f k data = seal_files l w f k data.
Proof. unfold seal_files. by intros -> -> -> ->. Qed.

Lemma seal_result_ok l w k e :
  (k <= 6)%nat -> seal_result l w k e = Ok tt -> k = 6%nat.
Proof.
  intros Hk. unfold seal_result.
  do 6 (destruct k as [|k]; [done|]). intros _. lia.
Qed.

Lemma seal_result_err l w k e e' :
  (k <= 6)%nat -> seal_result l w k e = Err e' -> (k < 6)%nat.
Proof.
  intros Hk. unfold seal_result.
  do 6 (destruct k as [|k]; [intros _; lia|]). assert (k = 0%nat) as -> by lia. done.
Qed.

Ltac stage :=
  unfold seal_files; repeat match goal with x := _ |- _ => subst x end;
  cbn [Nat.leb Nat.ltb Nat.eqb]; try congruence.

Section Paths.
Context `{Gzip}.
Import os_facts gz_facts os_ticks.

Lemma composeFile_paths l w s' r :
  composeFile (l, w) = (s', r) ->
  exists w' k e r1 r2 f data,
    s' = (l, w') /\ (k <= 6)%nat /\
    emits w w' (seal_events l w k e r1 r2) /\
    r = seal_result l w k e /\
    ((1 <= k)%nat -> files w !! Filename l = Some f) /\
    seal_data k (contents f) data /\
    files w' = seal_files l w f k data /\
    ticks w' = (if (2 <=? k)%nat then S (ticks w) else ticks w).
Proof.
  intros Hrun. unfold composeFile in Hrun. inv_self Hrun.
  set (name := Filename l) in *.
  set (dst := backupFileNameAt name (clock w (ticks w))).
  assert (dst <> name) as Hfresh by apply backupFileNameAt_fresh.
  apply bind_orfail_sys_inv in Hrun
    as [(w1 & file & Hopen & Hrun)|(w1 & e & Hopen & -> & ->)];
    apply Open_inv in Hopen as (Ev1 & Hf1 & Ht1 & Hfile).
  2:{ exists w1, 0%nat, e, None, None, (mkFile [] 0), [].
      splits; try done; try lia. }
  destruct (Hfile _ eq_refl) as [-> [f Hf]]. clear Hfile.
  apply defer_sys_inv in Hrun as (l2 & w2 & w9 & r9 & Hrun & Hclose9 & ->).
  pose proof (Close_ticks _ _ _ _ Hclose9) as Ht9.
  apply Close_inv in Hclose9 as (Ev9 & Hf9).
  apply bind_orfail_sys_inv in Hrun
    as [(w2' & fi & Hstat & Hrun)|(w2' & e & Hstat & [= -> ->] & ->)];
    apply Stat_inv in Hstat as (Ev2 & Hf2 & Ht2 & Hfi).
  2:{ exists w9, 1%nat, e, None, (os.err_of r9), f, [].
      eassert (emits w w9 _) as Hev by chain.
      splits; try done; try lia; stage. }
  destruct Hfi as (f' & Hf' & ->). rewrite Hf1, Hf in Hf'. injection Hf' as <-.
  rewrite bind_ok with (1 := getBackupFileName_run l w2') in Hrun.
  set (w3 := {| files := files w2' |}) in Hrun.
  assert (emits w2' w3 []) as Ev3.
  { unfold emits. simpl. rewrite app_nil_r. auto. }
  assert (clock w2' (ticks w2') = clock w (ticks w)) as Hnow.
  { destruct Ev1 as (_ & Ck1 & _), Ev2 as (_ & Ck2 & _). congruence. }
  fold name in Hrun. rewrite Hnow in Hrun. fold dst in Hrun. cbn [fi_mode] in Hrun.
  assert (files w3 = files w) as Hf3 by (simpl; congruence).
  assert (ticks w3 = S (ticks w)) as Ht3 by (simpl; congruence).
  apply bind_orfail_sys_inv in Hrun
    as [(w4 & gzf & Hcreate & Hrun)|(w4 & e & Hcreate & [= -> ->] & ->)];
    pose proof (OpenFile_ticks _ _ _ _ _ _ Hcreate) as Ht4;
    apply OpenFile_inv in Hcreate as (Ev4 & Hf4).
  2:{ exists w9, 2%nat, e, None, (os.err_of r9), f, [].
      eassert (emits w w9 _) as Hev by chain.
      splits; try done; try lia; stage. }
  destruct Hf4 as [-> Hf4]. cbn [os.creates] in Hf4. rewrite Hf3 in Hf4.
  apply defer_sys_inv in Hrun as (l8 & w7 & w8 & r8 & Hrun & Hclose8 & [= -> ->]).
  pose proof (Close_ticks _ _ _ _ Hclose8) as Ht8.
  apply Close_inv in Hclose8 as (Ev8 & Hf8).
  assert (os.read_all name w4 = contents f) as Hread.
  { unfold os.read_all. by rewrite Hf4, lookup_insert_ne, Hf by done. }
  apply bind_sys_inv in Hrun
    as [(w5 & gz & Hcopy & Hrun)|(w5 & e & Hcopy & [= -> ->] & ->)];
    pose proof (io_Copy_ticks _ _ _ _ _ Hcopy) as Ht5;
    pose proof Hcopy as Hcopy';
    apply io_Copy_inv in Hcopy as (bs5 & Ev5 & Hf5 & Hgz); cbn [gz_dst f_name] in *.
  2:{ apply io_Copy_prefix in Hcopy' as (n & Hf5'). cbn [gz_dst f_name gzip_NewWriter] in *.
      rewrite Hread, Hf4, append_to_insert in Hf5'. cbn [contents perm app] in Hf5'.
      exists w9, 3%nat, e, (os.err_of r8), (os.err_of r9), f, (take n (gz_body (contents f))).
      eassert (emits w w9 _) as Hev by chain.
      splits; try done; try lia; [by exists n| |]; stage. }
  destruct (Hgz _ eq_refl) as [-> ->]. clear Hgz Hcopy'. rewrite Hread in *.
  cbn [gz_dst f_name gzip_NewWriter gz_seen app] in *.
  rewrite Hf4, append_to_insert in Hf5. cbn [contents perm app] in Hf5.
  apply bind_sys_inv in Hrun
    as [(w6 & [] & Hflush & Hrun)|(w6 & e & Hflush & [= -> ->] & ->)];
    pose proof (gzip_Close_ticks _ _ _ _ Hflush) as Ht6;
    pose proof Hflush as Hflush';
    apply gzip_Close_inv in Hflush as (bs6 & Ev6 & Hf6 & Hbs6); cbn [gz_dst f_name gz_seen] in *.
  2:{ apply gzip_Close_prefix in Hflush' as (n & Hf6'). cbn [gz_dst f_name gz_seen] in *.
      rewrite Hf5, append_to_insert in Hf6'. cbn [contents perm] in Hf6'.
      exists w9, 4%nat, e, (os.err_of r8), (os.err_of r9), f,
        (gz_body (contents f) ++ take n (gz_trailer (contents f))).
      eassert (emits w w9 _) as Hev by chain.
      splits; try done; try lia; [by exists n| |]; stage. }
  rewrite (Hbs6 eq_refl) in Hf6. clear Hbs6 Hflush'.
  rewrite Hf5, append_to_insert in Hf6. cbn [contents perm] in Hf6.
  apply sys_inv in Hrun as (w7' & Hremove & [= -> ->]).
  pose proof (Remove_ticks _ _ _ _ Hremove) as Ht7.
  apply Remove_inv in Hremove as (Ev7 & Hf7).
  eassert (emits w w9 _) as Hev by chain.
  destruct r as [[]|e].
  - exists w9, 6%nat, ErrInvalid, (os.err_of r8), (os.err_of r9), f,
      (gz_body (contents f) ++ gz_trailer (contents f)).
    destruct Hf7 as [Hf7 _].
    splits; try done; try lia; stage.
  - exists w9, 5%nat, e, (os.err_of r8), (os.err_of r9), f,
      (gz_body (contents f) ++ gz_trailer (contents f)).
    splits; try done; try lia; stage.
Qed.


Lemma composeFile_quiet l w f :
  faults w = [] -> files w !! Filename l = Some f ->
  snd (composeFile (l, w)) = Ok tt.
Proof.
  intros Hq Hf.
  set (name := Filename l) in *.
  unfold composeFile. rewrite bind_self. cbn [fst]. fold name.
  destruct (os_quiet.Open_quiet name w f Hq Hf) as (w1 & H1 & Hq1 & Hf1).
  rewrite (bind_orfail_sys_ok _ _ _ _ _ _ _ H1), defer_snd.
  rewrite <- Hf1 in Hf.
  destruct (os_quiet.Stat_quiet name w1 f Hq1 Hf) as (w2 & H2 & Hq2 & Hf2).
  rewrite (bind_orfail_sys_ok _ _ _ _ _ _ _ H2).
  rewrite bind_ok with (1 := getBackupFileName_run l w2).
  set (w3 := {| files := files w2 |}).
  set (dst := backupFileNameAt (Filename l) (clock w2 (ticks w2))).
  assert (dst <> name) as Hfresh by apply backupFileNameAt_fresh.
  assert (faults w3 = []) as Hq3 by done.
  destruct (os_quiet.OpenFile_quiet_create dst (fi_mode (mkInfo (len (contents f)) (perm f))) w3 Hq3)
    as (w4 & H4 & Hq4 & Hf4).
  rewrite (bind_orfail_sys_ok _ _ _ _ _ _ _ H4), defer_snd.
  destruct (os_quiet.io_Copy_quiet (gzip_NewWriter (mkHandle dst O_CREATE_WRONLY_TRUNC))
              (mkHandle name O_RDONLY) w4 Hq4) as (w5 & gz & H5 & Hq5 & Hgz & Hf5).
  rewrite (bind_sys_ok _ _ _ _ _ _ H5).
  destruct (os_quiet.gzip_Close_quiet gz w5 Hq5) as (w6 & H6 & Hq6 & Hf6).
  rewrite (bind_sys_ok _ _ _ _ _ _ H6).
  assert (files w6 !! name = Some f) as Hf'.
  { rewrite Hf6, Hgz, append_to_other, Hf5, append_to_other, Hf4, lookup_insert_ne by done.
    cbn. by rewrite <- Hf2 in Hf. }
  destruct (os_quiet.Remove_quiet name w6 f Hq6 Hf') as (w7 & H7 & _).
  by rewrite (sys_run _ _ _ _ _ H7).
Qed.

Lemma openNewFile_ticks l w l' w' r :
  openNewFile (l, w) = ((l', w'), r) -> ticks w' = ticks w.
Proof.
  intros Hrun. unfold openNewFile in Hrun. inv_self Hrun.
  apply bind_orfail_sys_inv in Hrun
    as [(w1 & h & Hopen & Hrun)|(w1 & e & Hopen & [= -> ->] & ->)];
    apply OpenFile_ticks in Hopen; [|done].
  unfold mbind, M_bind, set_fd, set_size, modify in Hrun. cbn in Hrun.
  by injection Hrun as <- <-.
Qed.

Lemma with_fd_same l : fd l = None -> with_fd l None = l.
Proof. destruct l. cbn. by intros ->. Qed.

Lemma makeNewFile_effects l w l' w' r :
  makeNewFile (l, w) = ((l', w'), r) ->
  let name := Filename l in
  let dst := backupFileNameAt name (clock w (ticks w)) in
  (forall hs, open_after (handles_of l ++ hs) (new_events w w')
              = handles_of l' ++ hs) /\
  (forall name', name' <> name -> name' <> dst ->
     files w' !! name' = files w !! name') /\
  (ticks w' <= S (ticks w))%nat /\
  match r with
  | Ok _ => ticks w' = S (ticks w)
  | Err e =>
      l' = with_fd l None /\
      (files w' !! name = files w !! name \/
       exists f, files w !! name = Some f /\ files w' !! name = None /\
                 files w' !! dst = Some (archive_of f w dst) /\
                 e = ErrOpenFile name)
  end.
Proof.
  intros Hrun. cbn zeta. unfold makeNewFile in Hrun.
  assert (forall rc hs,
            open_after (handles_of l ++ hs)
              (match fd l with Some f => [Ev (CClose f) rc] | None => [] end)
            = hs) as Hclosed.
  { intros rc hs. unfold handles_of. destruct (fd l); [|done].
    cbn. by rewrite decide_True. }
  apply bind_inv in Hrun as [(s1 & [] & Hclose & Hrun)|(e & Hclose & ->)];
    apply close_inv in Hclose as (w1 & Hs & Hf1 & Ht1 & Hc1 & Ev1).
  2:{ injection Hs as -> ->. rewrite (emits_new_events _ _ _ Ev1).
      splits; [by intros; rewrite Hclosed|by intros; rewrite Hf1|lia|done|].
      left. by rewrite Hf1. }
  subst s1.
  apply bind_inv in Hrun as [(s2 & [] & Hseal & Hrun)|(e & Hseal & ->)];
    apply composeFile_paths in Hseal
      as (w2 & k & e0 & r1 & r2 & f & data & Hs & Hk & Ev2 & Hr & Hf & Hdata & Hf2 & Ht2);
    rewrite (seal_events_ext l _ w w1) in Ev2 by done;
    rewrite (seal_files_ext l _ w w1) in Hf2 by done;
    cbn [with_fd Filename] in *; rewrite Ht1, ?Hf1 in *.
  2:{ injection Hs as -> ->. symmetry in Hr. apply seal_result_err in Hr; [|done].
      rewrite (emits_new_events _ _ _ (emits_trans _ _ _ _ _ Ev1 Ev2)).
      splits.
      - intros hs. by rewrite open_after_app, Hclosed, open_after_seal.
      - intros name' Hn Hd. by rewrite Hf2, seal_files_frame.
      - rewrite Ht2. nat_cases.
      - done.
      - left. rewrite Hf2, seal_files_name. by nat_cases. }
  subst s2. symmetry in Hr. apply seal_result_ok in Hr as ->; [|done].
  cbn [Nat.leb] in Ht2. specialize (Hf ltac:(lia)). cbn in Hdata.
  pose proof (os_facts.emits_trans _ _ _ _ _ Ev1 Ev2) as Ev12.
  pose proof Hrun as Hrun'.
  apply openNewFile_inv in Hrun as (w3 & eo & Ev3 & Hrun).
  cbn [with_fd Filename] in *.
  pose proof (os_facts.emits_trans _ _ _ _ _ Ev12 Ev3) as Ev123.
  assert (ticks w3 = ticks w2) as Ht3.
  { destruct r; [destruct Hrun as (_ & Hs & _)|destruct Hrun as (_ & Hs & _)];
      rewrite Hs in Hrun'; by apply openNewFile_ticks in Hrun'. }
  destruct r as [[]|e].
  - destruct Hrun as (-> & [= -> ->] & Hf3).
    rewrite (emits_new_events _ _ _ Ev123). splits.
    + intros hs. rewrite !open_after_app, Hclosed, open_after_seal by done. done.
    + intros name' Hn Hd.
      by rewrite Hf3, lookup_insert_ne, Hf2, seal_files_frame by done.
    + lia.
    + lia.
  - destruct Hrun as ([eo' ->] & [= -> ->] & Hf3 & ->).
    rewrite (emits_new_events _ _ _ Ev123). splits.
    + intros hs. rewrite !open_after_app, Hclosed, open_after_seal by done. done.
    + intros name' Hn Hd. by rewrite Hf3, Hf2, seal_files_frame by done.
    + lia.
    + done.
    + right. exists f. rewrite Hf3, Hf2, seal_files_name, seal_files_dst by lia.
      unfold archive_of. by rewrite Hdata.
Qed.

Lemma new_events_trans w w1 w2 e1 e2 :
  emits w w1 e1 -> emits w1 w2 e2 -> new_events w w2 = e1 ++ e2.
Proof. intros H1 H2. apply emits_new_events. by eapply emits_trans. Qed.

Lemma openFile_effects curlen l w l' w' r :
  fd l = None ->
  openFile curlen (l, w) = ((l', w'), r) ->
  (forall hs, open_after hs (new_events w w') = handles_of l' ++ hs) /\
  (forall name', name' <> Filename l ->
     name' <> backupFileNameAt (Filename l) (clock w (ticks w)) ->
     files w' !! name' = files w !! name') /\
  (ticks w' <= S (ticks w))%nat /\
  (forall e, r = Err e ->
     l' = l /\
     (files w' !! Filename l = files w !! Filename l \/
      exists f, files w !! Filename l = Some f /\
        files w' !! Filename l = None /\
        files w' !! backupFileNameAt (Filename l) (clock w (ticks w))
        = Some (archive_of f w (backupFileNameAt (Filename l) (clock w (ticks w)))))) /\
  match files w !! Filename l with
  | Some f =>
      if GoInt.add (len (contents f)) curlen >=? max l
      then r = Ok tt -> ticks w' = S (ticks w)
      else ticks w' = ticks w
  | None => r = Ok tt -> ticks w' = ticks w
  end.
Proof.
  intros Hfd Hrun. unfold openFile in Hrun. inv_self Hrun.
  assert (handles_of l = []) as Hnone by (unfold handles_of; by rewrite Hfd).
  apply bind_inv in Hrun as [(s1 & r1 & Hstat & Hrun)|(e & Hstat & ->)];
    apply try_inv in Hstat as (r0 & Hstat & E); [|done]. injection E as ->.
  apply sys_inv in Hstat as (w1 & Hstat & ->).
  pose proof Hstat as (Ev1 & Hf1 & Ht1 & Hfi)%Stat_inv.
  assert (clock w1 = clock w) as Hc1 by by destruct Ev1 as (_ & ? & _).
  destruct r0 as [fi|e].
  - destruct Hfi as (f & Hf & ->). cbn [fi_size] in Hrun. rewrite Hf.
    destruct (GoInt.add (len (contents f)) curlen >=? max l) eqn:Hfull.
    + pose proof (makeNewFile_inv _ _ _ _ Hrun) as (l2 & w2 & evs & [= <- <-] & Ev2 & _).
      apply makeNewFile_effects in Hrun as (Hh & Hfr & Ht & Hr).
      rewrite (emits_new_events _ _ _ Ev2) in Hh.
      rewrite (new_events_trans _ _ _ _ _ Ev1 Ev2).
      unfold archive_of in *. rewrite Ht1, Hc1, Hf1 in *. splits.
      * intros hs. specialize (Hh hs). rewrite Hnone in Hh.
        by rewrite open_after_app.
      * done.
      * done.
      * intros e ->. destruct Hr as [-> Hr]. split; [by apply with_fd_same|].
        destruct Hr as [Hr|(f' & Hf' & ? & ? & _)];
          [left; by rewrite Hr|right; exists f'; by rewrite <- Hf'].
      * by intros ->.
    + apply bind_orfail_sys_inv in Hrun
        as [(w2 & h & Hopen & Hrun)|(w2 & e & Hopen & [= -> ->] & ->)];
        pose proof (OpenFile_ticks _ _ _ _ _ _ Hopen) as Ht2;
        apply OpenFile_inv in Hopen as (Ev2 & Hf2);
        cbn [os.err_of] in *.
      * destruct Hf2 as (-> & Hf2 & _).
        unfold mbind, M_bind, set_fd, set_size, modify in Hrun. cbn in Hrun.
        injection Hrun as <- <- <-.
        rewrite (new_events_trans _ _ _ _ _ Ev1 Ev2).
        splits; [done|by intros; rewrite Hf2, Hf1|lia|done|lia].
      * rewrite (new_events_trans _ _ _ _ _ Ev1 Ev2).
        splits; [by rewrite Hnone|by intros; rewrite Hf2, Hf1|lia| |lia].
        intros e0 _. split; [done|]. left. by rewrite Hf2, Hf1.
  - destruct (IsNotExist e) eqn:Hne.
    + specialize (Hfi eq_refl). rewrite Hfi.
      pose proof (openNewFile_ticks _ _ _ _ _ Hrun) as Ht2.
      apply openNewFile_inv in Hrun as (w2 & eo & Ev2 & Hrun).
      destruct r as [[]|e'].
      * destruct Hrun as (-> & [= -> ->] & Hf2).
        rewrite (new_events_trans _ _ _ _ _ Ev1 Ev2).
        splits; [done| |lia|done|intros; lia].
        intros name' Hn _. by rewrite Hf2, lookup_insert_ne, Hf1.
      * destruct Hrun as ([eo' ->] & [= -> ->] & Hf2 & _).
        rewrite (new_events_trans _ _ _ _ _ Ev1 Ev2).
        splits; [by rewrite Hnone|by intros; rewrite Hf2, Hf1|lia| |done].
        intros e0 _. split; [done|]. left. by rewrite Hf2, Hf1.
    + injection Hrun as <- <- <-. rewrite (emits_new_events _ _ _ Ev1).
      splits; [by rewrite Hnone|by intros; rewrite Hf1|lia| |].
      * intros e0 _. split; [done|]. left. by rewrite Hf1.
      * by repeat case_match.
Qed.

(** [Write] in two phases: what comes before the append (the open, or the
    rotation, or nothing), and the append. *)
Lemma Write_body_cases p l w s' r :
  Write_body p (l, w) = (s', r) -> len p <= max l ->
  exists l1 w1 (r1 : result unit),
    match fd l with
    | None => openFile (len p) (l, w) = ((l1, w1), r1)
    | Some _ =>
        if GoInt.add (size l) (len p) >? max l
        then makeNewFile (l, w) = ((l1, w1), r1)
        else l1 = l /\ w1 = w /\ r1 = Ok tt
    end /\
    match r1 with
    | Err e => s' = (l1, w1) /\ r = Err e
    | Ok _ =>
        exists h w2,
          fd l1 = Some h /\ (l1 = l \/ f_name h = Filename l) /\
          os.Write h p w1 = (w2, r) /\
          s' = (match r with
                | Ok n => with_size l1 (GoInt.add (size l1) n)
                | Err _ => l1
                end, w2)
    end.
Proof.
  intros Hrun Hfit. unfold Write_body in Hrun. inv_self Hrun.
  assert ((len p >? max l) = false) as Hbig by lia. rewrite Hbig in Hrun.
  destruct (fd l) as [f|] eqn:Hfd.
  - apply bind_inv in Hrun as [(s1 & [] & E & Hrun)|(e & E & _)]; [|done].
    injection E as <-. inv_self Hrun.
    destruct (GoInt.add (size l) (len p) >? max l) eqn:Hrot.
    + apply bind_inv in Hrun as [(s1 & [] & Hmk & Hrun)|(e & Hmk & ->)].
      * destruct s1 as [l1 w1]. exists l1, w1, (Ok tt). split; [done|].
        apply makeNewFile_inv in Hmk
          as (l1' & w1' & evs & [= <- <-] & _ & _ & _ & _ & _ & -> & _).
        destruct (append_inv _ _ _ _ _ _ Hrun eq_refl) as (w2 & Hw & ->).
        eexists _, w2. splits; [done|by right|done|done].
      * destruct s' as [l1 w1]. by exists l1, w1, (Err e).
    + apply bind_inv in Hrun as [(s1 & [] & E & Hrun)|(e & E & _)]; [|done].
      injection E as <-.
      destruct (append_inv _ _ _ _ _ _ Hrun Hfd) as (w2 & Hw & ->).
      exists l, w, (Ok tt). split; [done|]. exists f, w2. splits; [done|by left|done|done].
  - apply bind_inv in Hrun as [(s1 & [] & Hopen & Hrun)|(e & Hopen & ->)].
    2:{ destruct s' as [l1 w1]. by exists l1, w1, (Err e). }
    destruct s1 as [l1 w1]. exists l1, w1, (Ok tt). split; [done|].
    apply openFile_inv in Hopen
      as (l1' & w1' & evs & [= <- <-] & Ev1 & Hnw & Hn & Hm & Hopen).
    inv_self Hrun.
    assert (exists h, fd l1 = Some h /\ f_name h = Filename l /\
              (GoInt.add (size l1) (len p) >? max l1) = false)
      as (h & Hh & Hname & Hroom).
    { rewrite (max_config l l1 Hm).
      destruct (files w !! Filename l) as [f|] eqn:Hf;
        [destruct (GoInt.add (len (contents f)) (len p) >=? max l) eqn:Hfull|].
      - destruct Hopen as (-> & _). eexists.
        cbn [fresh fd size]. rewrite (add_zero_len p l Hfit).
        splits; [done|done|lia].
      - destruct Hopen as (-> & _). eexists. cbn [resumed fd size].
        splits; [done|done|lia].
      - destruct Hopen as (-> & _). eexists.
        cbn [fresh fd size]. rewrite (add_zero_len p l Hfit).
        splits; [done|done|lia]. }
    rewrite Hroom in Hrun.
    apply bind_inv in Hrun as [(s1 & [] & E & Hrun)|(e & E & _)]; [|done].
    injection E as <-.
    destruct (append_inv _ _ _ _ _ _ Hrun Hh) as (w2 & Hw & ->).
    exists h, w2. splits; [done|by right|done|done].
Qed.


(** What precedes the append in [Write]: its events, the handles, the
    files it leaves alone, the clock. *)
Lemma Write_prelude p l w l1 w1 (r1 : result unit) :
  match fd l with
  | None => openFile (len p) (l, w) = ((l1, w1), r1)
  | Some _ =>
      if GoInt.add (size l) (len p) >? max l
      then makeNewFile (l, w) = ((l1, w1), r1)
      else l1 = l /\ w1 = w /\ r1 = Ok tt
  end ->
  exists evs, emits w w1 evs /\ existsb is_write evs = false /\
    Filename l1 = Filename l /\ MaxSize l1 = MaxSize l /\
    (forall hs, open_after (handles_of l ++ hs) evs = handles_of l1 ++ hs) /\
    (forall name', name' <> Filename l ->
       name' <> backupFileNameAt (Filename l) (clock w (ticks w)) ->
       files w1 !! name' = files w !! name') /\
    (ticks w1 <= S (ticks w))%nat /\
    (forall e, r1 = Err e -> l1 = with_fd l None).
Proof.
  intros Hpre. destruct (fd l) as [f|] eqn:Hfd;
    [destruct (GoInt.add (size l) (len p) >? max l)|].
  - pose proof (makeNewFile_inv _ _ _ _ Hpre)
      as (l2 & w2 & evs & [= <- <-] & Ev & Hnw & Hn & Hm & _).
    apply makeNewFile_effects in Hpre as (Hh & Hfr & Ht & Hr).
    rewrite (emits_new_events _ _ _ Ev) in Hh.
    exists evs. splits; try done. intros e ->. by destruct Hr.
  - destruct Hpre as (-> & -> & ->). exists [].
    splits; try done. apply os_facts.emits_refl. lia.
  - pose proof (openFile_inv _ _ _ _ _ Hpre)
      as (l2 & w2 & evs & [= <- <-] & Ev & Hnw & Hn & Hm & _).
    apply openFile_effects in Hpre as (Hh & Hfr & Ht & Hr & _); [|done].
    rewrite (emits_new_events _ _ _ Ev) in Hh.
    exists evs. splits; try done.
    + intros hs. unfold handles_of at 1. rewrite Hfd. apply Hh.
    + intros e ->. destruct (Hr _ eq_refl) as [-> _]. symmetry. by apply with_fd_same.
Qed.

Lemma Write_effects p l w l' w' n e :
  Write p (l, w) = ((l', w'), (n, e)) ->
  Filename l' = Filename l /\ MaxSize l' = MaxSize l /\ clock w' = clock w /\
  (forall hs, open_after (handles_of l ++ hs) (new_events w w')
              = handles_of l' ++ hs) /\
  ((forall h, fd l = Some h -> f_name h = Filename l) ->
   forall name', name' <> Filename l ->
     name' <> backupFileNameAt (Filename l) (clock w (ticks w)) ->
     files w' !! name' = files w !! name') /\
  (ticks w <= ticks w' <= S (ticks w))%nat /\
  (e <> None ->
   (len p > max l /\ l' = l /\ w' = w) \/
   (l' = with_fd l None /\ existsb is_write (new_events w w') = false) \/
   exists h k evs, fd l' = Some h /\ size l' = size_before_append p l w /\
     existsb is_write evs = false /\
     new_events w w' = evs ++ [Ev (CWrite h k) e]).
Proof.
  intros Hrun. destruct (Z.leb_spec (len p) (max l)) as [Hfit|Hbig].
  2:{ rewrite oversize_refused in Hrun by lia. injection Hrun as <- <- <- <-.
      unfold new_events. rewrite drop_all. splits; try done; try lia.
      intros _. left. splits; [lia|done|done]. }
  pose proof Hrun as (r & Hbody & -> & ->)%Write_unfold.
  pose proof Hbody as Hinv%Write_body_inv.
  assert ((len p >? max l) = false) as Hb by lia. rewrite Hb in Hinv.
  apply Write_body_cases in Hbody as (l1 & w1 & r1 & Hpre & Hrest); [|done].
  pose proof (Write_prelude _ _ _ _ _ _ Hpre)
    as (evs & Ev1 & Hnw & Hn & Hm & Hh & Hfr & Ht & Hr).
  destruct r1 as [[]|e1].
  - destruct Hrest as (h & w2 & Hfd1 & Hname & Hw & [= -> ->]).
    pose proof (Write_ticks _ _ _ _ _ Hw) as Ht2.
    apply os_facts.Write_inv in Hw as (k & Ev2 & Hk & Hfs & Hres).
    rewrite (new_events_trans _ _ _ _ _ Ev1 Ev2).
    assert (ticks w <= ticks w1)%nat by by destruct Ev1 as (_ & _ & _ & ?).
    assert (clock w2 = clock w) as Hck.
    { destruct Ev1 as (_ & ? & _), Ev2 as (_ & ? & _). congruence. }
    splits; try (by destruct r); try lia.
    + intros hs. rewrite open_after_app, Hh. by destruct r.
    + intros Hatt name' Hn' Hd. rewrite Hfs, append_to_other; [by apply Hfr|].
      destruct Hname as [Hl|Hl]; [|by rewrite Hl].
      subst l1. by rewrite (Hatt _ Hfd1).
    + intros He. right; right. destruct r as [m|e]; [done|].
      destruct Hinv as (l1' & w1' & evs' & r1' & Ev1' & _ & _ & _ & _ & Hinv).
      exists h, k, evs. splits; try done.
      destruct r1' as [[]|].
      2:{ destruct Hinv as ([= <- <-] & _ & Hnone & _). congruence. }
      destruct Hinv as (h' & w2' & _ & Hsz & _ & _ & [= -> ->]). done.
  - destruct Hrest as ([= -> ->] & ->).
    rewrite (emits_new_events _ _ _ Ev1).
    destruct Ev1 as (_ & ? & _ & ?).
    splits; try done; try lia. intros _. right; left. split; [by eapply Hr|done].
Qed.

Lemma append_to_is_Some name name' bs (fs : gmap string file) :
  is_Some (fs !! name') -> is_Some (os.append_to name bs fs !! name').
Proof.
  intros Hsome. unfold os.append_to. destruct (fs !! name) eqn:Hf; [|done].
  destruct (decide (name' = name)) as [->|Hne].
  - rewrite lookup_insert_eq. by eexists.
  - by rewrite lookup_insert_ne.
Qed.

(** The handle of the logger stays on the file of its name. *)
Lemma Write_attached p l w l' w' n e :
  attached l w -> Write p (l, w) = ((l', w'), (n, e)) -> attached l' w'.
Proof.
  intros Hatt Hrun. destruct (Z.leb_spec (len p) (max l)) as [Hfit|Hbig].
  2:{ rewrite oversize_refused in Hrun by lia. by injection Hrun as <- <- <- <-. }
  apply Write_unfold in Hrun as (r & Hbody & -> & ->).
  apply Write_body_cases in Hbody as (l1 & w1 & r1 & Hpre & Hrest); [|done].
  assert (attached l1 w1) as Hatt1.
  { destruct (fd l) as [h0|] eqn:Hfd;
      [destruct (GoInt.add (size l) (len p) >? max l)|].
    - apply makeNewFile_inv in Hpre
        as (l2 & w2 & evs & [= <- <-] & _ & _ & _ & _ & _ & Hpre).
      destruct r1 as [[]|e1].
      + destruct Hpre as (-> & f & r1 & r2 & _ & _ & Hfs).
        intros h [= <-]. split; [done|]. rewrite Hfs. unfold rotated_files.
        rewrite lookup_insert_eq. by eexists.
      + destruct Hpre as [Hnone _]. intros h Hh. congruence.
    - by destruct Hpre as (-> & -> & _).
    - apply openFile_inv in Hpre
        as (l2 & w2 & evs & [= <- <-] & _ & _ & Hn & _ & Hpre).
      destruct r1 as [[]|e1].
      + destruct (files w !! Filename l) as [f|] eqn:Hf;
          [destruct (GoInt.add (len (contents f)) (len p) >=? max l)|].
        * destruct Hpre as (-> & r1 & r2 & _ & Hfs).
          intros h [= <-]. split; [done|]. rewrite Hfs. unfold rotated_files.
          rewrite lookup_insert_eq. by eexists.
        * destruct Hpre as (-> & Hfs & _).
          intros h [= <-]. split; [done|]. rewrite Hfs. cbn. by eexists.
        * destruct Hpre as (-> & Hfs & _).
          intros h [= <-]. split; [done|]. rewrite Hfs. cbn.
          rewrite lookup_insert_eq. by eexists.
      + destruct Hpre as [Hnone _]. intros h Hh. specialize (Hnone Hfd).
        congruence. }
  destruct r1 as [[]|e1].
  - destruct Hrest as (h & w2 & Hfd1 & _ & Hw & [= -> ->]).
    apply os_facts.Write_inv in Hw as (k & _ & _ & Hfs & _).
    destruct (Hatt1 _ Hfd1) as [Hname Hsome].
    assert (attached l1 w2) as Hatt2.
    { intros h' Hh'. rewrite Hfd1 in Hh'. injection Hh' as <-.
      split; [done|]. rewrite Hfs. by apply append_to_is_Some. }
    by destruct r.
  - by destruct Hrest as ([= -> ->] & _).
Qed.

(** * The methods on a system that does not fail *)

Lemma close_quiet l w : faults w = [] -> snd (close (l, w)) = Ok tt.
Proof.
  intros Hq. unfold close. rewrite bind_self. cbn [fst].
  destruct (fd l) as [f|]; [|done].
  destruct (os_quiet.Close_quiet f w Hq) as (w1 & H1 & _).
  unfold try, mbind, M_bind, set_fd, modify, of_result.
  by rewrite (sys_run _ _ _ _ _ H1).
Qed.

Lemma openNewFile_quiet l w : faults w = [] -> snd (openNewFile (l, w)) = Ok tt.
Proof.
  intros Hq. unfold openNewFile. rewrite bind_self. cbn [fst].
  destruct (os_quiet.OpenFile_quiet_create (Filename l) 493 w Hq) as (w1 & H1 & _).
  by rewrite (bind_orfail_sys_ok _ _ _ _ _ _ _ H1).
Qed.

Lemma makeNewFile_quiet l w :
  faults w = [] -> is_Some (files w !! Filename l) ->
  snd (makeNewFile (l, w)) = Ok tt.
Proof.
  intros Hq [f Hf]. unfold makeNewFile.
  destruct (close (l, w)) as [s1 rc] eqn:Hc.
  pose proof (close_quiet l w Hq) as Hrc. rewrite Hc in Hrc. cbn in Hrc. subst rc.
  rewrite (bind_ok _ _ _ _ _ Hc).
  apply close_inv in Hc as (w1 & -> & Hf1 & _ & _ & Ev1).
  pose proof (emits_quiet _ _ _ Ev1 Hq) as Hq1.
  destruct (composeFile (with_fd l None, w1)) as [s2 r2] eqn:Hs.
  pose proof (composeFile_quiet (with_fd l None) w1 f Hq1) as Hr2.
  rewrite Hs in Hr2. cbn in Hr2. rewrite Hf1 in Hr2. specialize (Hr2 Hf). subst r2.
  rewrite (bind_ok _ _ _ _ _ Hs).
  apply composeFile_inv in Hs as (w2 & evs & -> & Ev2 & _).
  apply openNewFile_quiet. by apply (emits_quiet _ _ _ Ev2).
Qed.

Lemma openFile_quiet curlen l w :
  faults w = [] -> snd (openFile curlen (l, w)) = Ok tt.
Proof.
  intros Hq. unfold openFile. rewrite bind_self. cbn [fst].
  destruct (files w !! Filename l) as [f|] eqn:Hf.
  - destruct (os_quiet.Stat_quiet _ _ _ Hq Hf) as (w1 & H1 & Hq1 & Hf1).
    unfold try at 1. unfold mbind at 1, M_bind at 1.
    rewrite (sys_run _ _ _ _ _ H1). cbn [fi_size].
    destruct (GoInt.add (len (contents f)) curlen >=? max l).
    + apply makeNewFile_quiet; [done|]. rewrite Hf1. by eexists.
    + rewrite <- Hf1 in Hf.
      destruct (os_quiet.OpenFile_quiet_append (Filename l) 493 w1 f Hq1 Hf)
        as (w2 & H2 & _).
      by rewrite (bind_orfail_sys_ok _ _ _ _ _ _ _ H2).
  - destruct (os_quiet.Stat_quiet_missing _ _ Hq Hf) as (w1 & H1 & Hq1 & Hf1).
    unfold try at 1. unfold mbind at 1, M_bind at 1.
    rewrite (sys_run _ _ _ _ _ H1). cbn [IsNotExist].
    by apply openNewFile_quiet.
Qed.

Lemma file_eta (f : file) : mkFile (contents f) (perm f) = f.
Proof. by destruct f. Qed.

(** One call of [Write] on a system that does not fail: it goes through,
    and either puts its buffer after what the file holds, or, having
    rotated, leaves the old contents to the archive and the buffer alone in
    the file. *)
Lemma Write_quiet_step p l w :
  faults w = [] -> attached l w -> len p <= max l ->
  exists l' w',
    Write p (l, w) = ((l', w'), (len p, None)) /\
    faults w' = [] /\ attached l' w' /\
    let name := Filename l in
    let dst := backupFileNameAt name (clock w (ticks w)) in
    (ticks w' = ticks w /\
     exists m, files w' = <[name := mkFile (os.read_all name w ++ p) m]> (files w)) \/
    (ticks w' = S (ticks w) /\
     exists f, files w !! name = Some f /\
       files w' = <[name := mkFile p 493]> (<[dst := archive_of f w dst]> (files w))).
Proof.
  intros Hq Hatt Hfit. cbn zeta.
  destruct (Write p (l, w)) as [[l' w'] [n e]] eqn:Hrun. exists l', w'.
  pose proof Hrun as (r & Hbody & -> & ->)%Write_unfold.
  apply Write_body_cases in Hbody as (l1 & w1 & r1 & Hpre & Hrest); [|done].
  set (name := Filename l) in *.
  set (dst := backupFileNameAt name (clock w (ticks w))) in *.
  assert (exists c0 m0 X,
            r1 = Ok tt /\ faults w1 = [] /\ Filename l1 = name /\
            (exists h, fd l1 = Some h /\ f_name h = name) /\
            files w1 = <[name := mkFile c0 m0]> X /\
            ((ticks w1 = ticks w /\ c0 = os.read_all name w /\ X = files w) \/
             (ticks w1 = S (ticks w) /\ c0 = [] /\ m0 = 493 /\
              exists f, files w !! name = Some f /\
                X = <[dst := archive_of f w dst]> (files w))))
    as (c0 & m0 & X & -> & Hq1 & Hn1 & (h & Hfd1 & Hname) & Hf1 & Hcase).
  { destruct (fd l) as [h0|] eqn:Hfd.
    - destruct (Hatt _ Hfd) as [Hname0 [f0 Hf0]]. fold name in Hname0, Hf0.
      destruct (GoInt.add (size l) (len p) >? max l).
      + pose proof (makeNewFile_quiet l w Hq ltac:(by eexists)) as Hok.
        rewrite Hpre in Hok. cbn in Hok. subst r1.
        pose proof (makeNewFile_effects _ _ _ _ _ Hpre) as (_ & _ & _ & Ht).
        apply makeNewFile_inv in Hpre
          as (l2 & w2 & evs & [= <- <-] & Ev & _ & _ & _ & _ & -> & f & r1 & r2 & Hf & _ & Hfs).
        exists [], 493, (<[dst := archive_of f w dst]> (files w)).
        splits; [done|by eapply emits_quiet|done|by eexists|done|].
        right. splits; try done. by exists f.
      + destruct Hpre as (-> & -> & ->).
        exists (contents f0), (perm f0), (files w).
        splits; [done|done|done|by eexists| |].
        * by rewrite file_eta, insert_id.
        * left. unfold os.read_all. by rewrite Hf0.
    - pose proof (openFile_quiet (len p) l w Hq) as Hok.
      rewrite Hpre in Hok. cbn in Hok. subst r1.
      pose proof (openFile_effects _ _ _ _ _ _ Hfd Hpre) as (_ & _ & _ & _ & Ht).
      apply openFile_inv in Hpre
        as (l2 & w2 & evs & [= <- <-] & Ev & _ & Hn & _ & Hopen).
      pose proof (emits_quiet _ _ _ Ev Hq) as Hq1. fold name in Ht, Hopen.
      destruct (files w !! name) as [f|] eqn:Hf;
        [destruct (GoInt.add (len (contents f)) (len p) >=? max l)|].
      + destruct Hopen as (-> & r1 & r2 & _ & Hfs).
        exists [], 493, (<[dst := archive_of f w dst]> (files w)).
        splits; [done|done|done|by eexists|done|].
        right. splits; try done; [by apply Ht|]. by exists f.
      + destruct Hopen as (-> & Hfs & _).
        exists (contents f), (perm f), (files w).
        splits; [done|done|done|by eexists| |].
        * by rewrite file_eta, insert_id.
        * left. unfold os.read_all. by rewrite Hf.
      + destruct Hopen as (-> & Hfs & _).
        exists [], 493, (files w).
        splits; [done|done|done|by eexists|done|].
        left. unfold os.read_all. rewrite Hf. splits; [by apply Ht|done|done]. }
  destruct Hrest as (h' & w2 & Hfd1' & _ & Hw & Hs).
  rewrite Hfd1 in Hfd1'. injection Hfd1' as <-.
  destruct (os_quiet.Write_quiet h p w1 Hq1) as (w2' & Hw' & Hq2 & Hf2 & Ht2 & _).
  rewrite Hw in Hw'. injection Hw' as <- ->. injection Hs as -> ->.
  rewrite Hname, Hf1, append_to_insert in Hf2. cbn [contents perm] in Hf2.
  splits; [done|done| |].
  - intros h1 Hh1. cbn [with_size fd Filename] in *. rewrite Hfd1 in Hh1.
    injection Hh1 as <-. rewrite Hn1, Hf2, lookup_insert_eq. by eauto.
  - rewrite Ht2, Hf2.
    destruct Hcase as [(Ht & -> & ->)|(Ht & -> & -> & f & Hf & ->)]; [left|right].
    + split; [done|]. by exists m0.
    + split; [done|]. by exists f.
Qed.

(** * The size is not looked at before a file is open *)

Lemma bind_run {S A B} (m : M S A) (k : A -> M S B) s :
  (m ≫= k) s
  = match m s with
    | (s1, Ok a) => k a s1
    | (s1, Err e) => (s1, Err e)
    end.
Proof. reflexivity. Qed.

Lemma blind_sys {A} (m : M World A) : size_blind (sys m).
Proof. intros l w n. unfold sys, resize. cbn. by destruct (m w). Qed.

Lemma blind_bind {A B} (m : M State A) (k : A -> M State B) :
  size_blind m -> (forall a, size_blind (k a)) -> size_blind (m ≫= k).
Proof.
  intros Hm Hk l w n. unfold mbind, M_bind. rewrite Hm.
  destruct (m (l, w)) as [[l1 w1] [a|e]]; unfold resize at 1; cbn [fst snd];
    [apply Hk|done].
Qed.

Lemma blind_orfail {A} (m : M State A) e0 : size_blind m -> size_blind (orfail m e0).
Proof.
  intros Hm l w n. unfold orfail. rewrite Hm.
  by destruct (m (l, w)) as [[l1 w1] [a|e]].
Qed.

Lemma blind_try {A} (m : M State A) : size_blind m -> size_blind (try m).
Proof.
  intros Hm l w n. unfold try. rewrite Hm. by destruct (m (l, w)) as [[l1 w1] r].
Qed.

Lemma blind_defer {A B} (d : M State B) (body : M State A) :
  size_blind d -> size_blind body -> size_blind (defer d body).
Proof.
  intros Hd Hb l w n. unfold defer. rewrite Hb.
  destruct (body (l, w)) as [[l1 w1] r]. unfold resize at 1. cbn [fst snd].
  rewrite Hd. by destruct (d (l1, w1)).
Qed.

Lemma blind_set_fd f : size_blind (set_fd f).
Proof. done. Qed.

Lemma blind_getBackupFileName : size_blind getBackupFileName.
Proof. done. Qed.

Lemma blind_self_bind {A} (k : Logger -> M State A) :
  (forall l0, size_blind (k l0)) -> (forall l n, k (with_size l n) = k l) ->
  size_blind (self ≫= k).
Proof.
  intros Hk Heq l w n. rewrite !bind_self. cbn [fst]. rewrite Heq. apply Hk.
Qed.

Lemma setting_self_bind {A} (k : Logger -> M State A) :
  (forall l0, size_setting (k l0)) -> (forall l n, k (with_size l n) = k l) ->
  size_setting (self ≫= k).
Proof.
  intros Hk Heq l w n. rewrite !bind_self. cbn [fst]. rewrite Heq. apply Hk.
Qed.

Lemma blind_close : size_blind close.
Proof.
  apply blind_self_bind; [|done]. intros l0. destruct (fd l0) as [f|]; [|done].
  apply blind_bind; [apply blind_try, blind_sys|]. intros r.
  apply blind_bind; [apply blind_set_fd|]. by intros [].
Qed.

Lemma setting_bind {A B} (m : M State A) (k : A -> M State B) :
  size_blind m -> (forall a, size_setting (k a)) -> size_setting (m ≫= k).
Proof.
  intros Hm Hk l w n. unfold mbind, M_bind. rewrite Hm.
  destruct (m (l, w)) as [[l1 w1] [a|e]]; unfold resize at 1; cbn [fst snd];
    [apply Hk|done].
Qed.

Lemma setting_fail {A} e : size_setting (fail e : M State A).
Proof. done. Qed.

Lemma setting_open name fl n0 :
  size_setting (file ← orfail (sys (os.OpenFile name fl 493)) (ErrOpenFile name);
                set_fd (Some file);; set_size n0).
Proof.
  intros l w n. unfold orfail, sys, mbind, M_bind, set_fd, set_size, modify.
  cbn [fst snd]. by destruct (os.OpenFile name fl 493 w) as [w1 [h|e]].
Qed.

Lemma blind_composeFile : size_blind composeFile.
Proof.
  apply blind_self_bind; [|done]. intros l0.
  apply blind_bind; [apply blind_orfail, blind_sys|]. intros file.
  apply blind_defer; [apply blind_sys|].
  apply blind_bind; [apply blind_orfail, blind_sys|]. intros fi.
  apply blind_bind; [apply blind_getBackupFileName|]. intros dst.
  apply blind_bind; [apply blind_orfail, blind_sys|]. intros gzf.
  apply blind_defer; [apply blind_sys|].
  apply blind_bind; [apply blind_sys|]. intros gz.
  apply blind_bind; [apply blind_sys|]. intros _. apply blind_sys.
Qed.

Lemma setting_openNewFile : size_setting openNewFile.
Proof.
  apply setting_self_bind; [|done]. intros l0. apply setting_open.
Qed.

Lemma setting_makeNewFile : size_setting makeNewFile.
Proof.
  apply setting_bind; [apply blind_close|]. intros _.
  apply setting_bind; [apply blind_composeFile|]. intros _.
  apply setting_openNewFile.
Qed.

Lemma setting_openFile curlen : size_setting (openFile curlen).
Proof.
  apply setting_self_bind; [|done]. intros l0.
  apply setting_bind.
  - apply blind_try, blind_sys.
  - intros [fi|e].
    + destruct (GoInt.add (fi_size fi) curlen >=? max l0);
        [apply setting_makeNewFile|apply setting_open].
    + destruct (IsNotExist e); [apply setting_openNewFile|apply setting_fail].
Qed.
(** * Whole runs *)

Lemma backupFileNameAt_inj filename t1 t2 :
  filepath.Base filename <> "/" -> gotime.valid t1 -> gotime.valid t2 ->
  backupFileNameAt filename t1 = backupFileNameAt filename t2 -> t1 = t2.
Proof.
  intros Hroot Ht1 Ht2 Heq.
  rewrite !archive_facts.backupFileNameAt_split in Heq by done.
  apply String.app_inj in Heq. by apply (archive_facts.stamped_inj filename).
Qed.

Lemma run_accounting ps : forall l w,
  faults w = [] -> attached l w ->
  Forall (fun p => len p <= max l) ps ->
  filepath.Base (Filename l) <> "/" ->
  (forall i, (ticks w <= i < ticks w + length ps)%nat -> gotime.valid (clock w i)) ->
  (forall i j, (ticks w <= i < j)%nat -> (j < ticks w + length ps)%nat ->
     clock w i <> clock w j) ->
  exists ts : list (nat * list byte),
    let l' := fst (final ps (l, w)) in
    let w' := snd (final ps (l, w)) in
    Forall (fun st => err st = None /\ count st = len (buf st)) (run ps (l, w)) /\
    faults w' = [] /\ attached l' w' /\
    Filename l' = Filename l /\ clock w' = clock w /\
    (ticks w <= ticks w' <= ticks w + length ps)%nat /\
    Forall (fun tg => (ticks w <= tg.1 < ticks w')%nat) ts /\
    NoDup ts.*1 /\
    (forall i j ti tj,
       ts.*1 !! i = Some ti -> ts.*1 !! j = Some tj -> (i < j)%nat ->
       (ti < tj)%nat) /\
    Forall (fun tg =>
              exists m,
                files w' !! backupFileNameAt (Filename l) (clock w tg.1)
                = Some (mkFile (gz_body tg.2 ++ gz_trailer tg.2) m)) ts /\
    concat ts.*2 ++ os.read_all (Filename l) w'
    = os.read_all (Filename l) w ++ concat ps /\
    (forall name', name' <> Filename l ->
       (forall t, (ticks w <= t < ticks w')%nat ->
          name' <> backupFileNameAt (Filename l) (clock w t)) ->
       files w' !! name' = files w !! name').
Proof.
  induction ps as [|p ps IH]; intros l w Hq Hatt Hfit Hroot Hvalid Hdistinct.
  { exists []. cbn. splits; try done; try lia; try constructor.
    by rewrite app_nil_r. }
  apply Forall_cons in Hfit as [Hp Hfit].
  destruct (Write_quiet_step p l w Hq Hatt Hp) as (l1 & w1 & Hrun & Hq1 & Hatt1 & Hcase).
  pose proof (Write_effects _ _ _ _ _ _ _ Hrun) as (Hn1 & Hm1 & Hc1 & _ & _ & Ht1 & _).
  cbn zeta in Hcase. cbn [length] in *.
  destruct (IH l1 w1) as (ts & Hind); try done.
  { by rewrite (max_config _ _ Hm1). }
  { by rewrite Hn1. }
  { intros i Hi. rewrite Hc1. apply Hvalid. lia. }
  { intros i j Hi Hj. rewrite Hc1. apply Hdistinct; lia. }
  cbn zeta in Hind.
  destruct Hind as (Hsteps & Hq' & Hatt' & Hn' & Hc' & Ht' & Hts & Hnd & Hsorted & Harch & Hcat & Hframe).
  rewrite Hn1, Hc1 in *.
  assert (final (p :: ps) (l, w) = final ps (l1, w1)) as Hfinal.
  { unfold final. cbn [fold_left]. by rewrite Hrun. }
  assert (run (p :: ps) (l, w)
          = mkStep (l, w) p (l1, w1) (len p) None :: run ps (l1, w1)) as Hsteps1.
  { cbn [run]. by rewrite Hrun. }
  rewrite Hfinal, Hsteps1.
  set (name := Filename l) in *.
  set (l' := fst (final ps (l1, w1))) in *.
  set (w' := snd (final ps (l1, w1))) in *.
  destruct Hcase as [(Htk & m & Hfs)|(Htk & f & Hf & Hfs)].
  - exists ts. cbn zeta. rewrite Htk in *.
    splits.
    + by constructor.
    + done.
    + done.
    + done.
    + done.
    + lia.
    + lia.
    + eapply Forall_impl; [exact Hts|]. cbn. intros; lia.
    + done.
    + done.
    + done.
    + rewrite Hcat. unfold os.read_all at 1. rewrite Hfs, lookup_insert_eq. cbn.
      by rewrite <- app_assoc.
    + intros name' Hn Hd. rewrite Hframe by done. by rewrite Hfs, lookup_insert_ne.
  - set (dst := backupFileNameAt name (clock w (ticks w))) in *.
    assert (dst <> name) as Hfresh by apply backupFileNameAt_fresh.
    exists ((ticks w, contents f) :: ts). cbn zeta. rewrite Htk in *.
    splits.
    + by constructor.
    + done.
    + done.
    + done.
    + done.
    + lia.
    + lia.
    + constructor; [cbn; lia|].
      eapply Forall_impl; [exact Hts|]. cbn. intros; lia.
    + cbn. constructor; [|done]. intros Hin.
      apply list_elem_of_fmap in Hin as (tg & Heq & Hin).
      rewrite Forall_forall in Hts. apply Hts in Hin. lia.
    + intros i j ti tj Hi Hj Hij. destruct j as [|j]; [lia|].
      cbn in Hj. destruct i as [|i].
      * injection Hi as <-. apply list_elem_of_lookup_2 in Hj.
        apply list_elem_of_fmap in Hj as (tg & -> & Hin).
        rewrite Forall_forall in Hts. apply Hts in Hin. lia.
      * cbn in Hi. eapply Hsorted; [exact Hi|exact Hj|lia].
    + constructor; [|done]. cbn [fst snd]. fold dst.
      rewrite Hframe; [| done |].
      * rewrite Hfs, lookup_insert_ne, lookup_insert_eq by done.
        unfold archive_of. by eexists.
      * intros t Ht Heq. apply backupFileNameAt_inj in Heq; [|done|..].
        -- by apply (Hdistinct (ticks w) t); try lia.
        -- apply Hvalid. lia.
        -- apply Hvalid. lia.
    + cbn [fmap list_fmap concat snd]. rewrite <- app_assoc, Hcat.
      unfold os.read_all. by rewrite Hfs, lookup_insert_eq, Hf.
    + intros name' Hn Hd. rewrite Hframe.
      * rewrite Hfs, !lookup_insert_ne; [done| |done]. symmetry. apply Hd. lia.
      * done.
      * intros t Ht. apply Hd. lia.
Qed.
End Paths.

(** * The size and the maximum over a run *)

Section Size.
Context `{Gzip}.

(** An invariant of the states of a run over buffers that all satisfy [R]
    gives a property of every step. *)
Lemma run_invariant (R : list byte -> Prop) (P : State -> Prop)
  (Q : step -> Prop) :
  (forall p s, R p -> P s ->
     P (fst (Write p s)) /\
     Q (mkStep s p (fst (Write p s)) (fst (snd (Write p s)))
          (snd (snd (Write p s))))) ->
  forall ps s, Forall R ps -> P s -> Forall Q (run ps s).
Proof.
  intros Hstep ps. induction ps as [|p ps IH]; intros s Hps Hs; [constructor|].
  apply Forall_cons in Hps as [Hp Hps]. cbn [run].
  destruct (Hstep p s Hp Hs) as [HP HQ]. constructor; [done|]. by apply IH.
Qed.

(** The size [Write] appends at is within the maximum when the size it
    found was, as long as the file on disk is not so long that adding the
    buffer's length to it wraps around. *)
Lemma size_before_append_le p l w :
  len p <= max l -> max l < 2 ^ 62 -> in_step l w -> size l <= max l ->
  size_before_append p l w <= max l.
Proof.
  intros Hfit Hmax [_ Hdisk] Hsize. pose proof (len_nonneg p).
  unfold size_before_append. destruct (fd l).
  - destruct (_ >? _); lia.
  - destruct (files w !! Filename l) as [f|] eqn:Hf; [|lia].
    specialize (Hdisk _ eq_refl). pose proof (len_nonneg (contents f)).
    destruct (GoInt.add _ _ >=? _) eqn:Hc; [lia|].
    rewrite GoIntFacts.add_exact in Hc; [lia|].
    unfold GoInt.in_range, GoInt.min_int, GoInt.max_int. lia.
Qed.

(** Whatever a call of [Write] returns, it leaves the size within the
    maximum if it found it there. *)
Lemma Write_size_bound p l w l' w' n e :
  Write p (l, w) = ((l', w'), (n, e)) ->
  len p <= max l -> max l < 2 ^ 62 -> in_step l w -> size l <= max l ->
  size l' <= max l.
Proof.
  intros Hrun Hfit Hmax Hstep Hsize. destruct e as [e|].
  2:{ by eapply Write_size_le. }
  apply Write_effects in Hrun as (_ & _ & _ & _ & _ & _ & Hfail).
  destruct (Hfail ltac:(done)) as [(Hbig & _)|[(-> & _)|(h & k & evs & _ & -> & _)]].
  - lia.
  - done.
  - by apply size_before_append_le.
Qed.

(** C1, as amended: in a run of [Write] over buffers no longer than the
    maximum, the size the logger keeps is at most the maximum after every
    call that goes through; a call that finds a file open and would take the
    size over the maximum starts a rotation on that file, and leaves the
    size at the length of its buffer.

    The file on disk is as long as the size says after every call that goes
    through, and so within the maximum, only as long as no append has
    failed after writing part of its buffer (and the bookkeeping agreed
    with the disk at the start, as it does for a logger with no file open,
    and the lengths involved fit in 62 bits); the size is then within the
    maximum after the calls that fail as well, if it was at the start.

    On a system that does not fail, every call of the run goes through and
    returns the length of its buffer. *)
Theorem size_never_exceeds_max ps l w :
  Forall (fun p => len p <= max l) ps ->
  Forall (fun st => err st = None -> size (fst (after st)) <= max l)
    (run ps (l, w)) /\
  Forall (fun st =>
            err st = None ->
            forall f, fd (fst (before st)) = Some f ->
              GoInt.add (size (fst (before st))) (len (buf st)) > max l ->
              rotation_started f (new_events (snd (before st)) (snd (after st))) /\
              size (fst (after st)) = len (buf st))
    (run ps (l, w)) /\
  (max l < 2 ^ 62 -> Forall clean_failure (faults w) -> in_step l w ->
   Forall (fun st =>
             err st = None ->
             disk_size (fst (after st)) (snd (after st))
             = Some (size (fst (after st))))
     (run ps (l, w)) /\
   (size l <= max l ->
    Forall (fun st => size (fst (after st)) <= max l) (run ps (l, w)))) /\
  (faults w = [] -> attached l w ->
   Forall (fun st => err st = None /\ count st = len (buf st))
     (run ps (l, w))).
Proof.
  intros Hps. splits.
  - apply (run_invariant (fun _ => True) (fun s => max (fst s) = max l));
      [|by apply Forall_true|done].
    intros p [l0 w0] _ Hmax. cbn [fst] in Hmax.
    destruct (Write p (l0, w0)) as [[l1 w1] [n e]] eqn:Hrun. cbn.
    pose proof (Write_config _ _ _ _ _ _ Hrun) as (_ & Hm & _).
    split; [by rewrite (max_config _ _ Hm)|]. intros ->.
    rewrite <- Hmax. by eapply Write_size_le.
  - apply (run_invariant (fun _ => True) (fun s => max (fst s) = max l));
      [|by apply Forall_true|done].
    intros p [l0 w0] _ Hmax. cbn [fst] in Hmax.
    destruct (Write p (l0, w0)) as [[l1 w1] [n e]] eqn:Hrun. cbn.
    pose proof (Write_config _ _ _ _ _ _ Hrun) as (_ & Hm & _).
    split; [by rewrite (max_config _ _ Hm)|]. intros -> f Hfd Hover.
    rewrite <- Hmax in Hover.
    destruct (Z.leb_spec (len p) (max l0)) as [Hfit|Hbig];
      [|by rewrite oversize_refused in Hrun by lia].
    pose proof (rotation_cases _ _ _ _ _ _ _ _ Hfd Hfit Hrun)
      as (Hiff & _ & _ & Hdone).
    split; [by apply Hiff|]. by destruct (Hdone Hover eq_refl).
  - intros Hmax Hclean Hstep. split.
    + apply (run_invariant (fun _ => True) (fun s =>
               max (fst s) = max l /\ Forall clean_failure (faults (snd s)) /\
               in_step (fst s) (snd s))); [|by apply Forall_true|done].
      intros p [l0 w0] _ (Hmax0 & Hclean0 & Hstep0). cbn [fst snd] in *.
      destruct (Write p (l0, w0)) as [[l1 w1] [n e]] eqn:Hrun. cbn.
      pose proof (Write_config _ _ _ _ _ _ Hrun) as (_ & Hm & evs & Hev).
      rewrite <- Hmax0 in Hmax.
      pose proof (Write_in_step _ _ _ _ _ _ _ Hrun Hmax Hclean0 Hstep0) as [? ?].
      splits; [by rewrite (max_config _ _ Hm)|by eapply Forall_clean_emits|done|done].
    + intros Hsize.
      apply (run_invariant (fun p => len p <= max l) (fun s =>
               max (fst s) = max l /\ Forall clean_failure (faults (snd s)) /\
               in_step (fst s) (snd s) /\ size (fst s) <= max l)); [|done|done].
      intros p [l0 w0] Hfit (Hmax0 & Hclean0 & Hstep0 & Hsize0). cbn [fst snd] in *.
      destruct (Write p (l0, w0)) as [[l1 w1] [n e]] eqn:Hrun. cbn.
      pose proof (Write_config _ _ _ _ _ _ Hrun) as (_ & Hm & evs & Hev).
      rewrite <- Hmax0 in Hmax, Hfit, Hsize0 |- *.
      pose proof (Write_in_step _ _ _ _ _ _ _ Hrun Hmax Hclean0 Hstep0) as [? _].
      pose proof (Write_size_bound _ _ _ _ _ _ _ Hrun Hfit Hmax Hstep0 Hsize0).
      splits; [by rewrite (max_config _ _ Hm)|by eapply Forall_clean_emits|
               done|done|done].
  - intros Hq Hatt.
    apply (run_invariant (fun p => len p <= max l) (fun s =>
             max (fst s) = max l /\ faults (snd s) = [] /\
             attached (fst s) (snd s))); [|done|done].
    intros p [l0 w0] Hfit (Hmax0 & Hq0 & Hatt0). cbn [fst snd] in *.
    rewrite <- Hmax0 in Hfit.
    destruct (Write_quiet_step p l0 w0 Hq0 Hatt0 Hfit)
      as (l1 & w1 & Hrun & Hq1 & Hatt1 & _).
    pose proof (Write_config _ _ _ _ _ _ Hrun) as (_ & Hm & _).
    rewrite Hrun. cbn [fst snd err count buf].
    split; [|done]. split; [|done]. by rewrite (max_config _ _ Hm).
Qed.

End Size.

(** C1, as amended, on two writes to a log of 1048571 bytes with a limit of
    1 MiB: the first, of six bytes, would take the size over the limit and
    rotates, the second follows it into the new file. *)
Lemma size_never_exceeds_max_witness :
  Forall (fun p => len p <= max (resumed sample_logger 1048571))
    [bytes "123456"; bytes "abc"] /\
  in_step (resumed sample_logger 1048571) nearly_full_world /\
  Forall (fun st => err st = None /\ count st = len (buf st)) overflowing_run /\
  Forall (fun st => size (fst (after st)) <= max (resumed sample_logger 1048571))
    overflowing_run /\
  Forall (fun st =>
            err st = None ->
            disk_size (fst (after st)) (snd (after st))
            = Some (size (fst (after st))))
    overflowing_run /\
  rotation_started (mkHandle "/var/log/app.log" O_WRONLY_APPEND)
    (new_events nearly_full_world (snd (fst overflowing_write))) /\
  size (fst (fst overflowing_write)) = len (bytes "123456").
Proof.
  assert (Forall (fun p => len p <= max (resumed sample_logger 1048571))
            [bytes "123456"; bytes "abc"]) as Hfit.
  { repeat constructor; by vm_compute. }
  assert (len (contents nearly_full_log) = 1048571) as Hlen.
  { unfold len, nearly_full_log. cbn [contents].
    rewrite repeat_length, Z2Nat.id by lia. reflexivity. }
  assert (files nearly_full_world !! "/var/log/app.log" = Some nearly_full_log)
    as Hf by apply lookup_singleton_eq.
  assert (in_step (resumed sample_logger 1048571) nearly_full_world) as Hstep.
  { split.
    - intros h Hh. injection Hh as <-. split; [reflexivity|].
      exists nearly_full_log. split; [exact Hf|exact Hlen].
    - intros f Hf'. change (Filename (resumed sample_logger 1048571))
        with "/var/log/app.log" in Hf'.
      rewrite Hf in Hf'. injection Hf' as <-. rewrite Hlen. lia. }
  assert (attached (resumed sample_logger 1048571) nearly_full_world) as Hatt.
  { intros h Hh. injection Hh as <-. split; [reflexivity|].
    exists nearly_full_log. exact Hf. }
  assert (max (resumed sample_logger 1048571) < 2 ^ 62) as Hmax by (by vm_compute).
  assert (size (resumed sample_logger 1048571)
          <= max (resumed sample_logger 1048571)) as Hsize
    by (by vm_compute).
  pose proof (@size_never_exceeds_max stored [bytes "123456"; bytes "abc"]
                (resumed sample_logger 1048571) nearly_full_world Hfit)
    as (_ & Hrot & Hdisk & Hgood).
  destruct (Hdisk Hmax (Forall_nil_2 _) Hstep) as [Hlen' Hbound].
  split; [exact Hfit|]. split; [exact Hstep|].
  split; [exact (Hgood eq_refl Hatt)|].
  split; [exact (Hbound Hsize)|].
  split; [exact Hlen'|].
  apply Forall_cons in Hrot as [Hrot _].
  assert (snd (snd overflowing_write) = None) as Hok by (by vm_compute).
  assert (GoInt.add (size (resumed sample_logger 1048571)) (len (bytes "123456"))
          > max (resumed sample_logger 1048571)) as Hover by (by vm_compute).
  exact (Hrot Hok (mkHandle "/var/log/app.log" O_WRONLY_APPEND) eq_refl Hover).
Defined.

(** C1 as stated fails for the file: on a log of 1048571 bytes, five under
    the limit of 1 MiB, an append of five bytes that the disk cuts short
    after three fails and leaves the size as it was, with the three bytes
    in the file; the same five bytes written again fit by the size, go
    through without a rotation and leave the size at the limit and the file
    three bytes over it. *)
Lemma file_outgrows_max :
  Forall (fun p => len p <= max sample_logger) [bytes "67890"; bytes "67890"] /\
  in_step (resumed sample_logger 1048571) cut_short_world /\
  max sample_logger = 1048576 /\
  err <$> cut_short_run = [Some (ErrSys "ENOSPC"); None] /\
  count <$> cut_short_run = [0; 5] /\
  (fun st => size (fst (after st))) <$> cut_short_run = [1048571; 1048576] /\
  (fun st => disk_size (fst (after st)) (snd (after st))) <$> cut_short_run
  = [Some 1048574; Some 1048579] /\
  ~ Forall (fun st =>
              err st = None ->
              exists n, disk_size (fst (after st)) (snd (after st)) = Some n /\
                        n <= max sample_logger)
      cut_short_run.
Proof.
  assert (len (contents nearly_full_log) = 1048571) as Hlen.
  { unfold len, nearly_full_log. cbn [contents].
    rewrite repeat_length, Z2Nat.id by lia. reflexivity. }
  assert (files cut_short_world !! "/var/log/app.log" = Some nearly_full_log)
    as Hf by apply lookup_singleton_eq.
  assert ((fun st => (err st, disk_size (fst (after st)) (snd (after st))))
            <$> cut_short_run
          = [(Some (ErrSys "ENOSPC"), Some 1048574); (None, Some 1048579)])
    as Hrun by (vm_compute; reflexivity).
  assert (max sample_logger = 1048576) as Hmax by (vm_compute; reflexivity).
  split; [repeat constructor; by vm_compute|].
  split.
  { split.
    - intros h Hh. injection Hh as <-. split; [reflexivity|].
      exists nearly_full_log. split; [exact Hf|exact Hlen].
    - intros f Hf'. change (Filename (resumed sample_logger 1048571))
        with "/var/log/app.log" in Hf'.
      rewrite Hf in Hf'. injection Hf' as <-. rewrite Hlen. lia. }
  split; [exact Hmax|].
  split; [vm_compute; reflexivity|]. split; [vm_compute; reflexivity|].
  split; [vm_compute; reflexivity|]. split; [vm_compute; reflexivity|].
  intros Hall.
  apply (Forall_fmap
           (fun st => (err st, disk_size (fst (after st)) (snd (after st))))
           (fun x => fst x = None -> exists n, snd x = Some n /\ n <= max sample_logger))
    in Hall.
  rewrite Hrun in Hall.
  apply Forall_cons in Hall as [_ Hall]. apply Forall_cons in Hall as [Hall _].
  destruct (Hall eq_refl) as (n & Hn & Hle). injection Hn as <-.
  clear -Hle Hmax. lia.
Qed.

(** * Further properties of the methods *)

Section Methods.
Context `{Gzip}.

(** X1: [close] gives up the handle of the logger on every path: after it
    [fd] is nil, also when the close of the file returned an error, which
    [close] passes on; the one call it makes is that close, and with no file
    open it makes none and returns nil.  It leaves the files, the size and
    the configuration alone, and a second [close] does nothing. *)
Theorem close_drops_handle l w l' w' r :
  close (l, w) = ((l', w'), r) ->
  l' = with_fd l None /\ files w' = files w /\ ticks w' = ticks w /\
  new_events w w'
  = match fd l with
    | Some f => [Ev (CClose f) (os.err_of r)]
    | None => []
    end /\
  (fd l = None -> r = Ok tt) /\
  close (l', w') = ((l', w'), Ok tt).
Proof.
  intros Hrun.
  pose proof (close_inv _ _ _ _ Hrun) as (w1 & [= -> ->] & Hfs & Ht & _ & Ev).
  splits; [done|done|done|by apply emits_new_events| |done].
  intros Hfd. unfold close in Hrun. rewrite bind_self in Hrun. cbn [fst] in Hrun.
  rewrite Hfd in Hrun. by injection Hrun as _ _ <-.
Qed.

(** X2: [openNewFile] leaves an empty file at the logger's name whatever
    was there: a file that exists is emptied and keeps its permission bits
    (which bits a file that is created gets is left open: the system
    derives them from the [0755] of the call and the umask of the process);
    the logger then holds the new handle and size 0.  When the open fails it
    returns its own error, whatever the cause, and leaves the logger and the
    files as they were.  No other file is touched. *)
Theorem openNewFile_truncates l w l' w' r :
  openNewFile (l, w) = ((l', w'), r) ->
  (forall name', name' <> Filename l -> files w' !! name' = files w !! name') /\
  match r with
  | Ok _ =>
      l' = fresh l /\
      exists m,
        files w' !! Filename l = Some (mkFile [] m) /\
        forall f, files w !! Filename l = Some f -> m = perm f
  | Err e => e = ErrOpenFile (Filename l) /\ l' = l /\ files w' = files w
  end.
Proof.
  intros (w1 & eo & _ & Hrun)%openNewFile_inv. destruct r as [[]|e].
  - destruct Hrun as (_ & [= -> ->] & ->). split.
    + intros name' Hn. by rewrite lookup_insert_ne.
    + split; [done|]. eexists. split; [by rewrite lookup_insert_eq|].
      by intros f ->.
  - destruct Hrun as (_ & [= -> ->] & -> & ->). done.
Qed.

(** X3: a rotation that fails, at whichever of its calls, leaves the logger
    with no handle ([fd] nil) and its size and configuration as they were,
    and loses none of the log: either the file is as it was, or (when only
    the creation of the new file failed) the file is gone and the complete
    archive is in its place, the error being that of [openNewFile]. *)
Theorem failed_rotation_keeps_data l w l' w' e :
  makeNewFile (l, w) = ((l', w'), Err e) ->
  let name := Filename l in
  let dst := backupFileNameAt name (clock w (ticks w)) in
  l' = with_fd l None /\
  (files w' !! name = files w !! name \/
   exists f, files w !! name = Some f /\ files w' !! name = None /\
             files w' !! dst = Some (archive_of f w dst) /\
             e = ErrOpenFile name).
Proof. intros Hrun. by apply makeNewFile_effects in Hrun as (_ & _ & _ & ?). Qed.

(** X4: a rotation that goes through leaves, under the name stamped with
    the one reading of the clock it makes, an archive that holds the
    compressed stream and the trailer of what the file held (a file that was
    under that name has its contents replaced and keeps its permission
    bits); at the logger's name an empty file; every other file as it was;
    and the logger on the new file with size 0.  Which permission bits the
    files it creates get is left open: the system derives them from those
    the calls ask for and the umask of the process. *)
Theorem rotation_effect l w l' w' :
  makeNewFile (l, w) = ((l', w'), Ok tt) ->
  let name := Filename l in
  let dst := backupFileNameAt name (clock w (ticks w)) in
  l' = fresh l /\ ticks w' = S (ticks w) /\ dst <> name /\
  exists f m m',
    files w !! name = Some f /\
    files w' !! name = Some (mkFile [] m) /\
    files w' !! dst
    = Some (mkFile (gz_body (contents f) ++ gz_trailer (contents f)) m') /\
    (forall a, files w !! dst = Some a -> m' = perm a) /\
    forall name', name' <> name -> name' <> dst ->
      files w' !! name' = files w !! name'.
Proof.
  intros Hrun. cbn zeta.
  pose proof (makeNewFile_effects _ _ _ _ _ Hrun) as (_ & Hfr & _ & Ht).
  apply makeNewFile_inv in Hrun
    as (l1 & w1 & evs & [= <- <-] & _ & _ & _ & _ & _ & -> & f & r1 & r2 & Hf & _ & Hfs).
  assert (backupFileNameAt (Filename l) (clock w (ticks w)) <> Filename l)
    as Hfresh by apply backupFileNameAt_fresh.
  splits; [done|done|done|]. exists f. eexists _, _. splits; [done| | | |done].
  - rewrite Hfs. unfold rotated_files. by rewrite lookup_insert_eq.
  - rewrite Hfs. unfold rotated_files, archive_of.
    by rewrite lookup_insert_ne, lookup_insert_eq.
  - by intros a ->.
Qed.

(** X5: on every path through [composeFile], whichever of its six calls
    fails or none, the logger is unchanged and every file [composeFile]
    opened is closed when it returns: the events are the calls that went
    through, the call that failed if one did, and then the deferred closes
    in the reverse order of the opens, the archive before the file.  So the
    handles that are open after it are those that were open before. *)
Theorem seal_closes_what_it_opens l w l' w' r :
  composeFile (l, w) = ((l', w'), r) ->
  l' = l /\
  (exists k e r1 r2,
     (k <= 6)%nat /\ new_events w w' = seal_events l w k e r1 r2 /\
     r = seal_result l w k e) /\
  forall hs, open_after hs (new_events w w') = hs.
Proof.
  intros (w1 & k & e & r1 & r2 & f & data & [= -> ->] & Hk & Ev & Hr & _)%composeFile_paths.
  rewrite (emits_new_events _ _ _ Ev). splits; [done| |].
  - by exists k, e, r1, r2.
  - intros hs. by apply open_after_seal.
Qed.

(** X6: [composeFile] does not clean up after a failure: when it fails
    after the archive was created, the file under the archive's name stays,
    holding the part of the compressed stream and trailer that was written,
    all of it when the call that failed is the removal of the file; and
    the file itself is as it was.  After a failed removal the archive and
    the file are both on disk. *)
Theorem failed_seal_leaves_archive l w l' w' e :
  composeFile (l, w) = ((l', w'), Err e) ->
  let name := Filename l in
  let dst := backupFileNameAt name (clock w (ticks w)) in
  In (Ev (COpenFile dst O_CREATE_WRONLY_TRUNC) None) (new_events w w') ->
  exists f data,
    files w !! name = Some f /\ files w' !! name = Some f /\
    files w' !! dst
    = Some (mkFile data (from_option perm (perm f) (files w !! dst))) /\
    data `prefix_of` gz_body (contents f) ++ gz_trailer (contents f) /\
    (In (Ev (CRemove name) (Some e)) (new_events w w') ->
     data = gz_body (contents f) ++ gz_trailer (contents f)).
Proof.
  intros (w1 & k & e0 & r1 & r2 & f & data & [= -> ->] & Hk & Ev & Hr & Hf &
          Hdata & Hfs & _)%composeFile_paths.
  cbn zeta. rewrite (emits_new_events _ _ _ Ev).
  symmetry in Hr. pose proof (seal_result_err _ _ _ _ _ Hk Hr) as Hlt.
  assert (backupFileNameAt (Filename l) (clock w (ticks w)) <> Filename l)
    as Hfresh by apply backupFileNameAt_fresh.
  intros Hin.
  assert (3 <= k)%nat as Hk3.
  { do 3 (destruct k as [|k];
          [cbn in Hin; intuition (discriminate || congruence)|]). lia. }
  exists f, data. rewrite Hfs, seal_files_name, seal_files_dst by done.
  destruct (Nat.eqb_spec k 6); [lia|].
  splits; [apply Hf; lia|apply Hf; lia|done| |].
  - do 3 (destruct k as [|k]; [lia|]).
    destruct k as [|k]; [destruct Hdata as [n' ->]|].
    { rewrite <- (take_drop n' (gz_body (contents f))) at 2.
      rewrite <- app_assoc. by eexists. }
    destruct k as [|k]; [destruct Hdata as [n' ->]|].
    { rewrite <- (take_drop n' (gz_trailer (contents f))) at 2.
      rewrite app_assoc. by eexists. }
    destruct k as [|k]; [|lia]. cbn in Hdata. by subst data.
  - intros Hrm. do 3 (destruct k as [|k]; [lia|]).
    do 2 (destruct k as [|k];
          [cbn in Hrm; intuition (discriminate || congruence)|]).
    destruct k as [|k]; [|lia]. by cbn in Hdata.
Qed.

(** X7: whatever the buffer and whatever fails, a call of [Write] changes
    at most two files: the one at the logger's name and the archive named
    after the reading of the clock that call makes; it reads the clock at
    most once; the name and the limit of the logger never change. *)
Theorem Write_touches_two_files p l w l' w' n e :
  (forall h, fd l = Some h -> f_name h = Filename l) ->
  Write p (l, w) = ((l', w'), (n, e)) ->
  Filename l' = Filename l /\ MaxSize l' = MaxSize l /\
  (ticks w <= ticks w' <= S (ticks w))%nat /\
  forall name',
    name' <> Filename l ->
    name' <> backupFileNameAt (Filename l) (clock w (ticks w)) ->
    files w' !! name' = files w !! name'.
Proof.
  intros Hatt Hrun.
  apply Write_effects in Hrun as (Hn & Hm & _ & _ & Hfr & Ht & _).
  splits; [done|done|lia|lia|]. by apply Hfr.
Qed.

(** X8: when no call of the system fails and the handle of the logger, if
    it has one, is on the file of its name, [Write] accepts every buffer no
    longer than the maximum, also one it has to rotate for: it returns
    [len(p)] and nil, and the file then holds the buffer after what it held
    (the buffer alone for a new file), or, after a rotation, the buffer
    alone, with what it held in the archive. *)
Theorem Write_succeeds p l w :
  faults w = [] -> attached l w -> len p <= max l ->
  let name := Filename l in
  let dst := backupFileNameAt name (clock w (ticks w)) in
  exists l' w',
    Write p (l, w) = ((l', w'), (len p, None)) /\
    faults w' = [] /\ attached l' w' /\
    ((ticks w' = ticks w /\
      os.read_all name w' = os.read_all name w ++ p) \/
     (ticks w' = S (ticks w) /\
      os.read_all name w' = p /\
      exists f, files w !! name = Some f /\
        files w' !! dst = Some (archive_of f w dst))).
Proof.
  intros Hq Hatt Hfit. cbn zeta.
  destruct (Write_quiet_step p l w Hq Hatt Hfit)
    as (l' & w' & Hrun & Hq' & Hatt' & Hcase).
  exists l', w'. splits; [done|done|done|]. cbn zeta in Hcase.
  assert (backupFileNameAt (Filename l) (clock w (ticks w)) <> Filename l)
    as Hfresh by apply backupFileNameAt_fresh.
  destruct Hcase as [(Ht & m & Hfs)|(Ht & f & Hf & Hfs)]; [left|right].
  - split; [done|]. unfold os.read_all at 1. by rewrite Hfs, lookup_insert_eq.
  - split; [done|]. split.
    + unfold os.read_all. by rewrite Hfs, lookup_insert_eq.
    + exists f. split; [done|].
      by rewrite Hfs, lookup_insert_ne, lookup_insert_eq.
Qed.

(** X9: [getBackupFileName] reads the clock once and does nothing else,
    and the name it builds is never the name of the logger's own file,
    whatever that name and whatever the reading: the seal cannot create its
    archive over the file it is reading. *)
Theorem getBackupFileName_fresh l w :
  exists dst w',
    getBackupFileName (l, w) = ((l, w'), Ok dst) /\
    dst = backupFileNameAt (Filename l) (clock w (ticks w)) /\
    dst <> Filename l /\
    files w' = files w /\ trace w' = trace w /\ faults w' = faults w /\
    clock w' = clock w /\ ticks w' = S (ticks w).
Proof.
  eexists _, _. split; [apply getBackupFileName_run|].
  splits; try done. apply backupFileNameAt_fresh.
Qed.

(** X10: a negative [MaxSize] (down to [-2^43]) gives a negative maximum,
    so that [Write] refuses every buffer, the empty one included, and never
    creates or opens a file. *)
Theorem negative_MaxSize_rejects_all p l w :
  - 2 ^ 43 <= MaxSize l < 0 ->
  max l = MaxSize l * 1048576 /\ max l < 0 /\
  Write p (l, w) = ((l, w), (0, Some (ErrTooLarge (len p) (max l)))).
Proof.
  intros Hneg.
  assert (max l = MaxSize l * 1048576) as Hmax.
  { unfold max. destruct (Z.eqb_spec (MaxSize l) 0); [lia|].
    apply GoIntFacts.mul_exact.
    unfold GoInt.in_range, GoInt.min_int, GoInt.max_int, megabyte. lia. }
  splits; [done|lia|]. apply oversize_refused.
  pose proof (len_nonneg p). lia.
Qed.

(** X11: with no file open, [openFile] either leaves the logger on the
    file of its name (created, or found and taken up again) with room for
    the pending write, so that the [Write] that called it does not rotate a
    second time; or it fails and leaves the logger exactly as it was, with
    no handle, and the log still on disk: in the file as it was, or, when
    the rotation got as far as removing it, in the complete archive. *)
Theorem openFile_outcomes curlen l w l' w' r :
  fd l = None -> 0 <= curlen <= max l ->
  openFile curlen (l, w) = ((l', w'), r) ->
  let name := Filename l in
  let dst := backupFileNameAt name (clock w (ticks w)) in
  match r with
  | Ok _ =>
      (l' = fresh l \/ exists n, l' = resumed l n) /\
      GoInt.add (size l') curlen <= max l /\ attached l' w'
  | Err e =>
      l' = l /\
      (files w' !! name = files w !! name \/
       exists f, files w !! name = Some f /\ files w' !! name = None /\
                 files w' !! dst = Some (archive_of f w dst))
  end.
Proof.
  intros Hfd Hlen Hrun. cbn zeta. destruct r as [[]|e].
  2:{ apply openFile_effects in Hrun as (_ & _ & _ & Hr & _); [|done].
      by apply (Hr e). }
  apply openFile_inv in Hrun as (l1 & w1 & evs & [= <- <-] & _ & _ & _ & _ & Hok).
  assert (GoInt.add 0 curlen = curlen) as Hzero.
  { apply GoIntFacts.add_exact. pose proof (max_in_range l) as [_ Hmax].
    unfold GoInt.in_range, GoInt.min_int in *. lia. }
  assert (forall fs m, attached (fresh l) {| files := <[Filename l := m]> fs;
            faults := faults w'; trace := trace w'; clock := clock w';
            ticks := ticks w' |}) as Hnew.
  { intros fs m h [= <-]. split; [done|]. cbn. rewrite lookup_insert_eq. by eexists. }
  destruct (files w !! Filename l) as [f|] eqn:Hf;
    [destruct (GoInt.add (len (contents f)) curlen >=? max l) eqn:Hfull|].
  - destruct Hok as (-> & r1 & r2 & _ & Hfs). splits; [by left|cbn; lia|].
    intros h [= <-]. split; [done|]. rewrite Hfs. unfold rotated_files.
    rewrite lookup_insert_eq. by eexists.
  - destruct Hok as (-> & Hfs & _). splits; [right; by eexists|cbn; lia|].
    intros h [= <-]. split; [done|]. rewrite Hfs. cbn. by eexists.
  - destruct Hok as (-> & Hfs & _). splits; [by left|cbn; lia|].
    intros h [= <-]. split; [done|]. rewrite Hfs. cbn.
    rewrite lookup_insert_eq. by eexists.
Qed.

(** X12: a call of [Write] appends at most once, and the append is the
    last call it makes: the calls before it (the stat, the opens, a whole
    rotation) write nothing through a handle of the logger, and there is no
    second attempt.  A call that returns nil has made exactly one append,
    of the whole buffer, on the handle the logger holds afterwards. *)
Theorem Write_appends_at_most_once p l w l' w' n e :
  Write p (l, w) = ((l', w'), (n, e)) ->
  exists evs tl,
    new_events w w' = evs ++ tl /\ existsb is_write evs = false /\
    ((tl = [] /\ e <> None) \/
     exists h k, tl = [Ev (CWrite h k) e] /\ (k <= length p)%nat /\
       (e = None -> k = length p /\ fd l' = Some h)).
Proof.
  intros Hrun. destruct (Z.leb_spec (len p) (max l)) as [Hfit|Hbig].
  2:{ rewrite oversize_refused in Hrun by lia. injection Hrun as <- <- <- <-.
      exists [], []. unfold new_events. rewrite drop_all. splits; try done.
      by left. }
  apply Write_unfold in Hrun as (r & Hbody & -> & ->).
  apply Write_body_cases in Hbody as (l1 & w1 & r1 & Hpre & Hrest); [|done].
  apply Write_prelude in Hpre as (evs & Ev1 & Hnw & _).
  destruct r1 as [[]|e1].
  - destruct Hrest as (h & w2 & Hfd1 & _ & Hw & [= -> ->]).
    apply os_facts.Write_inv in Hw as (k & Ev2 & Hk & _ & Hres).
    exists evs, [Ev (CWrite h k) (os.err_of r)].
    rewrite (new_events_trans _ _ _ _ _ Ev1 Ev2). splits; [done|done|].
    right. exists h, k. splits; [done|done|].
    destruct r as [m|e]; [|done]. intros _. by destruct Hres as [_ ->].
  - destruct Hrest as ([= -> ->] & ->). exists evs, [].
    rewrite (emits_new_events _ _ _ Ev1), app_nil_r. splits; [done|done|by left].
Qed.

(** X13: the state a failed [Write] leaves.  Either the buffer was longer
    than the maximum and nothing happened; or the failure came before the
    append (in the stat, the open or the rotation): then nothing was
    appended and the logger has no handle left, with its size as it was, so
    that the next [Write] resolves the file again; or the append itself
    failed, and the logger keeps the handle and the size it had reached the
    append with.  The count is 0 in each case. *)
Theorem Write_failure_state p l w l' w' n e0 :
  Write p (l, w) = ((l', w'), (n, Some e0)) ->
  n = 0 /\
  ((len p > max l /\ l' = l /\ w' = w) \/
   (l' = with_fd l None /\ existsb is_write (new_events w w') = false) \/
   (exists h k evs,
      fd l' = Some h /\ size l' = size_before_append p l w /\
      existsb is_write evs = false /\
      new_events w w' = evs ++ [Ev (CWrite h k) (Some e0)])).
Proof.
  intros Hrun. split.
  - apply Write_unfold in Hrun as (r & _ & -> & Hr). by destruct r.
  - apply Write_effects in Hrun as (_ & _ & _ & _ & _ & _ & Hfail). by apply Hfail.
Qed.

(** X14: [Write] does not leak a file: on every path, every failure inside
    a rotation included, the handles open when it returns are those that
    were open when it was called with the handle of the logger replaced by
    the one it holds now; a handle it replaces has been closed, and so has
    every file opened for the seal.  So, once the open handles are exactly
    the one in [fd], they stay so. *)
Theorem Write_holds_one_handle p l w l' w' n e :
  Write p (l, w) = ((l', w'), (n, e)) ->
  (forall hs, open_after (handles_of l ++ hs) (new_events w w')
              = handles_of l' ++ hs) /\
  (open_after [] (trace w) = handles_of l ->
   open_after [] (trace w') = handles_of l').
Proof.
  intros Hrun.
  pose proof (Write_config _ _ _ _ _ _ Hrun) as (_ & _ & evs & Ev).
  apply Write_effects in Hrun as (_ & _ & _ & Hh & _).
  split; [done|]. intros Hinv.
  pose proof (emits_new_events _ _ _ Ev) as Hnew. destruct Ev as (-> & _).
  rewrite open_after_app, Hinv, <- Hnew.
  specialize (Hh []). by rewrite !app_nil_r in Hh.
Qed.

(** X15: a [Write] of no bytes on a logger that has a file open and is
    within its limit never rotates: it makes one call, a write of length 0,
    returns 0 with whatever that call returned, and leaves the files and
    the logger as they were. *)
Theorem Write_empty_changes_nothing l w f l' w' n e :
  fd l = Some f -> 0 <= size l <= max l ->
  Write [] (l, w) = ((l', w'), (n, e)) ->
  n = 0 /\ l' = l /\ files w' = files w /\
  new_events w w' = [Ev (CWrite f 0) e].
Proof.
  intros Hfd Hsize Hrun.
  assert (GoInt.add (size l) 0 = size l) as Hadd.
  { unfold GoInt.add. rewrite Z.add_0_r. apply GoIntFacts.wrap_exact.
    pose proof (max_in_range l) as [_ Hmax].
    unfold GoInt.in_range, GoInt.min_int in *. lia. }
  apply Write_unfold in Hrun as (r & Hbody & -> & ->).
  apply Write_body_cases in Hbody as (l1 & w1 & r1 & Hpre & Hrest);
    [|change (len []) with 0; lia].
  rewrite Hfd in Hpre. change (len []) with 0 in Hpre. rewrite Hadd in Hpre.
  assert ((size l >? max l) = false) as Hb by lia. rewrite Hb in Hpre.
  destruct Hpre as (-> & -> & ->).
  destruct Hrest as (h & w2 & Hfd1 & _ & Hw & [= -> ->]).
  rewrite Hfd in Hfd1. injection Hfd1 as <-.
  apply os_facts.Write_inv in Hw as (k & Ev & Hk & Hfs & Hres).
  assert (k = 0%nat) as -> by (cbn in Hk; lia).
  rewrite (emits_new_events _ _ _ Ev).
  assert (files w2 = files w) as Hsame.
  { rewrite Hfs. unfold os.append_to. cbn [take].
    destruct (files w !! f_name f) as [f0|] eqn:Hf0; [|done].
    by rewrite app_nil_r, file_eta, insert_id. }
  destruct r as [m|e]; cbn [os.err_of].
  - destruct Hres as [-> _]. splits; [done| |done|done].
    change (len []) with 0. rewrite Hadd. by destruct l.
  - done.
Qed.

(** X16: over a whole run on a system that does not fail, from a logger
    whose handle, if it has one, is on the file of its name, with buffers no
    longer than the maximum and a clock whose readings during the run are
    valid and differ from one another: every call returns [len(p)] and nil,
    and no byte is lost or moved.  The archives of the run are named after
    successive readings of the clock, their names differ from one another and
    from that of the log, and what they hold compressed, one after the other,
    followed by what the file holds at the end, is what the file held at the
    start followed by the buffers in the order they were written. *)
Theorem run_keeps_every_byte ps l w :
  faults w = [] -> attached l w ->
  Forall (fun p => len p <= max l) ps ->
  filepath.Base (Filename l) <> "/" ->
  (forall i, (ticks w <= i < ticks w + length ps)%nat ->
     gotime.valid (clock w i)) ->
  (forall i j, (ticks w <= i < j)%nat -> (j < ticks w + length ps)%nat ->
     clock w i <> clock w j) ->
  let w' := snd (final ps (l, w)) in
  let archive t := backupFileNameAt (Filename l) (clock w t) in
  Forall (fun st => err st = None /\ count st = len (buf st)) (run ps (l, w)) /\
  exists ts : list (nat * list byte),
    (forall i j ti tj,
       ts.*1 !! i = Some ti -> ts.*1 !! j = Some tj -> (i < j)%nat ->
       (ti < tj)%nat) /\
    NoDup (archive <$> ts.*1) /\
    Forall (fun tg =>
              archive tg.1 <> Filename l /\
              exists m, files w' !! archive tg.1
                        = Some (mkFile (gz_body tg.2 ++ gz_trailer tg.2) m))
      ts /\
    concat ts.*2 ++ os.read_all (Filename l) w'
    = os.read_all (Filename l) w ++ concat ps.
Proof.
  intros Hq Hatt Hfit Hroot Hvalid Hdistinct. cbn zeta.
  destruct (run_accounting ps l w Hq Hatt Hfit Hroot Hvalid Hdistinct)
    as (ts & Hsteps & _ & _ & _ & _ & Ht & Hts & Hnd & Hsorted & Harch & Hcat & _).
  split; [done|]. exists ts. rewrite Forall_forall in Hts. splits.
  - done.
  - apply NoDup_fmap_2_strong; [|done].
    intros t1 t2 [tg1 [-> Hin1]]%list_elem_of_fmap [tg2 [-> Hin2]]%list_elem_of_fmap Heq.
    apply Hts in Hin1, Hin2.
    apply backupFileNameAt_inj in Heq; [|done|apply Hvalid; lia..].
    destruct (Nat.lt_trichotomy tg1.1 tg2.1) as [Hlt|[Heq'|Hlt]]; [|done|].
    + by apply Hdistinct in Heq; try lia.
    + symmetry in Heq. by apply Hdistinct in Heq; try lia.
  - eapply Forall_impl; [exact Harch|]. intros tg Hm.
    split; [apply backupFileNameAt_fresh|done].
  - done.
Qed.

(** X17: the logger does not get stuck.  From a state in which the handle
    of the logger, if it has one, is on the file of its name, a call of
    [Write] leaves such a state again, whatever it returns and whatever
    failed; so once the system has stopped failing, the next [Write] of a
    buffer no longer than the maximum goes through. *)
Theorem Write_recovers p q l w l' w' n e :
  attached l w ->
  Write p (l, w) = ((l', w'), (n, e)) ->
  attached l' w' /\
  (faults w' = [] -> len q <= max l ->
   exists l2 w2, Write q (l', w') = ((l2, w2), (len q, None))).
Proof.
  intros Hatt Hrun.
  pose proof (Write_attached _ _ _ _ _ _ _ Hatt Hrun) as Hatt'.
  split; [done|]. intros Hq Hfit.
  apply Write_config in Hrun as (_ & Hm & _).
  rewrite <- (max_config _ _ Hm) in Hfit.
  destruct (Write_quiet_step q l' w' Hq Hatt' Hfit) as (l2 & w2 & Hrun2 & _).
  by exists l2, w2.
Qed.

(** X18: whatever fails, a call of [Write] loses nothing of what the log
    held: when it returns, either the file at the logger's name holds what
    it held followed by the part of the buffer that was written, or the
    complete archive of what it held is on disk under the name stamped with
    the reading of the clock this call made.  (The handle of the logger, if
    it has one, is taken to be on the file of its name.) *)
Theorem Write_never_loses_data p l w f l' w' n e :
  (forall h, fd l = Some h -> f_name h = Filename l) ->
  files w !! Filename l = Some f ->
  Write p (l, w) = ((l', w'), (n, e)) ->
  let name := Filename l in
  let dst := backupFileNameAt name (clock w (ticks w)) in
  (exists k m, (k <= length p)%nat /\
     files w' !! name = Some (mkFile (contents f ++ take k p) m)) \/
  files w' !! dst = Some (archive_of f w dst).
Proof.
  intros Hname Hf Hrun. cbn zeta.
  assert (files w !! Filename l = Some (mkFile (contents f ++ take 0 p) (perm f)))
    as Hf0 by (by rewrite Hf; cbn; rewrite app_nil_r, file_eta).
  assert (backupFileNameAt (Filename l) (clock w (ticks w)) <> Filename l)
    as Hfresh by apply backupFileNameAt_fresh.
  destruct (Z.leb_spec (len p) (max l)) as [Hfit|Hbig].
  2:{ rewrite oversize_refused in Hrun by lia. injection Hrun as <- <- <- <-.
      left. exists 0%nat, (perm f). split; [lia|done]. }
  apply Write_unfold in Hrun as (r & Hbody & -> & ->).
  apply Write_body_cases in Hbody as (l1 & w1 & r1 & Hpre & Hrest); [|done].
  assert (files w1 !! Filename l = Some f \/
          files w1 !! backupFileNameAt (Filename l) (clock w (ticks w))
          = Some (archive_of f w (backupFileNameAt (Filename l) (clock w (ticks w)))))
    as Hmid.
  { assert (forall l2 w2 r2, makeNewFile (l, w) = ((l2, w2), r2) ->
              files w2 !! Filename l = Some f \/
              files w2 !! backupFileNameAt (Filename l) (clock w (ticks w))
              = Some (archive_of f w (backupFileNameAt (Filename l) (clock w (ticks w)))))
      as Hrot.
    { intros l2 w2 r2 Hmk. destruct r2 as [[]|e2].
      - apply makeNewFile_inv in Hmk
          as (l3 & w3 & evs & [= <- <-] & _ & _ & _ & _ & _ & _ & f' & r1' & r2' & Hf' & _ & Hfs).
        rewrite Hf in Hf'. injection Hf' as <-. right. rewrite Hfs.
        unfold rotated_files. by rewrite lookup_insert_ne, lookup_insert_eq.
      - apply makeNewFile_effects in Hmk as (_ & _ & _ & _ & [Hsame|(f' & Hf' & _ & Harch & _)]).
        + left. by rewrite Hsame.
        + rewrite Hf in Hf'. injection Hf' as <-. by right. }
    destruct (fd l) as [h0|] eqn:Hfd;
      [destruct (GoInt.add (size l) (len p) >? max l)|].
    - by eapply Hrot.
    - destruct Hpre as (-> & -> & _). by left.
    - destruct r1 as [[]|e1].
      + apply openFile_inv in Hpre
          as (l2 & w2 & evs & [= <- <-] & _ & _ & _ & _ & Hok).
        rewrite Hf in Hok.
        destruct (GoInt.add (len (contents f)) (len p) >=? max l).
        * destruct Hok as (_ & r1' & r2' & _ & Hfs). right. rewrite Hfs.
          unfold rotated_files. by rewrite lookup_insert_ne, lookup_insert_eq.
        * destruct Hok as (_ & Hfs & _). left. by rewrite Hfs.
      + apply openFile_effects in Hpre as (_ & _ & _ & Hr & _); [|done].
        destruct (Hr _ eq_refl) as (_ & [Hsame|(f' & Hf' & _ & Harch)]).
        * left. by rewrite Hsame.
        * rewrite Hf in Hf'. injection Hf' as <-. by right. }
  destruct r1 as [[]|e1].
  - destruct Hrest as (h & w2 & Hfd1 & Hl1 & Hw & Hs).
    assert (w' = w2) as -> by (by injection Hs).
    apply os_facts.Write_inv in Hw as (k & _ & Hk & Hfs & _).
    assert (f_name h = Filename l) as Hh.
    { destruct Hl1 as [->|Hh]; [by apply Hname|done]. }
    rewrite Hfs, Hh. destruct Hmid as [Hkept|Harch]; [left|right].
    + exists k, (perm f). split; [done|]. unfold os.append_to.
      by rewrite Hkept, lookup_insert_eq.
    + by rewrite append_to_other.
  - destruct Hrest as ([= -> ->] & _). destruct Hmid as [Hkept|Harch]; [left|by right].
    exists 0%nat, (perm f). split; [lia|]. rewrite Hkept. cbn.
    by rewrite app_nil_r, file_eta.
Qed.

(** X19: the seal of a file that is not there fails at its first call,
    the open, with the package's error for it, and does nothing else: no
    archive is created and no file is changed. *)
Theorem seal_of_missing_file l w l' w' r :
  files w !! Filename l = None ->
  composeFile (l, w) = ((l', w'), r) ->
  r = Err (ErrOpenFile (Filename l)) /\ l' = l /\ files w' = files w /\
  exists e, new_events w w' = [Ev (COpen (Filename l)) (Some e)].
Proof.
  intros Hnone (w1 & k & e & r1 & r2 & f & data & [= -> ->] & Hk & Ev & -> & Hf &
                _ & Hfs & _)%composeFile_paths.
  destruct k as [|k]; [|by rewrite Hf in Hnone by lia].
  rewrite (emits_new_events _ _ _ Ev). splits; [done|done|done|by exists e].
Qed.

(** X20: the two tests for a rotation differ when the buffer fills the
    file exactly to the maximum.  A logger that has the file open appends
    (it rotates only when the sum is greater than the maximum); a logger
    that finds the same file on disk with no file open, as after a restart,
    rotates it first (it rotates when the sum is at least the maximum). *)
Theorem exact_fit_rotates_only_on_resume p l w f :
  faults w = [] -> fd l = None -> files w !! Filename l = Some f ->
  len (contents f) + len p = max l ->
  let name := Filename l in
  let dst := backupFileNameAt name (clock w (ticks w)) in
  (exists l' w',
     Write p (l, w) = ((l', w'), (len p, None)) /\
     ticks w' = S (ticks w) /\ os.read_all name w' = p /\
     files w' !! dst = Some (archive_of f w dst)) /\
  (exists l' w',
     Write p (resumed l (len (contents f)), w) = ((l', w'), (len p, None)) /\
     ticks w' = ticks w /\ os.read_all name w' = contents f ++ p).
Proof.
  intros Hq Hfd Hf Hsum. cbn zeta.
  pose proof (len_nonneg (contents f)) as Hc. pose proof (len_nonneg p) as Hp.
  assert (len p <= max l) as Hfit by lia.
  assert (GoInt.add (len (contents f)) (len p) = max l) as Hadd.
  { rewrite GoIntFacts.add_exact; [done|]. rewrite Hsum. apply max_in_range. }
  assert (backupFileNameAt (Filename l) (clock w (ticks w)) <> Filename l)
    as Hfresh by apply backupFileNameAt_fresh.
  split.
  - assert (attached l w) as Hatt by (intros h Hh; congruence).
    destruct (Write_quiet_step p l w Hq Hatt Hfit)
      as (l' & w' & Hrun & _ & _ & Hcase).
    exists l', w'. split; [done|].
    pose proof Hrun as (r & Hbody & _ & _)%Write_unfold.
    apply Write_body_cases in Hbody as (l1 & w1 & r1 & Hpre & Hrest); [|done].
    rewrite Hfd in Hpre.
    pose proof (openFile_effects _ _ _ _ _ _ Hfd Hpre) as (_ & _ & _ & _ & Ht1).
    rewrite Hf, Hadd in Ht1.
    assert ((max l >=? max l) = true) as Hb by lia. rewrite Hb in Ht1.
    pose proof (openFile_quiet (len p) l w Hq) as Hok.
    rewrite Hpre in Hok. cbn in Hok. subst r1. specialize (Ht1 eq_refl).
    destruct Hrest as (h & w2 & _ & _ & Hw & Hs).
    apply os_ticks.Write_ticks in Hw. assert (w' = w2) as -> by (by injection Hs).
    cbn zeta in Hcase.
    destruct Hcase as [(Ht & _)|(Ht & f' & Hf' & Hfs)]; [lia|].
    rewrite Hf in Hf'. injection Hf' as <-. splits; [done| |].
    + unfold os.read_all. by rewrite Hfs, lookup_insert_eq.
    + by rewrite Hfs, lookup_insert_ne, lookup_insert_eq.
  - assert (attached (resumed l (len (contents f))) w) as Hatt.
    { intros h [= <-]. split; [done|]. cbn. by eexists. }
    assert (max (resumed l (len (contents f))) = max l) as Hmax by done.
    destruct (Write_quiet_step p (resumed l (len (contents f))) w Hq Hatt)
      as (l' & w' & Hrun & _ & _ & Hcase); [by rewrite Hmax|].
    exists l', w'. split; [done|].
    pose proof Hrun as (r & Hbody & _ & _)%Write_unfold.
    apply Write_body_cases in Hbody as (l1 & w1 & r1 & Hpre & Hrest);
      [|by rewrite Hmax].
    cbn [resumed fd size] in Hpre. rewrite Hmax, Hadd in Hpre.
    assert ((max l >? max l) = false) as Hb by lia. rewrite Hb in Hpre.
    destruct Hpre as (-> & -> & ->).
    destruct Hrest as (h & w2 & _ & _ & Hw & Hs).
    apply os_ticks.Write_ticks in Hw. assert (w' = w2) as -> by (by injection Hs).
    cbn zeta in Hcase. cbn [resumed Filename] in Hcase.
    destruct Hcase as [(Ht & m & Hfs)|(Ht & _)]; [|lia].
    split; [done|]. unfold os.read_all at 1. rewrite Hfs, lookup_insert_eq.
    cbn. unfold os.read_all. by rewrite Hf.
Qed.

(** X21: an append that fails after writing part of the buffer is not
    counted, but the part stays in the file.  With a file open and no
    rotation due, when the append moved [k] bytes and returned an error,
    [Write] returns 0 and that error and leaves the logger as it was, while
    the file holds what it held followed by the first [k] bytes of the
    buffer; so, if the size was the length of the file before the call, the
    file is [k] bytes longer than the size after it. *)
Theorem partial_append_is_not_counted p l w h f l' w' n e k e0 :
  fd l = Some h -> f_name h = Filename l -> files w !! Filename l = Some f ->
  len p <= max l -> GoInt.add (size l) (len p) <= max l ->
  Write p (l, w) = ((l', w'), (n, e)) ->
  In (Ev (CWrite h k) (Some e0)) (new_events w w') ->
  l' = l /\ n = 0 /\ e = Some e0 /\ (k <= length p)%nat /\
  files w' !! Filename l = Some (mkFile (contents f ++ take k p) (perm f)) /\
  (len (contents f) = size l -> disk_size l' w' = Some (size l' + Z.of_nat k)).
Proof.
  intros Hfd Hname Hf Hfit Hroom Hrun Hin.
  apply Write_unfold in Hrun as (r & Hbody & -> & ->).
  apply Write_body_cases in Hbody as (l1 & w1 & r1 & Hpre & Hrest); [|done].
  rewrite Hfd in Hpre.
  assert ((GoInt.add (size l) (len p) >? max l) = false) as Hb by lia.
  rewrite Hb in Hpre. destruct Hpre as (-> & -> & ->).
  destruct Hrest as (h' & w2 & Hfd' & _ & Hw & [= -> ->]).
  rewrite Hfd in Hfd'. injection Hfd' as <-.
  apply os_facts.Write_inv in Hw as (k' & Ev & Hk & Hfs & _).
  rewrite (emits_new_events _ _ _ Ev) in Hin.
  destruct Hin as [[= -> Hr]|[]]. destruct r as [m|e]; [done|].
  injection Hr as ->.
  assert (files w2 !! Filename l
          = Some (mkFile (contents f ++ take k p) (perm f))) as Hf2.
  { rewrite Hfs, Hname. unfold os.append_to. by rewrite Hf, lookup_insert_eq. }
  splits; [done|done|done|done|done|].
  intros Hlen. unfold disk_size. rewrite Hf2. cbn. f_equal.
  unfold len in *. rewrite length_app, length_take. lia.
Qed.

(** X22: what [openFile] does when its stat fails.  If the error says that
    the file does not exist, it goes on to create the file, and that
    creation is its only other call; for any other error it stops there and
    returns the package's error for the stat, with the logger and the files
    as they were. *)
Theorem openFile_stat_error curlen l w l' w' r e0 rest :
  openFile curlen (l, w) = ((l', w'), r) ->
  new_events w w' = Ev (CStat (Filename l)) (Some e0) :: rest ->
  if IsNotExist e0
  then exists eo,
         rest = [Ev (COpenFile (Filename l) O_CREATE_WRONLY_TRUNC) eo] /\
         (eo = None <-> r = Ok tt)
  else r = Err (ErrStat (Filename l)) /\ rest = [] /\ l' = l /\
       files w' = files w.
Proof.
  intros Hrun Hev. unfold openFile in Hrun. inv_self Hrun.
  apply bind_inv in Hrun as [(s1 & r1 & Hstat & Hrun)|(e & Hstat & ->)];
    apply try_inv in Hstat as (r0 & Hstat & E); [|done]. injection E as ->.
  apply sys_inv in Hstat as (w1 & Hstat & ->).
  pose proof Hstat as (Ev1 & Hf1 & _)%os_facts.Stat_inv.
  assert (exists evs2, emits w1 w' evs2) as (evs2 & Ev2).
  { destruct r0 as [fi|e].
    - destruct (GoInt.add (fi_size fi) curlen >=? max l).
      + apply makeNewFile_inv in Hrun as (? & ? & evs & [= <- <-] & ? & _). eauto.
      + apply bind_orfail_sys_inv in Hrun
          as [(w2 & h & Hopen & Hrun)|(w2 & e & Hopen & [= -> ->] & ->)];
          apply os_facts.OpenFile_inv in Hopen as (Ev2 & _); [|by eauto].
        unfold mbind, M_bind, set_fd, set_size, modify in Hrun. cbn in Hrun.
        injection Hrun as <- <- <-. eauto.
    - destruct (IsNotExist e).
      + apply openNewFile_inv in Hrun as (w2 & eo & Ev2 & Hrun).
        destruct r; [destruct Hrun as (_ & [= -> ->] & _)
                    |destruct Hrun as (_ & [= -> ->] & _)]; eauto.
      + injection Hrun as <- <- <-. exists []. apply os_facts.emits_refl. }
  rewrite (new_events_trans _ _ _ _ _ Ev1 Ev2) in Hev.
  injection Hev as Herr <-. destruct r0 as [fi|e]; [done|]. injection Herr as ->.
  destruct (IsNotExist e0).
  - apply openNewFile_inv in Hrun as (w2 & eo & Ev2' & Hrun). exists eo.
    assert (evs2 = [Ev (COpenFile (Filename l) O_CREATE_WRONLY_TRUNC) eo]) as ->.
    { destruct r; [destruct Hrun as (_ & [= -> ->] & _)
                  |destruct Hrun as (_ & [= -> ->] & _)];
        rewrite <- (emits_new_events _ _ _ Ev2); by apply emits_new_events. }
    split; [done|]. destruct r as [[]|e].
    + by destruct Hrun as (-> & _).
    + destruct Hrun as ([e' ->] & _). by split.
  - injection Hrun as <- <- <-.
    assert (evs2 = []) as ->.
    { rewrite <- (emits_new_events _ _ _ Ev2). unfold new_events.
      by rewrite drop_all. }
    done.
Qed.

(** X23: with no file open, [Write] does not look at the size of the
    logger (which may be left over from before a failed rotation): called
    with any other size it returns the same, makes the same calls and leaves
    the same files, and leaves the same logger, except that a call which
    fails before it has opened the file leaves the size it was called
    with. *)
Theorem Write_ignores_stale_size p l w n0 :
  fd l = None ->
  snd (Write p (with_size l n0, w)) = snd (Write p (l, w)) /\
  snd (fst (Write p (with_size l n0, w))) = snd (fst (Write p (l, w))) /\
  (fst (fst (Write p (with_size l n0, w))) = fst (fst (Write p (l, w))) \/
   (snd (snd (Write p (l, w))) <> None /\
    fst (fst (Write p (l, w))) = l /\
    fst (fst (Write p (with_size l n0, w))) = with_size l n0)).
Proof.
  intros Hfd. unfold Write, Write_body. rewrite !bind_self.
  cbn [fst with_size fd]. change (max (with_size l n0)) with (max l).
  rewrite Hfd. destruct (len p >? max l).
  { cbn. splits; [done|done|]. right. by splits. }
  rewrite !bind_run, (setting_openFile (len p) l w n0).
  destruct (openFile (len p) (l, w)) as [[l1 w1] [[]|e1]] eqn:Hopen;
    cbn [fst snd].
  - splits; [done|done|by left].
  - apply openFile_effects in Hopen as (_ & _ & _ & Hl & _); [|done].
    destruct (Hl _ eq_refl) as [-> _]. splits; [done|done|]. right. by splits.
Qed.

End Methods.

(** * The further properties at work, on the sample data *)

Lemma state_eta {A} (r : State * A) : r = ((fst (fst r), snd (fst r)), snd r).
Proof. by destruct r as [[? ?] ?]. Qed.

Lemma attached_nearly_full fl : attached nearly_full (sample_world fl).
Proof. intros h [= <-]. split; [reflexivity|]. eexists. reflexivity. Qed.

(** X1 on a close that the system refuses: the handle is given up all the
    same. *)
Lemma close_drops_handle_witness :
  snd failing_close = Err (ErrSys "EIO") /\
  fd (fst (fst failing_close)) = None /\
  close (fst failing_close) = (fst failing_close, Ok tt).
Proof.
  split; [reflexivity|].
  assert (close (fresh sample_logger, sample_world [Fails "EIO" 0])
          = ((fst (fst failing_close), snd (fst failing_close)),
             snd failing_close)) as Hrun by (by vm_compute).
  destruct (close_drops_handle _ _ _ _ _ Hrun) as (Hl & _ & _ & _ & _ & Hagain).
  split; [by rewrite Hl|]. by rewrite (surjective_pairing (fst failing_close)).
Defined.

(** X2 on a log of five bytes with mode [0644]: it is emptied and keeps its
    mode. *)
Lemma openNewFile_truncates_witness :
  snd truncating_open = Ok tt /\
  fst (fst truncating_open) = fresh sample_logger /\
  files (snd (fst truncating_open)) !! "/var/log/app.log"
  = Some (mkFile [] 420).
Proof.
  split; [reflexivity|].
  assert (openNewFile (sample_logger, sample_world [])
          = ((fst (fst truncating_open), snd (fst truncating_open)), Ok tt))
    as Hrun by (by vm_compute).
  destruct (openNewFile_truncates _ _ _ _ _ Hrun) as (_ & Hl & m & Hfile & Hm).
  split; [exact Hl|].
  rewrite (Hm (mkFile (bytes "12345") 420) eq_refl) in Hfile. exact Hfile.
Defined.

(** X3 on a rotation during which the archive cannot be created. *)
Lemma failed_rotation_keeps_data_witness :
  snd failed_rotation = Err ErrOpenCompressed /\
  fd (fst (fst failed_rotation)) = None /\
  size (fst (fst failed_rotation)) = size nearly_full /\
  files (snd (fst failed_rotation)) !! "/var/log/app.log"
  = Some (mkFile (bytes "12345") 420).
Proof.
  split; [reflexivity|].
  assert (@makeNewFile stored
            (nearly_full,
             sample_world [Succeeds; Succeeds; Succeeds; Fails "ENOSPC" 0])
          = ((fst (fst failed_rotation), snd (fst failed_rotation)),
             Err ErrOpenCompressed)) as Hrun by (by vm_compute).
  destruct (@failed_rotation_keeps_data stored _ _ _ _ _ Hrun) as (Hl & Hdata).
  split; [by rewrite Hl|]. split; [by rewrite Hl|].
  destruct Hdata as [Hsame|(f & _ & _ & _ & Habs)]; [|discriminate Habs].
  exact Hsame.
Defined.

(** X4 on a rotation that goes through. *)
Lemma rotation_effect_witness :
  snd good_rotation = Ok tt /\
  fst (fst good_rotation) = fresh nearly_full /\
  (exists m,
     files (snd (fst good_rotation)) !! "/var/log/app.log"
     = Some (mkFile [] m)) /\
  (exists m,
     files (snd (fst good_rotation)) !! sample_archive
     = Some (mkFile (bytes "12345") m)).
Proof.
  split; [reflexivity|].
  assert (@makeNewFile stored (nearly_full, sample_world [])
          = ((fst (fst good_rotation), snd (fst good_rotation)), Ok tt))
    as Hrun by (by vm_compute).
  destruct (@rotation_effect stored _ _ _ _ Hrun)
    as (Hl & _ & _ & f & m & m' & Hf & Hnew & Harch & _).
  split; [exact Hl|]. split; [exists m; exact Hnew|].
  assert (f = mkFile (bytes "12345") 420) as -> by (by injection Hf).
  exists m'. exact Harch.
Defined.

(** X5 on a seal during which the copy fails: the archive and the file are
    closed all the same. *)
Lemma seal_closes_what_it_opens_witness :
  snd failing_seal = Err (ErrSys "EIO") /\
  open_after []
    (new_events (sample_world [Succeeds; Succeeds; Succeeds; Fails "EIO" 2])
       (snd (fst failing_seal)))
  = [].
Proof.
  split; [reflexivity|].
  assert (@composeFile stored
            (sample_logger,
             sample_world [Succeeds; Succeeds; Succeeds; Fails "EIO" 2])
          = ((fst (fst failing_seal), snd (fst failing_seal)),
             snd failing_seal)) as Hrun by (by vm_compute).
  destruct (@seal_closes_what_it_opens stored _ _ _ _ _ Hrun) as (_ & _ & Hh).
  exact (Hh []).
Defined.

(** X6 on a seal whose removal of the file fails: the archive and the file
    are both there. *)
Lemma failed_seal_leaves_archive_witness :
  snd unremoved_seal = Err (ErrSys "EBUSY") /\
  files (snd (fst unremoved_seal)) !! "/var/log/app.log"
  = Some (mkFile (bytes "12345") 420) /\
  files (snd (fst unremoved_seal)) !! sample_archive
  = Some (mkFile (bytes "12345") 420).
Proof.
  split; [reflexivity|].
  set (w := sample_world [Succeeds; Succeeds; Succeeds; Succeeds; Succeeds;
                          Fails "EBUSY" 0]).
  assert (@composeFile stored (sample_logger, w)
          = ((fst (fst unremoved_seal), snd (fst unremoved_seal)),
             Err (ErrSys "EBUSY"))) as Hrun by (by vm_compute).
  assert (In (Ev (COpenFile sample_archive O_CREATE_WRONLY_TRUNC) None)
            (new_events w (snd (fst unremoved_seal)))) as Hin
    by (vm_compute; tauto).
  assert (In (Ev (CRemove "/var/log/app.log") (Some (ErrSys "EBUSY")))
            (new_events w (snd (fst unremoved_seal)))) as Hrm
    by (vm_compute; tauto).
  destruct (@failed_seal_leaves_archive stored _ _ _ _ _ Hrun Hin)
    as (f & data & Hf & Hkept & Harch & _ & Hfull).
  assert (f = mkFile (bytes "12345") 420) as -> by (by injection Hf).
  split; [exact Hkept|]. rewrite (Hfull Hrm) in Harch. exact Harch.
Defined.

(** X7 on the rotating write: a file that is neither the log nor the
    archive is not touched. *)
Lemma Write_touches_two_files_witness :
  (forall h, fd nearly_full = Some h -> f_name h = Filename nearly_full) /\
  files (snd (fst rotating_write)) !! "/etc/passwd"
  = files (sample_world []) !! "/etc/passwd".
Proof.
  assert (forall h, fd nearly_full = Some h -> f_name h = Filename nearly_full)
    as Hatt by (by intros h [= <-]).
  split; [exact Hatt|].
  destruct (@Write_touches_two_files stored _ _ _ _ _ _ _ Hatt
              (result_eta rotating_write)) as (_ & _ & _ & Hframe).
  apply Hframe; vm_compute; discriminate.
Defined.

(** X8 on a write that has to rotate. *)
Lemma Write_succeeds_witness :
  faults (sample_world []) = [] /\ attached nearly_full (sample_world []) /\
  len (bytes "67890") <= max nearly_full /\
  exists l' w',
    @Write stored (bytes "67890") (nearly_full, sample_world [])
    = ((l', w'), (len (bytes "67890"), None)).
Proof.
  assert (len (bytes "67890") <= max nearly_full) as Hfit by (by vm_compute).
  splits; [reflexivity|apply attached_nearly_full|exact Hfit|].
  destruct (@Write_succeeds stored (bytes "67890") nearly_full (sample_world [])
              eq_refl (attached_nearly_full []) Hfit)
    as (l' & w' & Hrun & _).
  by exists l', w'.
Defined.

(** X10 at [MaxSize = -1], for the empty buffer. *)
Lemma negative_MaxSize_rejects_all_witness :
  - 2 ^ 43 <= MaxSize (mkLogger "app.log" (-1) 0 None) < 0 /\
  @Write stored [] (mkLogger "app.log" (-1) 0 None, empty_world)
  = ((mkLogger "app.log" (-1) 0 None, empty_world),
     (0, Some (ErrTooLarge 0 (-1048576)))).
Proof.
  assert (- 2 ^ 43 <= MaxSize (mkLogger "app.log" (-1) 0 None) < 0) as Hneg
    by (cbn; lia).
  split; [exact Hneg|].
  destruct (@negative_MaxSize_rejects_all stored []
              (mkLogger "app.log" (-1) 0 None) empty_world Hneg)
    as (_ & _ & Hrun).
  exact Hrun.
Defined.

(** X11 on an open during which the stat is refused. *)
Lemma openFile_outcomes_witness :
  snd refused_stat = Err (ErrStat "/var/log/app.log") /\
  fst (fst refused_stat) = sample_logger.
Proof.
  split; [reflexivity|].
  assert (@openFile stored 5 (sample_logger, sample_world [Fails "EACCES" 0])
          = ((fst (fst refused_stat), snd (fst refused_stat)),
             Err (ErrStat "/var/log/app.log"))) as Hrun by (by vm_compute).
  assert (0 <= 5 <= max sample_logger) as Hlen by (by vm_compute).
  destruct (@openFile_outcomes stored 5 sample_logger _ _ _ _ eq_refl Hlen Hrun)
    as (Hl & _).
  exact Hl.
Defined.

(** X12 on the short write: one append, the last call. *)
Lemma Write_appends_at_most_once_witness :
  exists evs tl,
    new_events (sample_world [Fails "ENOSPC" 3]) (snd (fst short_write))
    = evs ++ tl /\
    existsb is_write evs = false /\ (length tl <= 1)%nat.
Proof.
  destruct (@Write_appends_at_most_once stored _ _ _ _ _ _ _
              (result_eta short_write))
    as (evs & tl & Hev & Hnw & Htl).
  exists evs, tl. splits; [exact Hev|exact Hnw|].
  destruct Htl as [[-> _]|(h & k & -> & _)]; cbn; lia.
Defined.

(** X13 on a write whose rotation fails. *)
Lemma Write_failure_state_witness :
  snd (snd failed_write) = Some ErrOpenCompressed /\
  fst (snd failed_write) = 0.
Proof.
  split; [reflexivity|].
  assert (@Write stored (bytes "67890")
            (nearly_full,
             sample_world [Succeeds; Succeeds; Succeeds; Fails "ENOSPC" 0])
          = ((fst (fst failed_write), snd (fst failed_write)),
             (fst (snd failed_write), Some ErrOpenCompressed))) as Hrun
    by (by vm_compute).
  destruct (@Write_failure_state stored _ _ _ _ _ _ _ Hrun) as (Hn & _).
  exact Hn.
Defined.

(** X14 on the rotating write: the old handle is gone, the new one is the
    only one. *)
Lemma Write_holds_one_handle_witness :
  open_after [mkHandle "/var/log/app.log" O_WRONLY_APPEND]
    (new_events (sample_world []) (snd (fst rotating_write)))
  = [mkHandle "/var/log/app.log" O_CREATE_WRONLY_TRUNC].
Proof.
  destruct (@Write_holds_one_handle stored _ _ _ _ _ _ _
              (result_eta rotating_write)) as (Hh & _).
  exact (Hh []).
Defined.

(** X15 on a log of five bytes taken up again. *)
Lemma Write_empty_changes_nothing_witness :
  0 <= size (resumed sample_logger 5) <= max (resumed sample_logger 5) /\
  fst (fst empty_write) = resumed sample_logger 5 /\
  files (snd (fst empty_write)) = files (sample_world []).
Proof.
  assert (0 <= size (resumed sample_logger 5) <= max (resumed sample_logger 5))
    as Hsize by (by vm_compute).
  split; [exact Hsize|].
  destruct (@Write_empty_changes_nothing stored (resumed sample_logger 5)
              (sample_world []) _ _ _ _ _ eq_refl Hsize
              (result_eta empty_write)) as (_ & Hl & Hfs & _).
  split; [exact Hl|exact Hfs].
Defined.

(** X16 on two writes, the first of which rotates. *)
Lemma run_keeps_every_byte_witness :
  Forall (fun p => len p <= max nearly_full) two_writes /\
  filepath.Base (Filename nearly_full) <> "/" /\
  Forall (fun st => err st = None /\ count st = len (buf st))
    (@run stored two_writes (nearly_full, sample_world [])) /\
  exists ts : list (nat * list byte),
    Forall (fun tg =>
              exists m,
                files (snd (@final stored two_writes (nearly_full, sample_world [])))
                  !! backupFileNameAt "/var/log/app.log" (sample_clock tg.1)
                = Some (mkFile (@gz_body stored tg.2 ++ @gz_trailer stored tg.2) m))
      ts /\
    concat ts.*2
      ++ os.read_all "/var/log/app.log"
           (snd (@final stored two_writes (nearly_full, sample_world [])))
    = bytes "12345" ++ concat two_writes.
Proof.
  assert (Forall (fun p => len p <= max nearly_full) two_writes) as Hfit
    by (repeat constructor; by vm_compute).
  assert (filepath.Base (Filename nearly_full) <> "/") as Hroot by done.
  split; [exact Hfit|]. split; [exact Hroot|].
  assert (forall i, (ticks (sample_world []) <= i
                     < ticks (sample_world []) + length two_writes)%nat ->
            gotime.valid (clock (sample_world []) i)) as Hvalid.
  { intros i Hi. cbn in Hi.
    destruct i as [|[|i]]; [| |lia]; vm_compute; intuition discriminate. }
  assert (forall i j, (ticks (sample_world []) <= i < j)%nat ->
            (j < ticks (sample_world []) + length two_writes)%nat ->
            clock (sample_world []) i <> clock (sample_world []) j) as Hdistinct.
  { intros i j Hi Hj. cbn in Hi, Hj.
    destruct i as [|i]; [|lia]. destruct j as [|[|j]]; [lia| |lia].
    discriminate. }
  destruct (@run_keeps_every_byte stored two_writes nearly_full (sample_world [])
              eq_refl (attached_nearly_full []) Hfit Hroot Hvalid Hdistinct)
    as (Hsteps & ts & _ & _ & Harch & Hcat).
  split; [exact Hsteps|]. exists ts. split; [|exact Hcat].
  eapply Forall_impl; [exact Harch|]. intros tg [_ Hm]. exact Hm.
Defined.

(** X17 on a write whose rotation fails, and the same write again once the
    system has stopped failing. *)
Lemma Write_recovers_witness :
  snd (snd failed_write) = Some ErrOpenCompressed /\
  exists l2 w2,
    @Write stored (bytes "67890") (fst failed_write)
    = ((l2, w2), (len (bytes "67890"), None)).
Proof.
  split; [reflexivity|].
  assert (faults (snd (fst failed_write)) = []) as Hq by reflexivity.
  assert (len (bytes "67890") <= max nearly_full) as Hfit by (by vm_compute).
  destruct (@Write_recovers stored (bytes "67890") (bytes "67890") _ _ _ _ _ _
              (attached_nearly_full _) (result_eta failed_write))
    as (_ & Hnext).
  destruct (Hnext Hq Hfit) as (l2 & w2 & Hrun).
  exists l2, w2. by rewrite (surjective_pairing (fst failed_write)).
Defined.

(** X18 on the short write: the log holds what it held and the three bytes
    that were written. *)
Lemma Write_never_loses_data_witness :
  (forall h, fd (fresh sample_logger) = Some h ->
     f_name h = Filename (fresh sample_logger)) /\
  ((exists k m, (k <= length (bytes "67890"))%nat /\
      files (snd (fst short_write)) !! "/var/log/app.log"
      = Some (mkFile (bytes "12345" ++ take k (bytes "67890")) m)) \/
   files (snd (fst short_write)) !! sample_archive
   = Some (@archive_of stored (mkFile (bytes "12345") 420)
             (sample_world [Fails "ENOSPC" 3]) sample_archive)).
Proof.
  assert (forall h, fd (fresh sample_logger) = Some h ->
            f_name h = Filename (fresh sample_logger)) as Hname
    by (by intros h [= <-]).
  split; [exact Hname|].
  exact (@Write_never_loses_data stored (bytes "67890") (fresh sample_logger)
           (sample_world [Fails "ENOSPC" 3]) (mkFile (bytes "12345") 420)
           _ _ _ _ Hname eq_refl (result_eta short_write)).
Defined.

(** X19 on an empty disk. *)
Lemma seal_of_missing_file_witness :
  files empty_world !! Filename sample_logger = None /\
  snd missing_seal = Err (ErrOpenFile "/var/log/app.log") /\
  files (snd (fst missing_seal)) = files empty_world.
Proof.
  split; [reflexivity|].
  destruct (@seal_of_missing_file stored sample_logger empty_world _ _ _
              eq_refl (state_eta missing_seal)) as (Hr & _ & Hfs & _).
  split; [exact Hr|exact Hfs].
Defined.

(** X20 on a log that five more bytes fill exactly to the limit of 1 MiB. *)
Lemma exact_fit_rotates_only_on_resume_witness :
  len (contents nearly_full_log) + len (bytes "67890") = max sample_logger /\
  (exists l' w',
     @Write stored (bytes "67890") (sample_logger, nearly_full_world)
     = ((l', w'), (len (bytes "67890"), None)) /\
     ticks w' = 1%nat) /\
  (exists l' w',
     @Write stored (bytes "67890")
       (resumed sample_logger (len (contents nearly_full_log)), nearly_full_world)
     = ((l', w'), (len (bytes "67890"), None)) /\
     ticks w' = 0%nat).
Proof.
  assert (len (contents nearly_full_log) + len (bytes "67890")
          = max sample_logger) as Hsum.
  { unfold len, nearly_full_log. cbn [contents].
    rewrite repeat_length, Z2Nat.id by lia. reflexivity. }
  split; [exact Hsum|].
  assert (files nearly_full_world !! Filename sample_logger
          = Some nearly_full_log) as Hf by apply lookup_singleton_eq.
  pose proof (@exact_fit_rotates_only_on_resume stored (bytes "67890")
                sample_logger nearly_full_world nearly_full_log
                eq_refl eq_refl Hf Hsum) as Hfit.
  cbv zeta in Hfit.
  destruct Hfit as [(l1 & w1 & Hrun1 & Ht1 & _) (l2 & w2 & Hrun2 & Ht2 & _)].
  split.
  - exists l1, w1. split; [exact Hrun1|exact Ht1].
  - exists l2, w2. split; [exact Hrun2|exact Ht2].
Defined.

(** X21 on an append that the disk cuts short after three bytes: the size
    stays 5, the file is 8 bytes long. *)
Lemma partial_append_is_not_counted_witness :
  len (bytes "67890") <= max (resumed sample_logger 5) /\
  snd short_append = (0, Some (ErrSys "ENOSPC")) /\
  size (fst (fst short_append)) = 5 /\
  disk_size (fst (fst short_append)) (snd (fst short_append)) = Some 8.
Proof.
  assert (len (bytes "67890") <= max (resumed sample_logger 5)) as Hfit
    by (by vm_compute).
  assert (GoInt.add (size (resumed sample_logger 5)) (len (bytes "67890"))
          <= max (resumed sample_logger 5)) as Hroom by (by vm_compute).
  assert (In (Ev (CWrite (mkHandle "/var/log/app.log" O_WRONLY_APPEND) 3)
                (Some (ErrSys "ENOSPC")))
            (new_events (sample_world [Fails "ENOSPC" 3]) (snd (fst short_append))))
    as Hin by (by vm_compute; left).
  split; [exact Hfit|].
  destruct (@partial_append_is_not_counted stored (bytes "67890")
              (resumed sample_logger 5) (sample_world [Fails "ENOSPC" 3])
              (mkHandle "/var/log/app.log" O_WRONLY_APPEND)
              (mkFile (bytes "12345") 420) _ _ _ _ 3%nat (ErrSys "ENOSPC")
              eq_refl eq_refl eq_refl Hfit Hroom (result_eta short_append) Hin)
    as (Hl & _ & _ & _ & _ & Hdisk).
  split; [by vm_compute|].
  split; [exact (f_equal size Hl)|].
  etransitivity; [exact (Hdisk eq_refl)|]. by vm_compute.
Defined.

(** X22 on an open during which the stat is refused. *)
Lemma openFile_stat_error_witness :
  new_events (sample_world [Fails "EACCES" 0]) (snd (fst refused_stat))
  = [Ev (CStat "/var/log/app.log") (Some (ErrSys "EACCES"))] /\
  snd refused_stat = Err (ErrStat "/var/log/app.log") /\
  files (snd (fst refused_stat)) = files (sample_world [Fails "EACCES" 0]).
Proof.
  assert (new_events (sample_world [Fails "EACCES" 0]) (snd (fst refused_stat))
          = [Ev (CStat (Filename sample_logger)) (Some (ErrSys "EACCES"))])
    as Hev by (by vm_compute).
  split; [exact Hev|].
  destruct (@openFile_stat_error stored 5 sample_logger
              (sample_world [Fails "EACCES" 0]) _ _ _ _ _
              (state_eta refused_stat) Hev) as (Hr & _ & _ & Hfs).
  split; [exact Hr|exact Hfs].
Defined.

(** X23 on a new logger with a size left over. *)
Lemma Write_ignores_stale_size_witness :
  snd (@Write stored (bytes "67890")
         (with_size sample_logger 1048574, sample_world []))
  = snd (@Write stored (bytes "67890") (sample_logger, sample_world [])).
Proof.
  destruct (@Write_ignores_stale_size stored (bytes "67890") sample_logger
              (sample_world []) 1048574 eq_refl) as (Hsame & _).
  exact Hsame.
Defined.
